(** * Verification of the 7-bit bracketing dependency encoding

    Shallow embedding of [codelin/encs/enc_deps/brk_7bits.py]
    (class [D_Brk7BitsEncoding]) and of the parts of the tree model it
    relies on, followed by the properties of the encoder, of the bracket
    merge and of the stack decoder.

    Python values are modelled as follows: [int] is [Z], [str] is
    [string], a [list] is a [list] read and written through Python's
    index rule (negative indices count from the end, anything else out
    of range raises [IndexError]).  A computation that can raise returns
    an [option]: [None] stands for the raised [IndexError], the only
    exception the embedded code can raise on the inputs considered. *)

From Stdlib Require Import ZArith Lia Ascii String Sorting.Sorted Permutation.
From stdpp Require Import base option list strings sorting.

Local Open Scope Z_scope.

(** ** Python strings and lists *)

Module Py.

(** [sub in s] on strings: [sub] occurs in [s] as a contiguous block. *)
Fixpoint contains (sub s : string) : bool :=
  String.prefix sub s
  || match s with
     | EmptyString => false
     | String _ s' => contains sub s'
     end.

(** [list(s)]: the one-character strings of [s]. *)
Fixpoint chars (s : string) : list string :=
  match s with
  | EmptyString => []
  | String c s' => String c EmptyString :: chars s'
  end.

(** Position denoted by the index [k] in a list of length [n]. *)
Definition index (n : nat) (k : Z) : option nat :=
  if 0 <=? k then
    if k <? Z.of_nat n then Some (Z.to_nat k) else None
  else
    if - Z.of_nat n <=? k then Some (Z.to_nat (k + Z.of_nat n)) else None.

(** [l[k]] *)
Definition get {A} (l : list A) (k : Z) : option A :=
  j ← index (length l) k; l !! j.

(** [l[k] = v] *)
Definition set {A} (l : list A) (k : Z) (v : A) : option (list A) :=
  j ← index (length l) k; Some (<[j:=v]> l).

(** A Python list used as a stack ([append], [l[-1]], [pop]) is kept
    with its last element first: [append x] is [x :: l]. *)

(** [l[-1] if len(l) > 0 else d] *)
Definition top_or {A} (d : A) (stack : list A) : A :=
  match stack with
  | [] => d
  | x :: _ => x
  end.

(** [l.pop()], of which the code uses only the effect on [l]. *)
Definition pop {A} (stack : list A) : option (list A) :=
  match stack with
  | [] => None
  | _ :: rest => Some rest
  end.

(** A loop [for x in l] whose body can raise. *)
Fixpoint for_each {A S} (body : S → A → option S) (l : list A) (s : S)
  : option S :=
  match l with
  | [] => Some s
  | x :: l' => s' ← body s x; for_each body l' s'
  end.

End Py.

(** ** Constants of [codelin/utils/constants.py] *)

Definition D_NONE_LABEL : string := "-NONE-".

(** ** [D_Brk7BitsEncoding._merge_brackets] *)

(** [x in ['1', '0']] *)
Definition is_plane_digit (x : string) : bool :=
  String.eqb x "1" || String.eqb x "0".

(** One iteration of the loop [for i in range(len(brks))]. *)
Definition merge_iter (brks : list string) (i : Z) : option (list string) :=
  b ← Py.get brks i;
  brks1 ← (if is_plane_digit b then
             p ← Py.get brks (i - 1);
             brks' ← Py.set brks (i - 1) (p +:+ b);
             Py.set brks' i EmptyString
           else Some brks);
  b1 ← Py.get brks1 i;
  if String.eqb b1 "*" then
    p ← Py.get brks1 (i - 2);
    brks' ← Py.set brks1 (i - 2) (p +:+ "*");
    Py.set brks' i EmptyString
  else Some brks1.

(** The loop over [range(len(brks))], from index [i] on, [k] rounds. *)
Fixpoint merge_loop (k : nat) (i : Z) (brks : list string)
  : option (list string) :=
  match k with
  | O => Some brks
  | S k' => brks' ← merge_iter brks i; merge_loop k' (i + 1) brks'
  end.

Definition nonempty (s : string) : bool := negb (String.eqb s EmptyString).

Definition _merge_brackets (brks : list string) : option (list string) :=
  brks' ← merge_loop (length brks) 0 brks;
  Some (List.filter nonempty brks').

(** ** Tree model *)

(** Modelled from the spec: the node record of [codelin.models.deps_tree]
    (section 3, Node).  [head] is [None] while unset. *)
Record D_Node := mk_node {
  id : Z;
  head : option Z;
  relation : string;
  word : string;
  upos : string;
  feats : list (string * string)
}.

(** Modelled from the spec: a tree is the ordered sequence of its nodes;
    position 0 holds the virtual root sentinel (id 0).  [len(tree)] is
    the number of stored nodes and iteration yields them in order. *)
Abbreviation D_Tree := (list D_Node).

(** Modelled from the spec: [D_Tree.empty_tree(n)], the decode target
    (section 4.1): [n] nodes with ids [0 .. n-1] and all heads unset. *)
Definition empty_node (i : Z) : D_Node :=
  mk_node i None EmptyString EmptyString EmptyString [].

Definition empty_tree (n : nat) : D_Tree :=
  List.map (fun i => empty_node (Z.of_nat i)) (seq 0 n).

(** Modelled from the spec: the mutators of section 4.1; each one writes
    one field of the node stored at index [k]. *)
Definition set_head (h : Z) (nd : D_Node) : D_Node :=
  mk_node (id nd) (Some h) (relation nd) (word nd) (upos nd) (feats nd).

Definition set_word (w : string) (nd : D_Node) : D_Node :=
  mk_node (id nd) (head nd) (relation nd) w (upos nd) (feats nd).

Definition set_upos (p : string) (nd : D_Node) : D_Node :=
  mk_node (id nd) (head nd) (relation nd) (word nd) p (feats nd).

Definition set_relation (r : string) (nd : D_Node) : D_Node :=
  mk_node (id nd) (head nd) r (word nd) (upos nd) (feats nd).

Definition update_node (f : D_Node → D_Node) (t : D_Tree) (k : Z)
  : option D_Tree :=
  nd ← Py.get t k; Py.set t k (f nd).

Definition update_head (t : D_Tree) (k : Z) (h : Z) : option D_Tree :=
  update_node (set_head h) t k.

Definition update_word (t : D_Tree) (k : Z) (w : string) : option D_Tree :=
  update_node (set_word w) t k.

Definition update_upos (t : D_Tree) (k : Z) (p : string) : option D_Tree :=
  update_node (set_upos p) t k.

Definition update_relation (t : D_Tree) (k : Z) (r : string)
  : option D_Tree :=
  update_node (set_relation r) t k.

(** Modelled from the spec: [D_Tree.remove_dummy], the removal of the
    virtual root sentinel (section 4.1). *)
Definition remove_dummy (t : D_Tree) : D_Tree := List.tl t.

(** Modelled from the spec: a label is the pair of a bracket payload
    [xi] and a relation [li] (section 3, Label). *)
Record D_Label := mk_label { xi : string; li : string }.

(** Modelled from the spec: a linearized tree is the ordered sequence of
    rows (word, tag, features, label); [iterrows] yields it forward or
    backward without changing it (section 3, LinearizedTree). *)
Record Row := mk_row {
  r_word : string;
  r_postag : string;
  r_feats : list (string * string);
  r_label : D_Label
}.

Abbreviation LinearizedTree := (list Row).

Inductive direction := l2r | r2l.

Definition is_l2r (d : direction) : bool :=
  match d with l2r => true | r2l => false end.

Definition iterrows (lt : LinearizedTree) (dir : direction) : list Row :=
  match dir with
  | l2r => lt
  | r2l => List.rev lt
  end.

(** ** [list.sort(key=...)] *)

(** Python's sort is stable; insertion from the right end keeps equal
    keys in their original order. *)
Section Sort.
Context {A K : Type} (key : A → K) (leb : K → K → bool).

Fixpoint sort_insert (x : A) (l : list A) : list A :=
  match l with
  | [] => [x]
  | y :: l' => if leb (key x) (key y) then x :: y :: l'
               else y :: sort_insert x l'
  end.

Fixpoint sort_by (l : list A) : list A :=
  match l with
  | [] => []
  | x :: l' => sort_insert x (sort_by l')
  end.
End Sort.

(** Order of Python tuples [(bool, str)]: [False < True], then the
    strings by code point. *)
Definition key_leb (k1 k2 : bool * string) : bool :=
  match fst k1, fst k2 with
  | false, true => true
  | true, false => false
  | _, _ => String.leb (snd k1) (snd k2)
  end.

(** ** [D_Brk7BitsEncoding._decoding_step] *)

(** [lambda x: (x == "\" + planar_idx, x)] *)
Definition r2l_key (planar_idx : string) (x : string) : bool * string :=
  (String.eqb x ("\" +:+ planar_idx), x).

(** The tokens of a node in the order the pass reads them. *)
Definition pass_order (direction : direction) (planar_idx : string)
    (brks : list string) : list string :=
  match direction with
  | r2l => sort_by (r2l_key planar_idx) key_leb brks
  | l2r => brks
  end.

Definition s_append_brk (direction : direction) (planar_idx : string) :=
  if is_l2r direction then "/" +:+ planar_idx else "\" +:+ planar_idx.

Definition s_peek_brk (direction : direction) (planar_idx : string) :=
  if is_l2r direction then ">" +:+ planar_idx else "<" +:+ planar_idx.

(** Body of [for char in brks]; the state is the stack and the tree. *)
Definition token_step (s_append s_peek : string) (current_node : Z)
    (st : list Z * D_Tree) (char : string) : option (list Z * D_Tree) :=
  let stack1 :=
    if Py.contains s_append char then current_node :: st.1 else st.1 in
  if Py.contains s_peek char then
    let head_id := Py.top_or 0 stack1 in
    tree1 ← update_head st.2 current_node head_id;
    if Py.contains "*" char then
      stack2 ← Py.pop stack1; Some (stack2, tree1)
    else Some (stack1, tree1)
  else Some (stack1, st.2).

Record pass_state := mk_pass {
  stack : list Z;
  tree : D_Tree;
  current_node : Z
}.

(** Body of [for word, postag, features, label in lin_tree.iterrows(...)]. *)
Definition row_step (direction : direction) (planar_idx : string)
    (s : pass_state) (row : Row) : option pass_state :=
  let label := r_label row in
  let chars :=
    if String.eqb (xi label) D_NONE_LABEL then [] else Py.chars (xi label) in
  brks ← _merge_brackets chars;
  let brks := pass_order direction planar_idx brks in
  t1 ← update_word (tree s) (current_node s) (r_word row);
  t2 ← update_upos t1 (current_node s) (r_postag row);
  t3 ← update_relation t2 (current_node s) (li label);
  st ← Py.for_each
          (token_step (s_append_brk direction planar_idx)
                      (s_peek_brk direction planar_idx) (current_node s))
          brks (stack s, t3);
  Some (mk_pass st.1 st.2
          (if is_l2r direction then current_node s + 1
           else current_node s - 1)).

Definition _decoding_step (lin_tree : LinearizedTree) (decoded_tree : D_Tree)
    (planar_idx : string) (direction : direction) : option D_Tree :=
  let start :=
    if is_l2r direction then 0 else Z.of_nat (length lin_tree) - 1 in
  s ← Py.for_each (row_step direction planar_idx)
        (iterrows lin_tree direction) (mk_pass [] decoded_tree start);
  Some (tree s).

(** ** [D_Brk7BitsEncoding.decode] *)

Definition decode (lin_tree : LinearizedTree) : option D_Tree :=
  let decoded_tree := empty_tree (length lin_tree) in
  t1 ← _decoding_step lin_tree decoded_tree "0" l2r;
  t2 ← _decoding_step lin_tree t1 "0" r2l;
  t3 ← _decoding_step lin_tree t2 "1" l2r;
  t4 ← _decoding_step lin_tree t3 "1" r2l;
  Some t4.

(** ** Planes *)

(** Modelled from the spec: [D_Node.is_left_arc], the arc of a node is a
    left arc when the dependent precedes its governor (section 3, Arc). *)
Definition is_left_arc (dependent governor : Z) : bool :=
  dependent <? governor.

(** A plane is the ordered list of the arcs assigned to it, each arc
    given by its dependent node. *)
Abbreviation D_Plane := (list D_Node).

(** Modelled from the spec: [is_leftmost] and [is_rightmost] of a plane
    view (section 4.3): among the arcs of the plane with the same
    governor, the left dependent of smallest id and the right dependent
    of largest id are flagged.  The sentinel has no arc (section 3). *)
Definition same_group (left : bool) (h : Z) (m : D_Node) : bool :=
  negb (id m =? 0)
  && match head m with
     | Some hm => (hm =? h) && Bool.eqb (is_left_arc (id m) hm) left
     | None => false
     end.

Definition is_leftmost (plane : D_Plane) (node : D_Node) : bool :=
  match head node with
  | Some h =>
      is_left_arc (id node) h
      && forallb (fun m => implb (same_group true h m) (id node <=? id m))
                 plane
  | None => false
  end.

Definition is_rightmost (plane : D_Plane) (node : D_Node) : bool :=
  match head node with
  | Some h =>
      negb (is_left_arc (id node) h)
      && forallb (fun m => implb (same_group false h m) (id m <=? id node))
                 plane
  | None => false
  end.

(** Modelled from the spec: the arc crossing test of section 4.2 on the
    spans of two arcs. *)
Definition spans_cross (lo1 hi1 lo2 hi2 : Z) : bool :=
  let inside x := (lo1 <? x) && (x <? hi1) in
  let outside x := (x <? lo1) || (hi1 <? x) in
  (inside lo2 && outside hi2) || (inside hi2 && outside lo2).

Definition arcs_cross (a b : D_Node) : bool :=
  match head a, head b with
  | Some ha, Some hb =>
      spans_cross (Z.min (id a) ha) (Z.max (id a) ha)
                  (Z.min (id b) hb) (Z.max (id b) hb)
  | _, _ => false
  end.

(** Modelled from the spec: [D_Tree.two_planar_greedy], the greedy
    policy of section 4.3.  Arcs are taken in ascending dependent
    order; an arc goes to plane 0 if it crosses no arc already there,
    else to plane 1 under the same test, else it is left out. *)
Definition fits (plane : D_Plane) (a : D_Node) : bool :=
  forallb (fun b => negb (arcs_cross a b)) plane.

Definition greedy_place (planes : D_Plane * D_Plane) (a : D_Node)
  : D_Plane * D_Plane :=
  if id a =? 0 then planes
  else if fits planes.1 a then (planes.1 ++ [a], planes.2)
  else if fits planes.2 a then (planes.1, planes.2 ++ [a])
  else planes.

Definition two_planar_greedy (dep_tree : D_Tree) : D_Plane * D_Plane :=
  List.fold_left greedy_place dep_tree ([], []).

(** ** [D_Brk7BitsEncoding.encode] *)

(** [labels_brk[k] += s] *)
Definition append_at (labels_brk : list string) (k : Z) (s : string)
  : option (list string) :=
  cur ← Py.get labels_brk k; Py.set labels_brk k (cur +:+ s).

(** [labels_brk[k] += m if m not in labels_brk[k] else ""] *)
Definition append_once (labels_brk : list string) (k : Z) (m : string)
  : option (list string) :=
  cur ← Py.get labels_brk k;
  Py.set labels_brk k
         (cur +:+ (if negb (Py.contains m cur) then m else EmptyString)).

(** Body of [for node in plane] in [encoding_step].  Comparing an unset
    head raises. *)
Definition encoding_node (plane : D_Plane) (brk_chars : list string)
    (labels_brk : list string) (node : D_Node) : option (list string) :=
  if id node =? 0 then Some labels_brk
  else
    h ← head node;
    if is_left_arc (id node) h then
      c0 ← Py.get brk_chars 0;
      lb1 ← append_at labels_brk (id node) c0;
      lb2 ← (if is_leftmost plane node then append_at lb1 (id node) "*"
             else Some lb1);
      c1 ← Py.get brk_chars 1;
      append_once lb2 h c1
    else
      c2 ← Py.get brk_chars 2;
      lb1 ← append_at labels_brk (id node) c2;
      lb2 ← (if is_rightmost plane node then append_at lb1 (id node) "*"
             else Some lb1);
      c3 ← Py.get brk_chars 3;
      append_once lb2 h c3.

Definition encoding_step (plane : D_Plane) (labels_brk : list string)
    (brk_chars : list string) : option (list string) :=
  Py.for_each (encoding_node plane brk_chars) plane labels_brk.

(** The markers of plane [p]: [<p], [\p], [>p], [/p]. *)
Definition brk_chars_of (p : string) : list string :=
  ["<" +:+ p; "\" +:+ p; ">" +:+ p; "/" +:+ p].

(** [for node in dep_tree: encoded_labels.append(D_Label(xi, li, sep))] *)
Fixpoint generate_labels (labels_brk : list string) (nodes : list D_Node)
  : option (list D_Label) :=
  match nodes with
  | [] => Some []
  | node :: rest =>
      x ← Py.get labels_brk (id node);
      ls ← generate_labels labels_brk rest;
      Some (mk_label x (relation node) :: ls)
  end.

(** Modelled from the spec: the constructor of [LinearizedTree] puts the
    word, tag, feature and label columns side by side. *)
Fixpoint make_rows (words postags : list string)
    (fs : list (list (string * string))) (labels : list D_Label)
  : LinearizedTree :=
  match words, postags, fs, labels with
  | w :: ws, p :: ps, f :: fs', l :: ls =>
      mk_row w p f l :: make_rows ws ps fs' ls
  | _, _, _, _ => []
  end.

Section Encode.
(** The partitioner selected by [planar_alg]. *)
Variable two_planar : D_Tree → D_Plane * D_Plane.

Definition encode (dep_tree : D_Tree) : option LinearizedTree :=
  let labels_brk := List.repeat EmptyString (length dep_tree + 1) in
  let planes := two_planar dep_tree in
  lb1 ← encoding_step planes.1 labels_brk (brk_chars_of "0");
  lb2 ← encoding_step planes.2 lb1 (brk_chars_of "1");
  encoded_labels ← generate_labels lb2 dep_tree;
  Some (make_rows (List.map word dep_tree) (List.map upos dep_tree)
                  (List.map feats dep_tree) encoded_labels).
End Encode.

(** ** Helpers for concrete inputs *)

Definition row_of (payload : string) : Row :=
  mk_row "w" "t" [] (mk_label payload "rel").

Definition heads_of (t : option D_Tree) : option (list (option Z)) :=
  List.map head <$> t.

Definition node_of (i : Z) (h : option Z) : D_Node :=
  mk_node i h "rel" "w" "t" [].

Definition payloads (lt : option LinearizedTree) : option (list string) :=
  List.map (fun r => xi (r_label r)) <$> lt.

(** ** Well-formed bracket tokens *)

(** A slot the merge loop leaves alone: neither a plane digit nor [*]. *)
Definition plain (s : string) : bool :=
  negb (is_plane_digit s) && negb (String.eqb s "*").

(** A token as the encoder writes it, or any token of the same shape: a
    boundary character, then possibly a plane digit, then possibly [*]. *)
Definition bracket_token (s : string) : bool :=
  match s with
  | EmptyString => false
  | String c rest =>
      plain (String c EmptyString)
      && existsb (String.eqb rest) [EmptyString; "0"; "1"; "0*"; "1*"]
  end.

(** The fragment spelled by a list of tokens. *)
Definition join (toks : list string) : string :=
  List.fold_right String.append EmptyString toks.

(** The slots a token occupies once merged: the token, then one empty
    slot for each character fused into it. *)
Definition slots_of (tok : string) : list string :=
  tok :: List.repeat EmptyString (String.length tok - 1).

(** ** Reading order of a right-to-left pass *)

(** The bare opening marker [\p] of plane [p]. *)
Definition is_bare (p x : string) : bool := String.eqb x ("\" +:+ p).

(** Ascending lexicographic order on strings. *)
Definition sort_strings (l : list string) : list string :=
  sort_by (fun x : string => x) String.leb l.

(** ** Head assignments of a pass, apart from the tree *)

(** What [token_step] does to the stack, and the head it last assigned
    to the current node, if any. *)
Definition head_step (s_append s_peek : string) (current_node : Z)
    (st : list Z * option Z) (char : string) : option (list Z * option Z) :=
  let stack1 :=
    if Py.contains s_append char then current_node :: st.1 else st.1 in
  if Py.contains s_peek char then
    let head_id := Py.top_or 0 stack1 in
    if Py.contains "*" char then
      stack2 ← Py.pop stack1; Some (stack2, Some head_id)
    else Some (stack1, Some head_id)
  else Some (stack1, st.2).

(** The tokens a pass reads on a row. *)
Definition row_tokens (direction : direction) (planar_idx : string)
    (row : Row) : option (list string) :=
  let x := xi (r_label row) in
  brks ← _merge_brackets
            (if String.eqb x D_NONE_LABEL then [] else Py.chars x);
  Some (pass_order direction planar_idx brks).

Definition row_heads (direction : direction) (planar_idx : string)
    (current_node : Z) (stack : list Z) (row : Row)
  : option (list Z * option Z) :=
  toks ← row_tokens direction planar_idx row;
  Py.for_each (head_step (s_append_brk direction planar_idx)
                         (s_peek_brk direction planar_idx) current_node)
              toks (stack, None).

Definition next_node (direction : direction) (current_node : Z) : Z :=
  if is_l2r direction then current_node + 1 else current_node - 1.

(** The heads assigned along the rows, in the order they are visited. *)
Fixpoint heads_run (direction : direction) (planar_idx : string)
    (current_node : Z) (rows : list Row) (stack : list Z)
  : option (list Z * list (option Z)) :=
  match rows with
  | [] => Some (stack, [])
  | row :: rows' =>
      r ← row_heads direction planar_idx current_node stack row;
      r' ← heads_run direction planar_idx
             (next_node direction current_node) rows' r.1;
      Some (r'.1, r.2 :: r'.2)
  end.

(** The heads assigned by a whole pass, in the order of the rows. *)
Definition pass_heads (lin_tree : LinearizedTree) (planar_idx : string)
    (direction : direction) : option (list (option Z)) :=
  match direction with
  | l2r => snd <$> heads_run l2r planar_idx 0 lin_tree []
  | r2l => (fun r => List.rev r.2)
             <$> heads_run r2l planar_idx
                   (Z.of_nat (length lin_tree) - 1) (List.rev lin_tree) []
  end.

(** The node a pass leaves at a position. *)
Definition set_head_opt (oh : option Z) (nd : D_Node) : D_Node :=
  match oh with
  | Some h => set_head h nd
  | None => nd
  end.

Definition decoded_node (row : Row) (oh : option Z) (nd : D_Node) : D_Node :=
  set_head_opt oh
    (set_relation (li (r_label row))
       (set_upos (r_postag row) (set_word (r_word row) nd))).

Fixpoint apply_heads (rows : list Row) (heads : list (option Z))
    (t : D_Tree) : D_Tree :=
  match rows, heads, t with
  | row :: rows', oh :: heads', nd :: t' =>
      decoded_node row oh nd :: apply_heads rows' heads' t'
  | _, _, _ => []
  end.

(** ** Passes in a given order *)

(** The passes of [decode] as configuration records, in its order. *)
Definition decode_passes : list (string * direction) :=
  [("0", l2r); ("0", r2l); ("1", l2r); ("1", r2l)].

(** The passes of [order] run one after the other on [t]. *)
Definition run_passes (order : list (string * direction))
    (lin_tree : LinearizedTree) (t : D_Tree) : option D_Tree :=
  Py.for_each (fun t' pass => _decoding_step lin_tree t' pass.1 pass.2)
              order t.

(** ** Bracket balance of a label sequence *)

(** Height of the stack of a pass after a token, starting from height
    [d]; undefined when a starred resolving token finds the stack empty. *)
Definition depth_step (s_append s_peek : string) (d : nat) (char : string)
  : option nat :=
  let d1 := if Py.contains s_append char then S d else d in
  if Py.contains s_peek char && Py.contains "*" char then
    match d1 with
    | O => None
    | S d' => Some d'
    end
  else Some d1.

Definition row_depth (direction : direction) (planar_idx : string)
    (d : nat) (row : Row) : option nat :=
  Py.for_each (depth_step (s_append_brk direction planar_idx)
                          (s_peek_brk direction planar_idx))
              (default [] (row_tokens direction planar_idx row)) d.

(** No starred resolving token of the pass is met with an empty stack. *)
Definition balanced (lin_tree : LinearizedTree) (pass : string * direction)
  : bool :=
  match Py.for_each (row_depth pass.2 pass.1) (iterrows lin_tree pass.2)
                    0%nat with
  | Some _ => true
  | None => false
  end.

(** A position of a sequence of [n] rows. *)
Definition in_range (n : nat) (h : Z) : Prop := 0 <= h < Z.of_nat n.

Definition head_in_range (n : nat) (oh : option Z) : Prop :=
  ∀ h, oh = Some h → in_range n h.


(** The positions a pass still has to visit lie in the sequence. *)
Definition cursor_ok (n : nat) (dir : direction) (cur : Z) (k : nat) : Prop :=
  match dir with
  | l2r => 0 <= cur ∧ cur + Z.of_nat k <= Z.of_nat n
  | r2l => cur < Z.of_nat n ∧ -1 <= cur - Z.of_nat k
  end.

(** ** Opening and resolving tokens of a pass *)

Definition is_opening (dir : direction) (p : string) (tok : string) : bool :=
  Py.contains (s_append_brk dir p) tok.

Definition is_resolving (dir : direction) (p : string) (tok : string)
  : bool :=
  Py.contains (s_peek_brk dir p) tok.

(** On the row, the pass reads every resolving token before every
    opening token: each head is assigned before the node is pushed. *)
Definition resolve_before_push (dir : direction) (p : string) (row : Row)
  : Prop :=
  ∀ (toks : list string) (i j : nat) (a b : string),
    row_tokens dir p row = Some toks →
    toks !! i = Some a → toks !! j = Some b →
    is_opening dir p a = true → is_resolving dir p b = true →
    (j < i)%nat.

(** Strings of plane digits and stars, the characters the merge fuses
    into a token. *)
Fixpoint fused_chars (s : string) : bool :=
  match s with
  | EmptyString => true
  | String c s' =>
      (Ascii.eqb c "0" || Ascii.eqb c "1" || Ascii.eqb c "*")
      && fused_chars s'
  end.

(** Shape of a slot of the merge loop: one original character at most,
    then fused characters. *)
Definition slot_shape (s : string) : Prop :=
  match s with
  | EmptyString => True
  | String _ s' => fused_chars s' = true
  end.

(** A character the merge never fuses into the token before it. *)
Definition boundary_char (c : ascii) : bool :=
  negb (Ascii.eqb c "0" || Ascii.eqb c "1" || Ascii.eqb c "*").

(** ** Rows and the passes that assign their head *)

Global Instance direction_eq_dec : EqDecision direction.
Proof. solve_decision. Defined.

(** The pass reads a resolving token on the row. *)
Definition has_resolving (row : Row) (pass : string * direction) : bool :=
  existsb (is_resolving pass.2 pass.1)
          (default [] (row_tokens pass.2 pass.1 row)).

(** The row carries resolving tokens of one pass of [decode] at most. *)
Definition one_pass_row (row : Row) : bool :=
  (length (List.filter (has_resolving row) decode_passes) <=? 1)%nat.

(** A pass as a step on trees, given the heads it assigns. *)
Definition heads_pass (lin_tree : LinearizedTree) (t : D_Tree)
    (pass : string * direction) : option D_Tree :=
  heads ← pass_heads lin_tree pass.1 pass.2;
  Some (apply_heads lin_tree heads t).

(** Two head assignments that never assign a head to the same row. *)
Definition disjoint_heads (h1 h2 : list (option Z)) : Prop :=
  Forall2 (fun a b => a = None ∨ b = None) h1 h2.

(** ** The encoder on token lists *)

(** The tokens the encoder writes, for the planes 0 and 1. *)
Definition enc_token (tok : string) : bool :=
  existsb (String.eqb tok)
          ["<0"; "<0*"; ">0"; ">0*"; "\0"; "/0";
           "<1"; "<1*"; ">1"; ">1*"; "\1"; "/1"].

Definition plane_digit (p : string) : Prop := p = "0" ∨ p = "1".

(** The dependent token of a node of plane [p], star included. *)
Definition dep_token (p : string) (plane : D_Plane) (node : D_Node) (h : Z)
  : string :=
  if is_left_arc (id node) h then
    "<" +:+ p +:+ (if is_leftmost plane node then "*" else EmptyString)
  else
    ">" +:+ p +:+ (if is_rightmost plane node then "*" else EmptyString).

(** The governor marker of plane [p] for left or right arcs. *)
Definition gov_marker (p : string) (left : bool) : string :=
  (if left then "\" else "/") +:+ p.

(** Per node buffers of tokens; [tb !! i] spells the fragment of node [i]. *)
Definition add_tokens (tb : list (list string)) (k : Z) (toks : list string)
  : list (list string) :=
  match tb !! Z.to_nat k with
  | Some l => <[Z.to_nat k := l ++ toks]> tb
  | None => tb
  end.

Definition has_token (tb : list (list string)) (k : Z) (tok : string)
  : bool :=
  existsb (String.eqb tok) (default [] (tb !! Z.to_nat k)).

(** [encoding_node] on token buffers. *)
Definition token_node (p : string) (plane : D_Plane)
    (tb : list (list string)) (node : D_Node) : list (list string) :=
  if id node =? 0 then tb
  else
    match head node with
    | None => tb
    | Some h =>
        let left := is_left_arc (id node) h in
        let tb1 := add_tokens tb (id node) [dep_token p plane node h] in
        add_tokens tb1 h
          (if has_token tb1 h (gov_marker p left) then []
           else [gov_marker p left])
    end.

Definition token_step_plane (p : string) (plane : D_Plane) (nodes : D_Plane)
    (tb : list (list string)) : list (list string) :=
  List.fold_left (token_node p plane) nodes tb.

(** A node the encoder can process with buffers of length [n]: an arc
    between two positions of the buffers. *)
Definition arc_ok (n : nat) (node : D_Node) : Prop :=
  id node ≠ 0 →
  ∃ h, head node = Some h ∧ in_range n (id node) ∧ in_range n h
       ∧ h ≠ id node.

(** ** The tokens a plane adds to a fragment *)

(** Arcs of [nodes] with governor [g], to the left or to the right. *)
Definition is_dep (left : bool) (g : Z) (node : D_Node) : bool :=
  same_group left g node.

Definition has_dep (left : bool) (nodes : D_Plane) (g : Z) : bool :=
  existsb (is_dep left g) nodes.

(** The dependent tokens of the arcs of [nodes] whose dependent is [i]. *)
Definition own_token (p : string) (plane : D_Plane) (i : Z) (node : D_Node)
  : list string :=
  if negb (id node =? 0) && (id node =? i) then
    match head node with
    | Some h => [dep_token p plane node h]
    | None => []
    end
  else [].

Definition own_tokens (p : string) (plane nodes : D_Plane) (i : Z)
  : list string :=
  List.flat_map (own_token p plane i) nodes.

(** What the arcs of [nodes] add to the fragment of node [i]: one [\p]
    if [i] governs a left arc, the dependent token of [i], one [/p] if
    [i] governs a right arc. *)
Definition plane_tokens (p : string) (plane nodes : D_Plane) (i : Z)
  : list string :=
  (if has_dep true nodes i then [gov_marker p true] else [])
  ++ own_tokens p plane nodes i
  ++ (if has_dep false nodes i then [gov_marker p false] else []).

(** No governor marker of plane [p] among the tokens. *)
Definition gov_free (p : string) (toks : list string) : Prop :=
  existsb (String.eqb (gov_marker p true)) toks = false
  ∧ existsb (String.eqb (gov_marker p false)) toks = false.

(** The buffers [tb] hold, after the buffers [tb0], what the arcs of
    [nodes] add, in some order. *)
Definition added_by (p : string) (plane nodes : D_Plane)
    (tb0 tb : list (list string)) : Prop :=
  length tb = length tb0
  ∧ ∀ (i : nat) (toks0 : list string),
      tb0 !! i = Some toks0 → gov_free p toks0 →
      ∃ added, tb !! i = Some (toks0 ++ added)
               ∧ added ≡ₚ plane_tokens p plane nodes (Z.of_nat i).

(** ** A sentence of three words *)

(** Nodes 1 and 3 depend on node 2, node 2 on the sentinel. *)
Definition example_tree : D_Tree :=
  [node_of 0 None; node_of 1 (Some 2); node_of 2 (Some 0);
   node_of 3 (Some 2)].

Definition example_plane : D_Plane :=
  [node_of 1 (Some 2); node_of 2 (Some 0); node_of 3 (Some 2)].

(** ** The stack machine of a pass *)

(** A pass seen apart from tokens: [res i] is the governor named by the
    resolving token of node [i] and whether the token is starred,
    [psh i] tells whether node [i] carries the opening token. *)
Section Machine.
Variable res : Z → option (Z * bool).
Variable psh : Z → bool.

Definition m_step (st : list Z) (i : Z) : option (list Z * option Z) :=
  r ← match res i with
      | Some (_, true) => st' ← Py.pop st; Some (st', Some (Py.top_or 0 st))
      | Some (_, false) => Some (st, Some (Py.top_or 0 st))
      | None => Some (st, None)
      end;
  Some (if psh i then i :: r.1 else r.1, r.2).

Fixpoint m_run (vs : list Z) (st : list Z)
  : option (list Z * list (option Z)) :=
  match vs with
  | [] => Some (st, [])
  | i :: vs' =>
      r ← m_step st i;
      r' ← m_run vs' r.1;
      Some (r'.1, r.2 :: r'.2)
  end.

(** [d] names [g] as its governor. *)
Definition governs (g d : Z) : bool :=
  match res d with
  | Some (h, _) => h =? g
  | None => false
  end.

(** [g] governs a node still to be visited. *)
Definition pending (rest : list Z) (g : Z) : bool :=
  existsb (governs g) rest.

(** The bracket discipline along the visiting order [vs]: a node is
    pushed exactly when it governs a later node; a resolving token names
    an earlier node, is starred exactly when no later node names the
    same governor, and no node visited in between governs a later
    node. *)
Definition disciplined (vs : list Z) : Prop :=
  ∀ (l1 : list Z) (d : Z) (l2 : list Z),
    vs = l1 ++ d :: l2 →
    psh d = pending l2 d
    ∧ ∀ h star,
        res d = Some (h, star) →
        star = negb (pending l2 h)
        ∧ ∃ a b, l1 = a ++ h :: b
                 ∧ Forall (fun g => pending l2 g = false) b.
End Machine.

(** The buffers [tb] hold, after the buffers [tb0], exactly what the
    arcs of [nodes] add. *)
Definition exact_by (p : string) (plane nodes : D_Plane)
    (tb0 tb : list (list string)) : Prop :=
  length tb = length tb0
  ∧ ∀ (i : nat) (toks0 : list string),
      tb0 !! i = Some toks0 → gov_free p toks0 →
      tb !! i = Some (toks0 ++ plane_tokens p plane nodes (Z.of_nat i)).

(** Nodes in ascending order of id. *)
Definition ascending (nodes : D_Plane) : Prop :=
  StronglySorted (fun a b => id a < id b) nodes.

(** ** Trees, partitions and encoded rows *)

(** Ids are positions: the node at position [i] has id [i]. *)
Definition dense_ids (t : D_Tree) : Prop :=
  ∀ (i : nat) (nd : D_Node), t !! i = Some nd → id nd = Z.of_nat i.

(** A tree as [encode] expects it: dense ids from the sentinel at
    position 0 on, and every other node with a head that is another
    position of the tree.  (A single root and the absence of cycles are
    not needed for what follows.) *)
Definition well_formed (t : D_Tree) : Prop :=
  dense_ids t ∧ Forall (arc_ok (length t)) t.

Definition crossing_free (plane : D_Plane) : Prop :=
  ∀ a b, a ∈ plane → b ∈ plane → arcs_cross a b = false.

(** The contract of the partitioner (section 4.3) when no arc is left
    out: two crossing-free planes, each listing nodes of the tree in
    their order, which together hold every arc. *)
Definition two_plane_partition (t : D_Tree) (planes : D_Plane * D_Plane)
  : Prop :=
  sublist planes.1 t ∧ sublist planes.2 t
  ∧ crossing_free planes.1 ∧ crossing_free planes.2
  ∧ ∀ nd, nd ∈ t → id nd ≠ 0 → nd ∈ planes.1 ∨ nd ∈ planes.2.

(** The tokens of node [i] after both planes. *)
Definition encoded_tokens (planes : D_Plane * D_Plane) (i : Z)
  : list string :=
  plane_tokens "0" planes.1 planes.1 i ++ plane_tokens "1" planes.2 planes.2 i.

Definition encoded_row (planes : D_Plane * D_Plane) (nd : D_Node) : Row :=
  mk_row (word nd) (upos nd) (feats nd)
         (mk_label (join (encoded_tokens planes (id nd))) (relation nd)).

(** The tokens of plane [p]. *)
Definition plane_token (p : string) (tok : string) : Prop :=
  tok ∈ [gov_marker p true; gov_marker p false;
         "<" +:+ p; "<" +:+ p +:+ "*"; ">" +:+ p; ">" +:+ p +:+ "*"].

(** ** A plane as the input of a stack machine *)

(** The arc of the plane whose dependent is [i]. *)
Definition node_at (plane : D_Plane) (i : Z) : option D_Node :=
  List.find (fun nd => negb (id nd =? 0) && (id nd =? i)) plane.

(** A left-to-right pass resolves right arcs, a right-to-left pass
    left arcs. *)
Definition pass_left (dir : direction) : bool := negb (is_l2r dir).

(** The governor and the flag of node [i], when the pass resolves it. *)
Definition res_of (plane : D_Plane) (dir : direction) (i : Z)
  : option (Z * bool) :=
  nd ← node_at plane i;
  h ← head nd;
  if Bool.eqb (is_left_arc (id nd) h) (pass_left dir) then
    Some (h, if is_l2r dir then is_rightmost plane nd
             else is_leftmost plane nd)
  else None.

(** Whether node [i] is pushed by the pass. *)
Definition psh_of (plane : D_Plane) (dir : direction) (i : Z) : bool :=
  has_dep (pass_left dir) plane i.

(** The tokens of a node that a pass does not skip. *)
Definition keep (dir : direction) (p : string) (tok : string) : bool :=
  is_opening dir p tok || is_resolving dir p tok.

(** The tokens of node [i] a pass acts on, in the order it reads them. *)
Definition acting_tokens (p : string) (plane : D_Plane) (dir : direction)
    (i : Z) : list string :=
  match res_of plane dir i with
  | Some (_, star) =>
      [s_peek_brk dir p +:+ (if star then "*" else EmptyString)]
  | None => []
  end
  ++ (if psh_of plane dir i then [s_append_brk dir p] else []).

(** The plane that holds the arcs of plane digit [p]. *)
Definition plane_of (planes : D_Plane * D_Plane) (p : string) : D_Plane :=
  if String.eqb p "0" then planes.1 else planes.2.

(** ** Visiting order of a pass *)

(** The positions [0 .. n-1]. *)
Definition positions (n : nat) : list Z := List.map Z.of_nat (seq 0 n).

Definition visit_order (dir : direction) (n : nat) : list Z :=
  match dir with
  | l2r => positions n
  | r2l => List.rev (positions n)
  end.

(** [x] is visited before [y]. *)
Definition before (dir : direction) (x y : Z) : Prop :=
  if is_l2r dir then x < y else y < x.

(** The cursor of the pass runs through the ids of the nodes. *)
Fixpoint follows (dir : direction) (cur : Z) (nodes : list D_Node) : Prop :=
  match nodes with
  | [] => True
  | nd :: rest => id nd = cur ∧ follows dir (next_node dir cur) rest
  end.

(** ** A sentence of four words with crossing arcs *)

(** Node 1 depends on node 3 and node 2 on node 4: the two arcs cross.
    Node 3 depends on the sentinel and node 4 on node 3. *)
Definition crossing_tree : D_Tree :=
  [node_of 0 None; node_of 1 (Some 3); node_of 2 (Some 4);
   node_of 3 (Some 0); node_of 4 (Some 3)].

(** ** [D_Brk7BitsEncoding._decode_l2r] *)

(** Body of [for word, postag, features, label in
    lin_tree.iterrows(dir='l2r')]: the markers [/0] and [>0] are
    written out in the code. *)
Definition l2r_row (s : pass_state) (row : Row) : option pass_state :=
  let label := r_label row in
  let chars :=
    if String.eqb (xi label) D_NONE_LABEL then [] else Py.chars (xi label) in
  brks ← _merge_brackets chars;
  t1 ← update_word (tree s) (current_node s) (r_word row);
  t2 ← update_upos t1 (current_node s) (r_postag row);
  t3 ← update_relation t2 (current_node s) (li label);
  st ← Py.for_each (token_step "/0" ">0" (current_node s)) brks (stack s, t3);
  Some (mk_pass st.1 st.2 (current_node s + 1)).

Definition _decode_l2r (lin_tree : LinearizedTree) (decoded_tree : D_Tree)
  : option D_Tree :=
  s ← Py.for_each l2r_row (iterrows lin_tree l2r) (mk_pass [] decoded_tree 0);
  Some (tree s).

(** ** [D_Brk7BitsEncoding._decode_r2l] *)

(** [lambda x: (x == "\", x)]: the key compares with the backslash
    alone, not with the opening marker [\0]. *)
Definition backslash_key (x : string) : bool * string :=
  (String.eqb x "\", x).

(** Body of [for word, postag, features, label in
    lin_tree.iterrows(dir='r2l')]. *)
Definition r2l_row (s : pass_state) (row : Row) : option pass_state :=
  let label := r_label row in
  let chars :=
    if String.eqb (xi label) D_NONE_LABEL then [] else Py.chars (xi label) in
  brks ← _merge_brackets chars;
  let brks := sort_by backslash_key key_leb brks in
  t1 ← update_word (tree s) (current_node s) (r_word row);
  t2 ← update_upos t1 (current_node s) (r_postag row);
  t3 ← update_relation t2 (current_node s) (li label);
  st ← Py.for_each (token_step "\0" "<0" (current_node s)) brks (stack s, t3);
  Some (mk_pass st.1 st.2 (current_node s - 1)).

Definition _decode_r2l (lin_tree : LinearizedTree) (decoded_tree : D_Tree)
  : option D_Tree :=
  s ← Py.for_each r2l_row (iterrows lin_tree r2l)
        (mk_pass [] decoded_tree (Z.of_nat (length lin_tree) - 1));
  Some (tree s).

(** ** Side of a governor *)

(** Position [g] is not after position [c] in the visiting order of the
    pass: not to the right for a left-to-right pass, not to the left
    for a right-to-left pass. *)
Definition not_after (dir : direction) (g c : Z) : Prop :=
  if is_l2r dir then g <= c else c <= g.

(** The position of the cursor after [k] rows. *)
Definition cursor_at (dir : direction) (cur : Z) (k : nat) : Z :=
  if is_l2r dir then cur + Z.of_nat k else cur - Z.of_nat k.

(** ** Indices Python accepts *)

(** [k] is an index of a list of length [n]: a position counted from
    the start, or a negative one counted from the end. *)
Definition index_ok (n : nat) (k : Z) : Prop :=
  - Z.of_nat n <= k < Z.of_nat n.

(** The node has a head, unless it is the sentinel. *)
Definition head_set (nd : D_Node) : Prop := id nd ≠ 0 → is_Some (head nd).

(** The id and the head of the node are indices of the fragment buffer
    of [n] slots, unless the node is the sentinel. *)
Definition arc_indexed (n : nat) (nd : D_Node) : Prop :=
  id nd ≠ 0 → index_ok n (id nd) ∧ ∀ h, head nd = Some h → index_ok n h.

(** ** A sentence of six words with three arcs that cross each other *)

(** The arcs of the nodes 1, 2 and 3 (to 4, 5 and 6) cross pairwise:
    two planes cannot hold the three of them. *)
Definition lossy_tree : D_Tree :=
  [node_of 0 None; node_of 1 (Some 4); node_of 2 (Some 5);
   node_of 3 (Some 6); node_of 4 (Some 0); node_of 5 (Some 4);
   node_of 6 (Some 5)].

(** ** Order of the merged tokens *)

(** The first character of a token, as a string of one character. *)
Definition first_char (tok : string) : string :=
  match tok with
  | EmptyString => EmptyString
  | String c _ => String c EmptyString
  end.

(** The token starts with a boundary character, that is with a
    character other than a plane digit and [*]. *)
Definition starts_boundary (tok : string) : bool :=
  match tok with
  | EmptyString => false
  | String c _ => boundary_char c
  end.

(** What the merge loop can make of the slot that held the character
    [c]: a boundary character stays at the head of its slot and only
    gets plane digits and stars fused after it; the slot of a plane
    digit or of a star holds fused digits and stars only, or nothing. *)
Definition slot_of (c slot : string) : Prop :=
  if starts_boundary c then ∃ f, slot = c +:+ f ∧ fused_chars f = true
  else fused_chars slot = true.

(** ** A pass, row by row *)

(** [brks] of a row after [_merge_brackets]. *)
Definition row_brks (row : Row) : option (list string) :=
  _merge_brackets
    (if String.eqb (xi (r_label row)) D_NONE_LABEL then []
     else Py.chars (xi (r_label row))).

(** The step of a pass on a row whose tokens are read in the order
    [toks]: the fields of the node are written, then the tokens act one
    after the other as in the loop [for char in brks]. *)
Definition read_tokens (direction : direction) (planar_idx : string)
    (s : pass_state) (row : Row) (toks : list string) : option pass_state :=
  t1 ← update_word (tree s) (current_node s) (r_word row);
  t2 ← update_upos t1 (current_node s) (r_postag row);
  t3 ← update_relation t2 (current_node s) (li (r_label row));
  st ← Py.for_each
          (token_step (s_append_brk direction planar_idx)
                      (s_peek_brk direction planar_idx) (current_node s))
          toks (stack s, t3);
  Some (mk_pass st.1 st.2 (next_node direction (current_node s))).

(** The reading order of a pass in words: a right-to-left pass for
    plane [p] first reads every token other than the bare opening
    marker [\p], in ascending order, then the bare [\p] tokens; a
    left-to-right pass reads the tokens as they stand. *)
Definition reading_order (direction : direction) (planar_idx : string)
    (brks : list string) : list string :=
  match direction with
  | l2r => brks
  | r2l =>
      sort_strings (List.filter (fun x => negb (is_bare planar_idx x)) brks)
      ++ List.filter (is_bare planar_idx) brks
  end.

(** A pass that reads the merged tokens of each row in [reading_order]. *)
Definition reading_pass (lin_tree : LinearizedTree) (decoded_tree : D_Tree)
    (planar_idx : string) (direction : direction) : option D_Tree :=
  let start :=
    if is_l2r direction then 0 else Z.of_nat (length lin_tree) - 1 in
  s ← Py.for_each
        (fun s row =>
           brks ← row_brks row;
           read_tokens direction planar_idx s row
                       (reading_order direction planar_idx brks))
        (iterrows lin_tree direction) (mk_pass [] decoded_tree start);
  Some (tree s).

(** ** Resolving before pushing *)

(** What a token does when only its resolving marker is looked at: the
    head of the current node becomes the top of the stack (0 on an
    empty stack) and a starred token pops the stack.  Nothing is
    pushed. *)
Definition resolve_step (s_peek : string) (current_node : Z)
    (st : list Z * D_Tree) (char : string) : option (list Z * D_Tree) :=
  if Py.contains s_peek char then
    tree1 ← update_head st.2 current_node (Py.top_or 0 st.1);
    if Py.contains "*" char then
      stack2 ← Py.pop st.1; Some (stack2, tree1)
    else Some (st.1, tree1)
  else Some st.

(** The step of a pass that resolves before it pushes: the fields of
    the node are written, every token resolves against the stack as the
    row found it, and only then the node is pushed, once for each token
    that holds the opening marker. *)
Definition resolve_then_push (direction : direction) (planar_idx : string)
    (s : pass_state) (row : Row) (toks : list string) : option pass_state :=
  t1 ← update_word (tree s) (current_node s) (r_word row);
  t2 ← update_upos t1 (current_node s) (r_postag row);
  t3 ← update_relation t2 (current_node s) (li (r_label row));
  st ← Py.for_each (resolve_step (s_peek_brk direction planar_idx)
                                 (current_node s))
                   toks (stack s, t3);
  Some (mk_pass
          (List.repeat (current_node s)
             (length (List.filter
                        (Py.contains (s_append_brk direction planar_idx))
                        toks))
           ++ st.1)
          st.2 (next_node direction (current_node s))).

(** A pass that resolves before it pushes on every row. *)
Definition resolving_pass (lin_tree : LinearizedTree) (decoded_tree : D_Tree)
    (planar_idx : string) (direction : direction) : option D_Tree :=
  let start :=
    if is_l2r direction then 0 else Z.of_nat (length lin_tree) - 1 in
  s ← Py.for_each
        (fun s row =>
           brks ← row_brks row;
           resolve_then_push direction planar_idx s row
                             (pass_order direction planar_idx brks))
        (iterrows lin_tree direction) (mk_pass [] decoded_tree start);
  Some (tree s).

(** No token that holds the resolving marker comes after a token that
    holds the opening marker. *)
Fixpoint resolving_first (s_append s_peek : string) (toks : list string)
  : bool :=
  match toks with
  | [] => true
  | x :: rest =>
      (negb (Py.contains s_append x)
       || forallb (fun y => negb (Py.contains s_peek y)) rest)
      && resolving_first s_append s_peek rest
  end.

(** The merged tokens of the row stand in such an order for the pass;
    a row on which the merge raises is not constrained. *)
Definition row_resolving_first (direction : direction) (planar_idx : string)
    (row : Row) : bool :=
  match row_brks row with
  | Some brks =>
      resolving_first (s_append_brk direction planar_idx)
                      (s_peek_brk direction planar_idx)
                      (pass_order direction planar_idx brks)
  | None => true
  end.

(** * Concrete runs *)

Example merge_ex1 :
  _merge_brackets (Py.chars "<0*\1>1") = Some ["<0*"; "\1"; ">1"].
Proof. reflexivity. Qed.

Example merge_ex2 : _merge_brackets (Py.chars "*") = None.
Proof. reflexivity. Qed.

Example merge_ex3 : _merge_brackets ["0"; "x"; "<"] = Some ["x"; "<0"].
Proof. reflexivity. Qed.

Example decode_ex1 :
  heads_of (decode (List.map row_of ["/0"; "<0*"; "\0>0*/0"; ">0*"]))
  = Some [None; Some 2; Some 0; Some 2].
Proof. reflexivity. Qed.

Example encode_ex1 :
  payloads (encode two_planar_greedy
     [node_of 0 None; node_of 1 (Some 2); node_of 2 (Some 0);
      node_of 3 (Some 2)])
  = Some ["/0"; "<0*"; "\0>0*/0"; ">0*"].
Proof. reflexivity. Qed.

Example encode_ex2 :
  payloads (encode two_planar_greedy
     [node_of 0 None; node_of 1 (Some 3); node_of 2 (Some 4);
      node_of 3 (Some 0); node_of 4 (Some 3)])
  = Some ["/0"; "<0*"; "<1*"; "\0>0*/0"; ">0*\1"].
Proof. reflexivity. Qed.

(** The tree with crossing arcs: plane 1 holds the arc of node 2, and
    decoding the encoded rows gives the heads back. *)
Example round_trip_ex :
  payloads (encode two_planar_greedy crossing_tree)
  = Some ["/0"; "<0*"; "<1*"; "\0>0*/0"; ">0*\1"]
  ∧ heads_of (lt ← encode two_planar_greedy crossing_tree; decode lt)
    = Some [None; Some 3; Some 4; Some 0; Some 3].
Proof. split; vm_compute; reflexivity. Qed.

(** Three arcs that cross pairwise: the greedy policy leaves the arc of
    node 3 out, its payload is empty and its head stays unset. *)
Example lossy_ex :
  payloads (encode two_planar_greedy lossy_tree)
  = Some ["/0"; "<0*"; "<1*"; EmptyString; "\0>0*/0"; ">0*/0\1"; ">0*"]
  ∧ heads_of (lt ← encode two_planar_greedy lossy_tree; decode lt)
    = Some [None; Some 4; Some 5; None; Some 0; Some 4; Some 5].
Proof. split; vm_compute; reflexivity. Qed.

(** * Python list access at positions in range *)

Lemma index_of_nat (n j : nat) :
  (j < n)%nat → Py.index n (Z.of_nat j) = Some j.
Proof.
  intros Hj. unfold Py.index.
  destruct (Z.leb_spec 0 (Z.of_nat j)); [|lia].
  destruct (Z.ltb_spec (Z.of_nat j) (Z.of_nat n)); [|lia].
  by rewrite Nat2Z.id.
Qed.

Lemma get_of_nat {A} (l : list A) (j : nat) (x : A) :
  l !! j = Some x → Py.get l (Z.of_nat j) = Some x.
Proof.
  intros Hx. unfold Py.get.
  rewrite index_of_nat; [done|]. by eapply lookup_lt_Some.
Qed.

Lemma set_of_nat {A} (l : list A) (j : nat) (v : A) :
  (j < length l)%nat → Py.set l (Z.of_nat j) v = Some (<[j:=v]> l).
Proof. intros Hj. unfold Py.set. by rewrite index_of_nat. Qed.

Lemma get_is_lookup {A} (l : list A) (k : Z) :
  0 <= k → Py.get l k = l !! Z.to_nat k.
Proof.
  intros Hk. unfold Py.get, Py.index.
  destruct (Z.leb_spec 0 k); [|lia].
  destruct (Z.ltb_spec k (Z.of_nat (length l))); [done|].
  simpl. symmetry. apply lookup_ge_None. lia.
Qed.

Lemma set_length {A} (l l' : list A) (k : Z) (v : A) :
  Py.set l k v = Some l' → length l' = length l.
Proof.
  unfold Py.set. destruct (Py.index _ _); simpl; [|done].
  intros [= <-]. apply length_insert.
Qed.

(** * The merge loop *)

Lemma plain_spec (s : string) :
  plain s = true → is_plane_digit s = false ∧ String.eqb s "*" = false.
Proof.
  unfold plain. intros H. apply andb_prop in H as [H1 H2].
  split; by apply negb_true_iff.
Qed.

Lemma merge_iter_plain (l : list string) (j : nat) (s : string) :
  l !! j = Some s → plain s = true → merge_iter l (Z.of_nat j) = Some l.
Proof.
  intros Hj [Hd Hs]%plain_spec. unfold merge_iter.
  rewrite (get_of_nat _ _ _ Hj). simpl. rewrite Hd. simpl.
  rewrite (get_of_nat _ _ _ Hj). simpl. by rewrite Hs.
Qed.

Lemma merge_iter_digit (l : list string) (j : nat) (p d : string) :
  l !! j = Some p → l !! S j = Some d → is_plane_digit d = true →
  merge_iter l (Z.of_nat (S j))
  = Some (<[S j := EmptyString]> (<[j := p +:+ d]> l)).
Proof.
  intros Hp Hd Hdig. unfold merge_iter.
  assert (S j < length l)%nat as Hlen by (by eapply lookup_lt_Some).
  rewrite (get_of_nat _ _ _ Hd). simpl. rewrite Hdig.
  replace (Z.of_nat (S j) - 1) with (Z.of_nat j) by lia.
  rewrite (get_of_nat _ _ _ Hp). simpl.
  rewrite set_of_nat by lia. simpl.
  rewrite set_of_nat by (rewrite length_insert; lia). simpl.
  erewrite get_of_nat; last first.
  { apply list_lookup_insert_eq. rewrite length_insert. lia. }
  done.
Qed.

Lemma merge_iter_star (l : list string) (j : nat) (p : string) :
  l !! j = Some p → l !! S (S j) = Some "*" →
  merge_iter l (Z.of_nat (S (S j)))
  = Some (<[S (S j) := EmptyString]> (<[j := p +:+ "*"]> l)).
Proof.
  intros Hp Hs. unfold merge_iter.
  assert (S (S j) < length l)%nat as Hlen by (by eapply lookup_lt_Some).
  rewrite (get_of_nat _ _ _ Hs). simpl.
  rewrite (get_of_nat _ _ _ Hs). simpl.
  replace (Z.of_nat (S (S j)) - 2) with (Z.of_nat j) by lia.
  rewrite (get_of_nat _ _ _ Hp). simpl.
  rewrite set_of_nat by lia. simpl.
  rewrite set_of_nat by (rewrite length_insert; lia). done.
Qed.

(** A list of slots none of which is a digit or a star is left as it is. *)
Lemma merge_loop_plain (l : list string) :
  Forall (fun s => plain s = true) l →
  ∀ (k j : nat), (j + k <= length l)%nat →
  merge_loop k (Z.of_nat j) l = Some l.
Proof.
  intros Hall k. induction k as [|k IH]; intros j Hj; [done|].
  simpl. destruct (lookup_lt_is_Some_2 l j) as [s Hs]; [lia|].
  rewrite (merge_iter_plain l j s Hs); last first.
  { rewrite Forall_forall in Hall. apply Hall.
    by eapply list_elem_of_lookup_2. }
  simpl. replace (Z.of_nat j + 1) with (Z.of_nat (S j)) by lia.
  apply IH. lia.
Qed.

Lemma lookup_app_plus {A} (l1 l2 : list A) (k : nat) :
  (l1 ++ l2) !! (length l1 + k)%nat = l2 !! k.
Proof. induction l1 as [|x l1 IH]; [done|]. simpl. exact IH. Qed.

Lemma insert_mid0 {A} (pre : list A) (x v : A) (R : list A) :
  <[length pre := v]> (pre ++ x :: R) = pre ++ v :: R.
Proof. induction pre as [|a pre IH]; [done|]. simpl. by rewrite IH. Qed.

Lemma insert_mid1 {A} (pre : list A) (x y v : A) (R : list A) :
  <[S (length pre) := v]> (pre ++ x :: y :: R) = pre ++ x :: v :: R.
Proof. induction pre as [|a pre IH]; [done|]. simpl. by rewrite IH. Qed.

Lemma insert_mid2 {A} (pre : list A) (x y z v : A) (R : list A) :
  <[S (S (length pre)) := v]> (pre ++ x :: y :: z :: R)
  = pre ++ x :: y :: v :: R.
Proof. induction pre as [|a pre IH]; [done|]. simpl. by rewrite IH. Qed.

Lemma chars_app (s1 s2 : string) :
  Py.chars (s1 +:+ s2) = Py.chars s1 ++ Py.chars s2.
Proof. induction s1 as [|c s1 IH]; [done|]. simpl. by rewrite IH. Qed.

Lemma bracket_token_inv (s : string) :
  bracket_token s = true →
  ∃ c, plain (String c EmptyString) = true ∧
       (s = String c EmptyString
        ∨ (∃ d, is_plane_digit (String d EmptyString) = true
                ∧ (s = String c (String d EmptyString)
                   ∨ s = String c (String d "*")))).
Proof.
  destruct s as [|c rest]; [done|]. simpl.
  intros [Hc Hrest]%andb_prop. exists c. split; [done|].
  repeat (apply orb_prop in Hrest as [Hrest|Hrest];
          [apply String.eqb_eq in Hrest; subst rest|]);
    try discriminate.
  - by left.
  - right. exists "0"%char. split; [done|]. by left.
  - right. exists "1"%char. split; [done|]. by left.
  - right. exists "0"%char. split; [done|]. by right.
  - right. exists "1"%char. split; [done|]. by right.
Qed.

Lemma merge_loop_tokens (toks : list string) :
  Forall (fun s => bracket_token s = true) toks →
  ∀ pre : list string,
    merge_loop (length (Py.chars (join toks))) (Z.of_nat (length pre))
               (pre ++ Py.chars (join toks))
    = Some (pre ++ List.concat (List.map slots_of toks)).
Proof.
  induction 1 as [|tok toks Htok _ IH]; intros pre; [done|].
  simpl join. rewrite chars_app, length_app.
  destruct (bracket_token_inv _ Htok) as (c & Hc & Hshape).
  set (R := Py.chars (join toks)) in *.
  set (j := length pre).
  assert (∀ rest, (pre ++ rest) !! (j + 0)%nat = rest !! 0%nat) as L0
    by (intros; apply lookup_app_plus).
  assert (∀ rest, (pre ++ rest) !! (j + 1)%nat = rest !! 1%nat) as L1
    by (intros; apply lookup_app_plus).
  assert (∀ rest, (pre ++ rest) !! (j + 2)%nat = rest !! 2%nat) as L2
    by (intros; apply lookup_app_plus).
  destruct Hshape as [->|(d & Hd & [->| ->])]; simpl.
  - rewrite (merge_iter_plain _ j (String c EmptyString));
      [|by rewrite <- (Nat.add_0_r j), L0|done].
    simpl. specialize (IH (pre ++ [String c EmptyString])).
    rewrite length_app in IH. simpl in IH.
    rewrite <- !app_assoc in IH. simpl in IH.
    replace (Z.of_nat j + 1) with (Z.of_nat (j + 1)) by lia. exact IH.
  - rewrite (merge_iter_plain _ j (String c EmptyString));
      [|by rewrite <- (Nat.add_0_r j), L0|done].
    simpl.
    replace (Z.of_nat j + 1) with (Z.of_nat (S j)) by lia.
    rewrite (merge_iter_digit _ j (String c EmptyString)
                              (String d EmptyString));
      [|by rewrite <- (Nat.add_0_r j), L0
       |by replace (S j) with (j + 1)%nat by lia; rewrite L1|done].
    simpl.
    unfold j. rewrite insert_mid0, insert_mid1. fold j.
    specialize (IH (pre ++ [String c (String d EmptyString); EmptyString])).
    rewrite length_app in IH. simpl in IH.
    rewrite <- !app_assoc in IH. simpl in IH.
    replace (Z.of_nat (S j) + 1) with (Z.of_nat (j + 2)) by lia. exact IH.
  - rewrite (merge_iter_plain _ j (String c EmptyString));
      [|by rewrite <- (Nat.add_0_r j), L0|done].
    simpl.
    replace (Z.of_nat j + 1) with (Z.of_nat (S j)) by lia.
    rewrite (merge_iter_digit _ j (String c EmptyString)
                              (String d EmptyString));
      [|by rewrite <- (Nat.add_0_r j), L0
       |by replace (S j) with (j + 1)%nat by lia; rewrite L1|done].
    simpl.
    unfold j. rewrite insert_mid0, insert_mid1. fold j.
    replace (Z.of_nat (S j) + 1) with (Z.of_nat (S (S j))) by lia.
    rewrite (merge_iter_star _ j (String c (String d EmptyString)));
      [|by rewrite <- (Nat.add_0_r j), L0
       |by replace (S (S j)) with (j + 2)%nat by lia; rewrite L2].
    simpl.
    unfold j. rewrite insert_mid0, insert_mid2. fold j.
    specialize (IH (pre ++ [String c (String d "*"); EmptyString;
                            EmptyString])).
    rewrite length_app in IH. simpl in IH.
    rewrite <- !app_assoc in IH. simpl in IH.
    replace (Z.of_nat (S (S j)) + 1) with (Z.of_nat (j + 3)) by lia. exact IH.
Qed.

Lemma filter_slots (toks : list string) :
  Forall (fun s => bracket_token s = true) toks →
  List.filter nonempty (List.concat (List.map slots_of toks)) = toks.
Proof.
  induction 1 as [|tok toks Htok _ IH]; [done|].
  simpl. destruct tok as [|c rest]; [done|]. simpl.
  rewrite List.filter_app, IH.
  replace (List.filter nonempty (List.repeat EmptyString _))
    with (@nil string); [done|].
  generalize (String.length rest - 0)%nat. intros n.
  induction n as [|n IHn]; [done|]. simpl. exact IHn.
Qed.

Lemma bracket_token_plain (s : string) :
  bracket_token s = true → plain s = true.
Proof.
  intros (c & Hc & [->|(d & _ & [->| ->])])%bracket_token_inv; [done| |];
    unfold plain, is_plane_digit; simpl;
    by destruct (Ascii.eqb c "1"), (Ascii.eqb c "0"), (Ascii.eqb c "*").
Qed.

Lemma filter_nonempty_tokens (toks : list string) :
  Forall (fun s => bracket_token s = true) toks →
  List.filter nonempty toks = toks.
Proof.
  induction 1 as [|tok toks Htok _ IH]; [done|].
  simpl. destruct tok; [done|]. simpl. by rewrite IH.
Qed.

(** Merging the characters of a well-formed fragment gives its tokens. *)
Lemma merge_of_tokens (toks : list string) :
  Forall (fun s => bracket_token s = true) toks →
  _merge_brackets (Py.chars (join toks)) = Some toks.
Proof.
  intros Htoks. unfold _merge_brackets.
  assert (merge_loop (length (Py.chars (join toks))) 0 (Py.chars (join toks))
          = Some (List.concat (List.map slots_of toks))) as Hloop
    by exact (merge_loop_tokens toks Htoks []).
  rewrite Hloop. simpl. by rewrite filter_slots.
Qed.

(** Merging a list of well-formed tokens leaves it as it is. *)
Lemma merge_tokens_fixed (toks : list string) :
  Forall (fun s => bracket_token s = true) toks →
  _merge_brackets toks = Some toks.
Proof.
  intros Htoks. unfold _merge_brackets.
  assert (Forall (fun s => plain s = true) toks) as Hplain.
  { eapply Forall_impl; [exact Htoks|]. apply bracket_token_plain. }
  change 0 with (Z.of_nat 0).
  rewrite (merge_loop_plain toks Hplain (length toks) 0%nat) by (simpl; lia).
  simpl. by rewrite filter_nonempty_tokens.
Qed.

(** * Sorting by key *)

Section SortFacts.
Context {A K : Type} (key : A → K) (leb : K → K → bool).
Hypothesis leb_total : ∀ a b, leb a b = true ∨ leb b a = true.
Hypothesis leb_trans :
  ∀ a b c, leb a b = true → leb b c = true → leb a c = true.

Let R (x y : A) : Prop := leb (key x) (key y) = true.

Lemma sort_insert_perm (x : A) (l : list A) :
  sort_insert key leb x l ≡ₚ x :: l.
Proof.
  induction l as [|y l IH]; [done|]. simpl.
  destruct (leb (key x) (key y)); [done|].
  rewrite IH. apply Permutation_swap.
Qed.

Lemma sort_by_perm (l : list A) : sort_by key leb l ≡ₚ l.
Proof.
  induction l as [|x l IH]; [done|]. simpl.
  rewrite sort_insert_perm. by rewrite IH.
Qed.

Lemma sort_insert_sorted (x : A) (l : list A) :
  StronglySorted R l → StronglySorted R (sort_insert key leb x l).
Proof.
  induction 1 as [|y l Hl IH Hy]; simpl.
  - repeat constructor.
  - destruct (leb (key x) (key y)) eqn:Hxy.
    + constructor; [by constructor|]. constructor; [exact Hxy|].
      eapply Forall_impl; [exact Hy|]. intros z Hz. unfold R in *.
      by eapply leb_trans.
    + constructor; [exact IH|].
      rewrite sort_insert_perm. constructor; [|exact Hy].
      unfold R. destruct (leb_total (key x) (key y)); congruence.
Qed.

Lemma sort_by_sorted (l : list A) : StronglySorted R (sort_by key leb l).
Proof.
  induction l as [|x l IH]; simpl; [constructor|].
  by apply sort_insert_sorted.
Qed.
End SortFacts.

Lemma string_leb_trans (a b c : string) :
  String.leb a b = true → String.leb b c = true → String.leb a c = true.
Proof.
  intros H1 H2.
  pose proof (@transitivity _ String.le _ a b c) as Ht.
  unfold String.le in Ht. apply Is_true_true, Ht; by apply Is_true_true.
Qed.

Lemma string_leb_refl (a : string) : String.leb a a = true.
Proof.
  pose proof (@reflexivity _ String.le _ a) as Hr.
  unfold String.le in Hr. by apply Is_true_true.
Qed.

Lemma r2l_insert_split (p x : string) (S B : list string) :
  Forall (fun s => is_bare p s = false) S →
  Forall (fun s => is_bare p s = true) B →
  sort_insert (r2l_key p) key_leb x (S ++ B)
  = if is_bare p x then S ++ x :: B
    else sort_insert (fun x : string => x) String.leb x S ++ B.
Proof.
  intros HS HB. induction HS as [|s S Hs HS IH]; simpl.
  - destruct (is_bare p x) eqn:Hx.
    + destruct HB as [|b B Hb HB]; [done|]. simpl.
      unfold key_leb, r2l_key. simpl. fold (is_bare p x) (is_bare p b).
      rewrite Hx, Hb. apply String.eqb_eq in Hx, Hb. subst.
      by rewrite string_leb_refl.
    + destruct HB as [|b B Hb HB]; [done|]. simpl.
      unfold key_leb, r2l_key. simpl. fold (is_bare p x) (is_bare p b).
      by rewrite Hx, Hb.
  - unfold key_leb at 1, r2l_key at 1 2. simpl.
    fold (is_bare p x) (is_bare p s). rewrite Hs.
    destruct (is_bare p x) eqn:Hx.
    + by rewrite IH.
    + destruct (String.leb x s); [done|]. by rewrite IH.
Qed.

Lemma sort_strings_forall (P : string → Prop) (l : list string) :
  Forall P l → Forall P (sort_strings l).
Proof.
  intros H. unfold sort_strings.
  by rewrite (sort_by_perm (fun x : string => x) String.leb l).
Qed.

(** A right-to-left pass reads the tokens other than the bare opening
    marker in ascending order, then the bare opening markers. *)
Lemma r2l_order_split (p : string) (toks : list string) :
  pass_order r2l p toks
  = sort_strings (List.filter (fun x => negb (is_bare p x)) toks)
    ++ List.filter (is_bare p) toks.
Proof.
  simpl. induction toks as [|x toks IH]; [done|].
  simpl. rewrite IH.
  rewrite r2l_insert_split.
  - by destruct (is_bare p x).
  - apply sort_strings_forall. apply Forall_forall.
    intros y Hy. apply list_elem_of_In, List.filter_In in Hy as [_ Hy].
    by apply negb_true_iff.
  - apply Forall_forall. intros y Hy.
    by apply list_elem_of_In, List.filter_In in Hy as [_ Hy].
Qed.

(** * A pass as a head assignment *)

Lemma update_node_nat (f : D_Node → D_Node) (t : D_Tree) (i : nat)
    (nd : D_Node) :
  t !! i = Some nd → update_node f t (Z.of_nat i) = Some (<[i := f nd]> t).
Proof.
  intros Hi. unfold update_node.
  rewrite (get_of_nat _ _ _ Hi). simpl.
  apply set_of_nat. by eapply lookup_lt_Some.
Qed.

Lemma set_head_set_head_opt (h : Z) (oh : option Z) (nd : D_Node) :
  set_head h (set_head_opt oh nd) = set_head h nd.
Proof. by destruct oh. Qed.

Lemma token_steps_heads (a k : string) (t : D_Tree) (i : nat) (nd : D_Node)
    (toks : list string) :
  t !! i = Some nd →
  ∀ (stack : list Z) (oh0 : option Z),
    Py.for_each (token_step a k (Z.of_nat i)) toks
                (stack, <[i := set_head_opt oh0 nd]> t)
    = r ← Py.for_each (head_step a k (Z.of_nat i)) toks (stack, oh0);
      Some (r.1, <[i := set_head_opt r.2 nd]> t).
Proof.
  intros Hi. assert (i < length t)%nat as Hlt by (by eapply lookup_lt_Some).
  induction toks as [|tok toks IH]; intros stack oh0; [done|].
  simpl. unfold token_step, head_step. simpl.
  set (stack1 := if Py.contains a tok then Z.of_nat i :: stack else stack).
  destruct (Py.contains k tok).
  - unfold update_head.
    rewrite (update_node_nat _ _ i (set_head_opt oh0 nd))
      by (by apply list_lookup_insert_eq).
    simpl. rewrite list_insert_insert_eq, set_head_set_head_opt.
    destruct (Py.contains "*" tok).
    + destruct (Py.pop stack1) as [stack2|]; [|done]. simpl.
      exact (IH stack2 (Some (Py.top_or 0 stack1))).
    + simpl. exact (IH stack1 (Some (Py.top_or 0 stack1))).
  - simpl. exact (IH stack1 oh0).
Qed.

Lemma row_step_heads (dir : direction) (p : string) (t : D_Tree) (i : nat)
    (nd : D_Node) (stack : list Z) (row : Row) :
  t !! i = Some nd →
  row_step dir p (mk_pass stack t (Z.of_nat i)) row
  = r ← row_heads dir p (Z.of_nat i) stack row;
    Some (mk_pass r.1 (<[i := decoded_node row r.2 nd]> t)
                  (next_node dir (Z.of_nat i))).
Proof.
  intros Hi. assert (i < length t)%nat as Hlt by (by eapply lookup_lt_Some).
  unfold row_step, row_heads, row_tokens. simpl.
  destruct (_merge_brackets _) as [brks|]; [|done]. simpl.
  unfold update_word, update_upos, update_relation.
  rewrite (update_node_nat _ _ i nd Hi). simpl.
  rewrite (update_node_nat _ _ i (set_word (r_word row) nd))
    by (by apply list_lookup_insert_eq).
  simpl. rewrite list_insert_insert_eq.
  rewrite (update_node_nat _ _ i
             (set_upos (r_postag row) (set_word (r_word row) nd)))
    by (by apply list_lookup_insert_eq).
  simpl. rewrite list_insert_insert_eq.
  set (nd3 := set_relation _ _).
  pose proof (token_steps_heads (s_append_brk dir p) (s_peek_brk dir p)
                (<[i:=nd3]> t) i nd3 (pass_order dir p brks)
                (list_lookup_insert_eq _ _ _ Hlt) stack None) as Hsteps.
  simpl in Hsteps. rewrite list_insert_insert_eq in Hsteps. rewrite Hsteps.
  clear Hsteps.
  destruct (Py.for_each (head_step _ _ _) _ _) as [[stack' oh]|]; [|done].
  simpl. by rewrite list_insert_insert_eq.
Qed.

Lemma heads_run_length (dir : direction) (p : string) (rows : list Row) :
  ∀ (cur : Z) (stack : list Z) (r : list Z * list (option Z)),
    heads_run dir p cur rows stack = Some r → length r.2 = length rows.
Proof.
  induction rows as [|row rows IH]; intros cur stack r; simpl.
  - by intros [= <-].
  - destruct (row_heads dir p cur stack row) as [r0|]; [|done]. simpl.
    destruct (heads_run dir p _ rows r0.1) as [r1|] eqn:Hrun; [|done].
    simpl. intros [= <-]. simpl. f_equal. by eapply IH.
Qed.

Lemma apply_heads_length (rows : list Row) :
  ∀ (heads : list (option Z)) (t : D_Tree),
    length heads = length rows → length t = length rows →
    length (apply_heads rows heads t) = length rows.
Proof.
  induction rows as [|row rows IH]; intros [|oh heads] [|nd t];
    simpl; try done.
  intros [= Hh] [= Ht]. f_equal. by apply IH.
Qed.

Lemma apply_heads_app (rows1 rows2 : list Row) :
  ∀ (heads1 heads2 : list (option Z)) (t1 t2 : D_Tree),
    length heads1 = length rows1 → length t1 = length rows1 →
    apply_heads (rows1 ++ rows2) (heads1 ++ heads2) (t1 ++ t2)
    = apply_heads rows1 heads1 t1 ++ apply_heads rows2 heads2 t2.
Proof.
  induction rows1 as [|row rows1 IH]; intros [|oh heads1] heads2 [|nd t1] t2;
    simpl; try done.
  intros [= Hh] [= Ht]. f_equal. by apply IH.
Qed.

Lemma pass_l2r_heads (p : string) (rows : list Row) :
  ∀ (pre suf : D_Tree) (stack : list Z),
    length suf = length rows →
    Py.for_each (row_step l2r p) rows
                (mk_pass stack (pre ++ suf) (Z.of_nat (length pre)))
    = r ← heads_run l2r p (Z.of_nat (length pre)) rows stack;
      Some (mk_pass r.1 (pre ++ apply_heads rows r.2 suf)
                    (Z.of_nat (length pre) + Z.of_nat (length rows))).
Proof.
  induction rows as [|row rows IH]; intros pre suf stack Hlen.
  - destruct suf; [|done]. simpl. by rewrite Z.add_0_r.
  - destruct suf as [|nd suf]; [done|]. simpl in Hlen.
    change (Py.for_each ?f (row :: rows) ?s)
      with (s' ← f s row; Py.for_each f rows s').
    rewrite (row_step_heads l2r p _ (length pre) nd)
      by apply list_lookup_middle, eq_refl.
    simpl heads_run.
    destruct (row_heads l2r p _ stack row) as [[stack1 oh]|]; [|done].
    simpl. rewrite insert_mid0.
    specialize (IH (pre ++ [decoded_node row oh nd]) suf stack1).
    rewrite length_app, <- app_assoc in IH. simpl in IH.
    unfold next_node. simpl.
    replace (Z.of_nat (length pre) + 1)
      with (Z.of_nat (length pre + 1)) by lia.
    rewrite IH by lia.
    destruct (heads_run l2r p _ rows stack1) as [[stack2 ohs]|]; [|done].
    simpl. rewrite <- app_assoc. simpl. do 2 f_equal. lia.
Qed.

Lemma pass_r2l_heads (p : string) (rows : list Row) :
  ∀ (pre suf : D_Tree) (stack : list Z),
    length pre = length rows →
    Py.for_each (row_step r2l p) rows
                (mk_pass stack (pre ++ suf) (Z.of_nat (length pre) - 1))
    = r ← heads_run r2l p (Z.of_nat (length pre) - 1) rows stack;
      Some (mk_pass r.1
              (apply_heads (List.rev rows) (List.rev r.2) pre ++ suf)
              (Z.of_nat (length pre) - 1 - Z.of_nat (length rows))).
Proof.
  induction rows as [|row rows IH]; intros pre suf stack Hlen.
  - destruct pre; [|done]. simpl. done.
  - revert Hlen. induction pre as [|nd pre' _] using rev_ind;
      intros Hlen; [done|].
    rewrite length_app in Hlen. simpl in Hlen.
    change (Py.for_each ?f (row :: rows) ?s)
      with (s' ← f s row; Py.for_each f rows s').
    rewrite length_app. simpl length.
    replace (Z.of_nat (length pre' + 1) - 1)
      with (Z.of_nat (length pre')) by lia.
    rewrite <- app_assoc. simpl app.
    rewrite (row_step_heads r2l p _ (length pre') nd)
      by apply list_lookup_middle, eq_refl.
    simpl heads_run.
    destruct (row_heads r2l p _ stack row) as [[stack1 oh]|]; [|done].
    simpl. rewrite insert_mid0.
    specialize (IH pre' (decoded_node row oh nd :: suf) stack1).
    unfold next_node. simpl. rewrite IH by lia.
    destruct (heads_run r2l p _ rows stack1) as [[stack2 ohs]|] eqn:Hrun;
      [|done].
    simpl. apply heads_run_length in Hrun. simpl in Hrun.
    rewrite apply_heads_app
      by (rewrite ?length_rev; lia).
    simpl. rewrite <- app_assoc. simpl. do 2 f_equal. lia.
Qed.

Lemma pass_heads_length (lt : LinearizedTree) (p : string) (dir : direction)
    (heads : list (option Z)) :
  pass_heads lt p dir = Some heads → length heads = length lt.
Proof.
  destruct dir; simpl.
  - destruct (heads_run l2r p 0 lt []) as [r|] eqn:Hrun; [|done].
    intros [= <-]. by eapply heads_run_length.
  - destruct (heads_run r2l p _ (List.rev lt) []) as [r|] eqn:Hrun; [|done].
    intros [= <-]. apply heads_run_length in Hrun.
    by rewrite length_rev in *.
Qed.

(** A pass over a tree with one node per row rewrites each node from
    its row and from the head the stack run assigns to it. *)
Lemma decoding_step_heads (lt : LinearizedTree) (t : D_Tree) (p : string)
    (dir : direction) :
  length t = length lt →
  _decoding_step lt t p dir
  = heads ← pass_heads lt p dir; Some (apply_heads lt heads t).
Proof.
  intros Hlen. unfold _decoding_step, pass_heads. destruct dir; simpl.
  - pose proof (pass_l2r_heads p lt [] t [] Hlen) as Hpass.
    change (Z.of_nat (@length D_Node [])) with 0 in Hpass.
    simpl in Hpass. rewrite Hpass.
    by destruct (heads_run l2r p 0 lt []) as [[stack hs]|].
  - pose proof (pass_r2l_heads p (List.rev lt) t [] []) as Hpass.
    rewrite app_nil_r, Hlen in Hpass. rewrite Hpass by by rewrite length_rev.
    destruct (heads_run r2l p _ (List.rev lt) []) as [[stack hs]|]; [|done].
    simpl. by rewrite rev_involutive, app_nil_r.
Qed.

Lemma empty_tree_length (n : nat) : length (empty_tree n) = n.
Proof. unfold empty_tree. by rewrite length_map, length_seq. Qed.

Global Arguments pass_heads : simpl never.

(** The four passes of [decode], each as a head assignment. *)
Lemma decode_heads (lt : LinearizedTree) :
  decode lt
  = h1 ← pass_heads lt "0" l2r;
    h2 ← pass_heads lt "0" r2l;
    h3 ← pass_heads lt "1" l2r;
    h4 ← pass_heads lt "1" r2l;
    Some (apply_heads lt h4
            (apply_heads lt h3
               (apply_heads lt h2
                  (apply_heads lt h1 (empty_tree (length lt)))))).
Proof.
  unfold decode.
  rewrite decoding_step_heads by apply empty_tree_length.
  destruct (pass_heads lt "0" l2r) as [h1|] eqn:H1; [|reflexivity]. simpl.
  apply pass_heads_length in H1.
  rewrite decoding_step_heads
    by (apply apply_heads_length; [done|apply empty_tree_length]).
  destruct (pass_heads lt "0" r2l) as [h2|] eqn:H2; [|reflexivity]. simpl.
  apply pass_heads_length in H2.
  rewrite decoding_step_heads
    by (repeat apply apply_heads_length; try done; apply empty_tree_length).
  destruct (pass_heads lt "1" l2r) as [h3|] eqn:H3; [|reflexivity]. simpl.
  apply pass_heads_length in H3.
  rewrite decoding_step_heads
    by (repeat apply apply_heads_length; try done; apply empty_tree_length).
  by destruct (pass_heads lt "1" r2l) as [h4|] eqn:H4.
Qed.

(** * When the merge and the passes return *)

Lemma index_is_Some (n : nat) (k : Z) :
  - Z.of_nat n <= k < Z.of_nat n →
  ∃ j, Py.index n k = Some j ∧ (j < n)%nat.
Proof.
  intros Hk. unfold Py.index.
  destruct (Z.leb_spec 0 k).
  - destruct (Z.ltb_spec k (Z.of_nat n)); [|lia].
    exists (Z.to_nat k). split; [done|lia].
  - destruct (Z.leb_spec (- Z.of_nat n) k); [|lia].
    exists (Z.to_nat (k + Z.of_nat n)). split; [done|lia].
Qed.

Lemma get_is_Some {A} (l : list A) (k : Z) :
  - Z.of_nat (length l) <= k < Z.of_nat (length l) → is_Some (Py.get l k).
Proof.
  intros (j & Hj & Hlt)%index_is_Some. unfold Py.get. rewrite Hj. simpl.
  by apply lookup_lt_is_Some_2.
Qed.

Lemma set_is_Some {A} (l : list A) (k : Z) (v : A) :
  - Z.of_nat (length l) <= k < Z.of_nat (length l) →
  ∃ l', Py.set l k v = Some l' ∧ length l' = length l.
Proof.
  intros (j & Hj & Hlt)%index_is_Some. unfold Py.set. rewrite Hj. simpl.
  eexists. split; [done|]. apply length_insert.
Qed.

(** On a list of two slots or more no index of the loop is out of range. *)
Lemma merge_iter_total (l : list string) (i : Z) :
  (2 <= length l)%nat → 0 <= i < Z.of_nat (length l) →
  ∃ l', merge_iter l i = Some l' ∧ length l' = length l.
Proof.
  intros Hlen Hi. unfold merge_iter.
  destruct (get_is_Some l i) as [b ->]; [lia|]. simpl.
  assert (∃ l1, (if is_plane_digit b
                 then p ← Py.get l (i - 1);
                      brks' ← Py.set l (i - 1) (p +:+ b);
                      Py.set brks' i EmptyString
                 else Some l) = Some l1 ∧ length l1 = length l)
    as (l1 & -> & Hl1).
  { destruct (is_plane_digit b); [|by eexists].
    destruct (get_is_Some l (i - 1)) as [p ->]; [lia|]. simpl.
    destruct (set_is_Some l (i - 1) (p +:+ b)) as (l' & -> & Hl'); [lia|].
    simpl.
    destruct (set_is_Some l' i EmptyString) as (l'' & -> & Hl''); [lia|].
    exists l''. split; [done|lia]. }
  simpl.
  destruct (get_is_Some l1 i) as [b1 ->]; [lia|]. simpl.
  destruct (String.eqb b1 "*"); [|by eexists].
  destruct (get_is_Some l1 (i - 2)) as [p ->]; [lia|]. simpl.
  destruct (set_is_Some l1 (i - 2) (p +:+ "*")) as (l' & -> & Hl'); [lia|].
  simpl.
  destruct (set_is_Some l' i EmptyString) as (l'' & -> & Hl''); [lia|].
  exists l''. split; [done|lia].
Qed.

Lemma merge_loop_total (k : nat) :
  ∀ (l : list string) (i : Z),
    (2 <= length l)%nat → 0 <= i → i + Z.of_nat k <= Z.of_nat (length l) →
    is_Some (merge_loop k i l).
Proof.
  induction k as [|k IH]; intros l i Hlen Hi Hk; [by eexists|].
  simpl. destruct (merge_iter_total l i) as (l' & -> & Hl'); [lia..|].
  simpl. apply IH; lia.
Qed.

(** The merge raises on the lone [*] and on nothing else. *)
Lemma merge_total (brks : list string) :
  brks ≠ ["*"] → is_Some (_merge_brackets brks).
Proof.
  intros Hne. unfold _merge_brackets.
  destruct brks as [|x [|y brks]].
  - by eexists.
  - simpl. unfold merge_iter. simpl.
    destruct (is_plane_digit x) eqn:Hd; simpl; [by eexists|].
    destruct (String.eqb_spec x "*") as [->|_]; [done|]. simpl. by eexists.
  - destruct (merge_loop_total (length (x :: y :: brks)) (x :: y :: brks) 0)
      as [l' Hl']; [simpl; lia..|].
    rewrite Hl'. simpl. by eexists.
Qed.

Lemma chars_single (s : string) (x : string) :
  Py.chars s = [x] → s = x.
Proof.
  destruct s as [|c [|c' s]]; simpl; try done. by intros [= <-].
Qed.

Lemma row_tokens_total (dir : direction) (p : string) (row : Row) :
  xi (r_label row) ≠ "*" → is_Some (row_tokens dir p row).
Proof.
  intros Hne. unfold row_tokens.
  destruct (merge_total
              (if String.eqb (xi (r_label row)) D_NONE_LABEL then []
               else Py.chars (xi (r_label row)))) as [brks ->];
    [|by eexists].
  destruct (String.eqb _ D_NONE_LABEL); [done|].
  intros Heq%chars_single. done.
Qed.

Lemma head_steps_depth (a k : string) (cur : Z) (toks : list string) :
  ∀ (stack : list Z) (oh : option Z) (d : nat),
    Py.for_each (depth_step a k) toks (length stack) = Some d →
    ∃ r, Py.for_each (head_step a k cur) toks (stack, oh) = Some r
         ∧ length r.1 = d.
Proof.
  induction toks as [|tok toks IH]; intros stack oh d; simpl.
  - intros [= <-]. by eexists.
  - unfold depth_step, head_step. simpl.
    set (stack1 := if Py.contains a tok then cur :: stack else stack).
    assert ((if Py.contains a tok then S (length stack) else length stack)
            = length stack1) as -> by (unfold stack1; by destruct (Py.contains a tok)).
    destruct (Py.contains k tok); simpl; [|by apply IH].
    destruct (Py.contains "*" tok); simpl; [|by apply IH].
    destruct stack1 as [|top stack2]; simpl; [done|]. by apply IH.
Qed.

Lemma heads_run_total (dir : direction) (p : string) (rows : list Row) :
  Forall (fun row => xi (r_label row) ≠ "*") rows →
  ∀ (cur : Z) (stack : list Z) (d : nat),
    Py.for_each (row_depth dir p) rows (length stack) = Some d →
    ∃ r, heads_run dir p cur rows stack = Some r ∧ length r.1 = d.
Proof.
  induction 1 as [|row rows Hrow _ IH]; intros cur stack d; simpl.
  - intros [= <-]. by eexists.
  - destruct (row_tokens_total dir p row Hrow) as [toks Htoks].
    assert (row_depth dir p (length stack) row
            = Py.for_each (depth_step (s_append_brk dir p)
                                      (s_peek_brk dir p))
                          toks (length stack)) as ->
      by (unfold row_depth; by rewrite Htoks).
    unfold row_heads. rewrite Htoks. simpl.
    destruct (Py.for_each (depth_step (s_append_brk dir p)
                                      (s_peek_brk dir p))
                          toks (length stack))
      as [d1|] eqn:Hd1; [|done]. simpl. intros Hrest.
    destruct (head_steps_depth (s_append_brk dir p) (s_peek_brk dir p)
                cur toks stack None d1 Hd1)
      as (r1 & -> & Hr1). simpl.
    rewrite <- Hr1 in Hrest.
    destruct (IH (next_node dir cur) r1.1 d Hrest) as (r2 & -> & Hr2).
    simpl. by eexists.
Qed.

Lemma head_step_eq (a k : string) (cur : Z) (stack : list Z)
    (oh : option Z) (tok : string) :
  head_step a k cur (stack, oh) tok
  = if Py.contains k tok then
      if Py.contains "*" tok then
        stack2 ← Py.pop (if Py.contains a tok then cur :: stack else stack);
        Some (stack2,
              Some (Py.top_or 0 (if Py.contains a tok then cur :: stack
                                 else stack)))
      else Some (if Py.contains a tok then cur :: stack else stack,
                 Some (Py.top_or 0 (if Py.contains a tok then cur :: stack
                                    else stack)))
    else Some (if Py.contains a tok then cur :: stack else stack, oh).
Proof. reflexivity. Qed.

Lemma head_steps_range (n : nat) (a k : string) (cur : Z)
    (toks : list string) :
  in_range n cur →
  ∀ (stack : list Z) (oh : option Z) (r : list Z * option Z),
    Forall (in_range n) stack → head_in_range n oh →
    Py.for_each (head_step a k cur) toks (stack, oh) = Some r →
    Forall (in_range n) r.1 ∧ head_in_range n r.2.
Proof.
  intros Hcur. induction toks as [|tok toks IH]; intros stack oh r Hst Hoh.
  - simpl. by intros [= <-].
  - cbn [Py.for_each]. rewrite head_step_eq.
    set (stack1 := if Py.contains a tok then cur :: stack else stack).
    assert (Forall (in_range n) stack1) as Hst1.
    { unfold stack1. destruct (Py.contains a tok); [by constructor|done]. }
    assert (in_range n (Py.top_or 0 stack1)) as Htop.
    { destruct Hst1 as [|top rest Htop _]; simpl; [|done].
      unfold in_range in *. lia. }
    destruct (Py.contains k tok); simpl; [|by apply IH].
    destruct (Py.contains "*" tok); simpl.
    + destruct Hst1 as [|top rest Ht Hrest]; simpl; [done|].
      apply IH; [done|]. by intros h [= <-].
    + apply IH; [done|]. by intros h [= <-].
Qed.

Lemma heads_run_range (n : nat) (dir : direction) (p : string)
    (rows : list Row) :
  ∀ (cur : Z) (stack : list Z) (r : list Z * list (option Z)),
    cursor_ok n dir cur (length rows) →
    Forall (in_range n) stack →
    heads_run dir p cur rows stack = Some r →
    Forall (in_range n) r.1 ∧ Forall (head_in_range n) r.2.
Proof.
  induction rows as [|row rows IH]; intros cur stack r Hcur Hst; simpl.
  - intros [= <-]. by split.
  - change (length (row :: rows)) with (S (length rows)) in Hcur.
    assert (in_range n cur) as Hin.
    { unfold in_range, cursor_ok in *. destruct dir; lia. }
    assert (cursor_ok n dir (next_node dir cur) (length rows)) as Hnext.
    { unfold cursor_ok, next_node in *. destruct dir; cbn [is_l2r]; lia. }
    unfold row_heads.
    destruct (row_tokens dir p row) as [toks|]; [|done]. simpl.
    destruct (Py.for_each (head_step _ _ cur) toks (stack, None))
      as [r1|] eqn:Hr1; [|done]. simpl.
    apply head_steps_range with (n := n) in Hr1 as [Hst1 Hoh1];
      [|done..].
    destruct (heads_run dir p (next_node dir cur) rows r1.1)
      as [r2|] eqn:Hr2; [|done]. simpl.
    intros [= <-]. simpl.
    destruct (IH _ _ _ Hnext Hst1 Hr2) as [Hst2 Hoh2].
    split; [done|]. by constructor.
Qed.

Lemma pass_heads_range (lt : LinearizedTree) (p : string) (dir : direction)
    (heads : list (option Z)) :
  pass_heads lt p dir = Some heads →
  Forall (head_in_range (length lt)) heads.
Proof.
  unfold pass_heads. destruct dir.
  - destruct (heads_run l2r p 0 lt []) as [r|] eqn:Hrun; [|done].
    simpl. intros [= <-].
    eapply heads_run_range in Hrun as [_ H]; [done| |done].
    unfold cursor_ok. lia.
  - destruct (heads_run r2l p _ (List.rev lt) []) as [r|] eqn:Hrun; [|done].
    simpl. intros [= <-].
    eapply (heads_run_range (length lt)) in Hrun as [_ H]; [| |done].
    + apply Forall_rev. done.
    + unfold cursor_ok. rewrite length_rev. lia.
Qed.

Lemma apply_heads_range (n : nat) (rows : list Row) :
  ∀ (heads : list (option Z)) (t : D_Tree),
    Forall (head_in_range n) heads →
    Forall (fun nd => head_in_range n (head nd)) t →
    Forall (fun nd => head_in_range n (head nd)) (apply_heads rows heads t).
Proof.
  induction rows as [|row rows IH]; intros heads t Hh Ht; simpl; [done|].
  destruct Hh as [|oh heads Hoh Hh]; [done|].
  destruct Ht as [|nd t Hnd Ht]; [done|].
  constructor; [|by apply IH].
  destruct oh as [h|]; simpl; [|done]. done.
Qed.

Lemma empty_tree_range (n m : nat) :
  Forall (fun nd => head_in_range n (head nd)) (empty_tree m).
Proof.
  unfold empty_tree. apply Forall_forall. intros nd Hnd.
  apply list_elem_of_In, List.in_map_iff in Hnd as (i & <- & _).
  by intros h.
Qed.

Lemma balanced_pass_heads (lt : LinearizedTree) (p : string)
    (dir : direction) :
  Forall (fun row => xi (r_label row) ≠ "*") lt →
  balanced lt (p, dir) = true →
  is_Some (pass_heads lt p dir).
Proof.
  intros Hlt Hbal. unfold balanced in Hbal. simpl in Hbal.
  destruct (Py.for_each (row_depth dir p) (iterrows lt dir) 0%nat)
    as [d|] eqn:Hd; [|done].
  unfold pass_heads. destruct dir; simpl in Hd.
  - destruct (heads_run_total l2r p lt Hlt 0 [] d Hd) as (r & -> & _).
    by eexists.
  - destruct (heads_run_total r2l p (List.rev lt) (Forall_rev Hlt)
                (Z.of_nat (length lt) - 1) [] d Hd) as (r & -> & _).
    by eexists.
Qed.

(** * Shape of merged tokens *)

Lemma fused_chars_app (s1 s2 : string) :
  fused_chars (s1 +:+ s2) = fused_chars s1 && fused_chars s2.
Proof.
  induction s1 as [|c s1 IH]; [done|]. simpl. rewrite IH.
  by rewrite andb_assoc.
Qed.

Lemma slot_shape_app (s d : string) :
  slot_shape s → d ≠ EmptyString → fused_chars d = true →
  slot_shape (s +:+ d).
Proof.
  intros Hs Hne Hd. destruct s as [|c s]; simpl in *.
  - destruct d as [|c d]; [done|]. simpl in *.
    by apply andb_prop in Hd as [_ ?].
  - rewrite fused_chars_app, Hs, Hd. done.
Qed.

Lemma plane_digit_fused (b : string) :
  is_plane_digit b = true → b ≠ EmptyString ∧ fused_chars b = true.
Proof.
  unfold is_plane_digit.
  intros [->%String.eqb_eq| ->%String.eqb_eq]%orb_prop; done.
Qed.

Lemma get_elem_of {A} (l : list A) (k : Z) (x : A) :
  Py.get l k = Some x → x ∈ l.
Proof.
  unfold Py.get. destruct (Py.index _ _) as [j|]; simpl; [|done].
  apply list_elem_of_lookup_2.
Qed.

Lemma set_Forall {A} (P : A → Prop) (l l' : list A) (k : Z) (v : A) :
  Py.set l k v = Some l' → Forall P l → P v → Forall P l'.
Proof.
  unfold Py.set. destruct (Py.index _ _) as [j|]; simpl; [|done].
  intros [= <-] Hl Hv. by apply Forall_insert.
Qed.

Lemma merge_iter_shape (l l' : list string) (i : Z) :
  Forall slot_shape l → merge_iter l i = Some l' → Forall slot_shape l'.
Proof.
  intros Hl. unfold merge_iter.
  destruct (Py.get l i) as [b|] eqn:Hb; [|done]. simpl.
  destruct (if is_plane_digit b
            then p ← Py.get l (i - 1);
                 brks' ← Py.set l (i - 1) (p +:+ b);
                 Py.set brks' i EmptyString
            else Some l) as [l1|] eqn:Hl1; [|done].
  simpl. assert (Forall slot_shape l1) as Hshape1.
  { destruct (is_plane_digit b) eqn:Hdig; [|by injection Hl1 as <-].
    destruct (Py.get l (i - 1)) as [p|] eqn:Hp; [|done]. simpl in Hl1.
    destruct (Py.set l (i - 1) (p +:+ b)) as [l0|] eqn:Hl0; [|done].
    simpl in Hl1.
    apply (set_Forall slot_shape) in Hl0; [|done|].
    - by apply (set_Forall slot_shape) in Hl1.
    - apply plane_digit_fused in Hdig as [??].
      apply slot_shape_app; [|done..].
      rewrite Forall_forall in Hl. by eapply Hl, get_elem_of. }
  destruct (Py.get l1 i) as [b1|]; [|done]. simpl.
  destruct (String.eqb b1 "*"); [|by intros [= <-]].
  destruct (Py.get l1 (i - 2)) as [p|] eqn:Hp; [|done]. simpl.
  destruct (Py.set l1 (i - 2) (p +:+ "*")) as [l0|] eqn:Hl0; [|done].
  simpl. intros Hl'.
  apply (set_Forall slot_shape) in Hl0; [|done|].
  - by apply (set_Forall slot_shape) in Hl'.
  - apply slot_shape_app; [|done..].
    rewrite Forall_forall in Hshape1. by eapply Hshape1, get_elem_of.
Qed.

Lemma merge_loop_shape (k : nat) :
  ∀ (i : Z) (l l' : list string),
    Forall slot_shape l → merge_loop k i l = Some l' → Forall slot_shape l'.
Proof.
  induction k as [|k IH]; intros i l l' Hl; simpl.
  - by intros [= <-].
  - destruct (merge_iter l i) as [l1|] eqn:Hl1; [|done]. simpl.
    apply IH. by eapply merge_iter_shape.
Qed.

Lemma chars_shape (s : string) : Forall slot_shape (Py.chars s).
Proof. induction s as [|c s IH]; simpl; by constructor. Qed.

Lemma filter_Forall {A} (P : A → Prop) (f : A → bool) (l : list A) :
  Forall P l → Forall P (List.filter f l).
Proof.
  induction 1 as [|x l Hx _ IH]; simpl; [done|].
  destruct (f x); [by constructor|done].
Qed.

(** Every token the merge returns is one character followed by fused
    digits and stars, or fused digits and stars alone. *)
Lemma merge_shape (s : string) (toks : list string) :
  _merge_brackets (Py.chars s) = Some toks → Forall slot_shape toks.
Proof.
  unfold _merge_brackets.
  destruct (merge_loop _ 0 _) as [l|] eqn:Hl; [|done]. simpl.
  intros [= <-]. apply filter_Forall.
  eapply merge_loop_shape; [|exact Hl]. apply chars_shape.
Qed.

Lemma row_tokens_shape (dir : direction) (p : string) (row : Row)
    (toks : list string) :
  row_tokens dir p row = Some toks → Forall slot_shape toks.
Proof.
  unfold row_tokens.
  destruct (_merge_brackets _) as [brks|] eqn:Hm; [|done]. simpl.
  intros [= <-].
  assert (Forall slot_shape brks) as Hb.
  { destruct (String.eqb _ D_NONE_LABEL).
    - by injection Hm as <-.
    - by eapply merge_shape. }
  destruct dir; simpl; [done|].
  by rewrite (sort_by_perm (r2l_key p) key_leb brks).
Qed.

Lemma contains_fused (c : ascii) (x s : string) :
  boundary_char c = true → fused_chars s = true →
  Py.contains (String c x) s = false.
Proof.
  intros Hc. induction s as [|a s IH]; [done|]. simpl.
  intros [Ha Hs]%andb_prop. rewrite (IH Hs), orb_false_r.
  destruct (ascii_dec c a) as [->|]; [|done].
  unfold boundary_char in Hc. by rewrite Ha in Hc.
Qed.

(** A marker that starts with a boundary character can only occur at
    the start of a merged token. *)
Lemma contains_first_char (c : ascii) (x tok : string) :
  boundary_char c = true → slot_shape tok →
  Py.contains (String c x) tok = true → ∃ rest, tok = String c rest.
Proof.
  intros Hc Hshape. destruct tok as [|a rest]; [done|]. simpl in *.
  rewrite (contains_fused c x rest Hc Hshape), orb_false_r.
  destruct (ascii_dec c a) as [->|]; [|done]. by eexists.
Qed.

Lemma StronglySorted_lookup {A} (R : A → A → Prop) (l : list A) :
  StronglySorted R l →
  ∀ (i j : nat) (a b : A),
    l !! i = Some a → l !! j = Some b → (i < j)%nat → R a b.
Proof.
  induction 1 as [|x l Hl IH Hx]; intros i j a b Hi Hj Hlt; [done|].
  destruct j as [|j]; [lia|]. simpl in Hj.
  destruct i as [|i]; simpl in Hi.
  - injection Hi as <-. rewrite Forall_forall in Hx.
    by eapply Hx, list_elem_of_lookup_2.
  - eapply IH; [done..|lia].
Qed.

(** In the reading order of a right-to-left pass no token that starts
    with [\] comes before a token that starts with [<]. *)
Lemma r2l_order_resolve_first (p : string) (toks : list string)
    (i j : nat) (ra rb : string) :
  pass_order r2l p toks !! i = Some (String "\" ra) →
  pass_order r2l p toks !! j = Some (String "<" rb) →
  (j < i)%nat.
Proof.
  rewrite r2l_order_split.
  set (S := sort_strings _). set (B := List.filter (is_bare p) toks).
  intros Hi Hj.
  assert (j < length S)%nat as HjS.
  { destruct (Nat.lt_ge_cases j (length S)) as [|Hge]; [done|].
    rewrite lookup_app_r in Hj by done.
    apply list_elem_of_lookup_2, list_elem_of_In, List.filter_In in Hj
      as [_ Hbare].
    by apply String.eqb_eq in Hbare. }
  destruct (Nat.lt_ge_cases j i) as [|Hle]; [done|].
  assert (i ≠ j) as Hne by (intros ->; congruence).
  rewrite lookup_app_l in Hi, Hj by lia.
  assert (String.leb (String "\" ra) (String "<" rb) = true) as Hleb.
  { eapply (StronglySorted_lookup (fun a b => String.leb a b = true) S);
      [|exact Hi|exact Hj|lia].
    apply (sort_by_sorted (fun x : string => x) String.leb).
    - apply String.leb_total.
    - apply string_leb_trans. }
  done.
Qed.

(** * Passes that assign heads to different rows commute *)

Lemma head_steps_no_resolving (a k : string) (cur : Z)
    (toks : list string) :
  existsb (Py.contains k) toks = false →
  ∀ (stack : list Z) (oh : option Z) (r : list Z * option Z),
    Py.for_each (head_step a k cur) toks (stack, oh) = Some r → r.2 = oh.
Proof.
  induction toks as [|tok toks IH]; intros Hno stack oh r.
  - simpl. by intros [= <-].
  - simpl in Hno. apply orb_false_elim in Hno as [Htok Hno].
    cbn [Py.for_each]. rewrite head_step_eq, Htok. simpl.
    by apply IH.
Qed.

Lemma heads_run_resolving (dir : direction) (p : string)
    (rows : list Row) :
  ∀ (cur : Z) (stack : list Z) (r : list Z * list (option Z)),
    heads_run dir p cur rows stack = Some r →
    Forall2 (fun row oh => has_resolving row (p, dir) = false → oh = None)
            rows r.2.
Proof.
  induction rows as [|row rows IH]; intros cur stack r; simpl.
  - intros [= <-]. constructor.
  - destruct (row_heads dir p cur stack row) as [r1|] eqn:Hr1; [|done].
    simpl.
    destruct (heads_run dir p (next_node dir cur) rows r1.1)
      as [r2|] eqn:Hr2; [|done].
    simpl. intros [= <-]. simpl. constructor; [|by eapply IH].
    intros Hno. unfold has_resolving in Hno. simpl in Hno.
    unfold row_heads in Hr1.
    destruct (row_tokens dir p row) as [toks|]; [|done].
    simpl in Hr1, Hno.
    by eapply head_steps_no_resolving in Hr1.
Qed.

Lemma Forall2_rev_list {A B} (P : A → B → Prop) (l1 : list A)
    (l2 : list B) :
  Forall2 P l1 l2 → Forall2 P (List.rev l1) (List.rev l2).
Proof.
  induction 1 as [|x y l1 l2 Hxy _ IH]; simpl; [constructor|].
  apply Forall2_app; [done|]. by repeat constructor.
Qed.

Lemma pass_heads_resolving (lt : LinearizedTree) (p : string)
    (dir : direction) (heads : list (option Z)) :
  pass_heads lt p dir = Some heads →
  Forall2 (fun row oh => has_resolving row (p, dir) = false → oh = None)
          lt heads.
Proof.
  unfold pass_heads. destruct dir.
  - destruct (heads_run l2r p 0 lt []) as [r|] eqn:Hrun; [|done].
    simpl. intros [= <-]. by eapply heads_run_resolving.
  - destruct (heads_run r2l p _ (List.rev lt) []) as [r|] eqn:Hrun; [|done].
    simpl. intros [= <-]. apply heads_run_resolving in Hrun.
    apply Forall2_rev_list in Hrun. by rewrite rev_involutive in Hrun.
Qed.

Lemma one_pass_row_disjoint (row : Row) (x y : string * direction) :
  one_pass_row row = true → x ∈ decode_passes → y ∈ decode_passes →
  x ≠ y → has_resolving row x = false ∨ has_resolving row y = false.
Proof.
  unfold one_pass_row, decode_passes. intros Hone Hx Hy Hne.
  apply Nat.leb_le in Hone. simpl in Hone.
  repeat (apply elem_of_cons in Hx as [->|Hx]);
    try (by apply elem_of_nil in Hx);
    repeat (apply elem_of_cons in Hy as [->|Hy]);
    try (by apply elem_of_nil in Hy);
    try done;
    destruct (has_resolving row ("0", l2r)),
             (has_resolving row ("0", r2l)),
             (has_resolving row ("1", l2r)),
             (has_resolving row ("1", r2l));
    simpl in Hone; try lia; auto.
Qed.

Lemma passes_disjoint (lt : LinearizedTree) (x y : string * direction)
    (hx hy : list (option Z)) :
  forallb one_pass_row lt = true →
  x ∈ decode_passes → y ∈ decode_passes → x ≠ y →
  pass_heads lt x.1 x.2 = Some hx → pass_heads lt y.1 y.2 = Some hy →
  disjoint_heads hx hy.
Proof.
  intros Hone Hx Hy Hne Hhx Hhy.
  apply pass_heads_resolving in Hhx, Hhy.
  rewrite <- surjective_pairing in Hhx, Hhy.
  rewrite List.forallb_forall in Hone.
  revert hy Hhy. induction Hhx as [|row ox lt hx Hox _ IH]; intros hy Hhy.
  - inversion Hhy. constructor.
  - inversion Hhy as [|? oy ? hy' Hoy Hrest]; subst.
    constructor.
    + destruct (one_pass_row_disjoint row x y) as [Hn|Hn]; auto.
      apply Hone. by left.
    + apply IH; [|done]. intros r Hr. apply Hone. by right.
Qed.

Lemma decoded_node_comm (row : Row) (ox oy : option Z) (nd : D_Node) :
  ox = None ∨ oy = None →
  decoded_node row oy (decoded_node row ox nd)
  = decoded_node row ox (decoded_node row oy nd).
Proof. intros [-> | ->]; [destruct oy | destruct ox]; by destruct nd. Qed.

Lemma apply_heads_comm (lt : LinearizedTree) :
  ∀ (hx hy : list (option Z)) (t : D_Tree),
    disjoint_heads hx hy →
    apply_heads lt hy (apply_heads lt hx t)
    = apply_heads lt hx (apply_heads lt hy t).
Proof.
  induction lt as [|row lt IH]; intros hx hy t Hd; [done|].
  destruct Hd as [|ox oy hx hy Hxy Hd]; [done|].
  destruct t as [|nd t]; [done|]. simpl.
  rewrite (decoded_node_comm row ox oy nd Hxy). f_equal. by apply IH.
Qed.

Lemma heads_pass_length (lt : LinearizedTree) (t t' : D_Tree)
    (pass : string * direction) :
  length t = length lt → heads_pass lt t pass = Some t' →
  length t' = length lt.
Proof.
  intros Hlen. unfold heads_pass.
  destruct (pass_heads lt pass.1 pass.2) as [h|] eqn:Hh; [|done].
  simpl. intros [= <-]. apply apply_heads_length; [|done].
  by eapply pass_heads_length.
Qed.

Lemma run_passes_heads (order : list (string * direction))
    (lt : LinearizedTree) :
  ∀ t : D_Tree,
    length t = length lt →
    run_passes order lt t = Py.for_each (heads_pass lt) order t.
Proof.
  unfold run_passes.
  induction order as [|pass order IH]; intros t Hlen; [done|].
  cbn [Py.for_each]. rewrite decoding_step_heads by done.
  fold (heads_pass lt t pass).
  destruct (heads_pass lt t pass) as [t'|] eqn:Ht'; [|done].
  simpl. apply IH. by eapply heads_pass_length.
Qed.

Lemma heads_pass_swap (lt : LinearizedTree) (x y : string * direction)
    (t : D_Tree) :
  (∀ hx hy, pass_heads lt x.1 x.2 = Some hx →
            pass_heads lt y.1 y.2 = Some hy → disjoint_heads hx hy) →
  (t1 ← heads_pass lt t x; heads_pass lt t1 y)
  = (t1 ← heads_pass lt t y; heads_pass lt t1 x).
Proof.
  intros Hd. unfold heads_pass.
  destruct (pass_heads lt x.1 x.2) as [hx|],
           (pass_heads lt y.1 y.2) as [hy|]; simpl; try done.
  f_equal. apply apply_heads_comm. by apply Hd.
Qed.

Lemma heads_passes_perm (lt : LinearizedTree)
    (order1 order2 : list (string * direction)) :
  forallb one_pass_row lt = true →
  order1 ≡ₚ order2 →
  (∀ x, x ∈ order1 → x ∈ decode_passes) →
  ∀ t : D_Tree,
    Py.for_each (heads_pass lt) order1 t
    = Py.for_each (heads_pass lt) order2 t.
Proof.
  intros Hone Hperm.
  induction Hperm as [|x l1 l2 Hperm IH|x y l|l1 l2 l3 H12 IH12 H23 IH23];
    intros Hin t.
  - done.
  - cbn [Py.for_each]. destruct (heads_pass lt t x) as [t'|]; [|done].
    simpl. apply IH. intros z Hz. apply Hin. by right.
  - cbn [Py.for_each].
    destruct (decide (x = y)) as [->|Hne]; [done|].
    assert (∀ hy hx, pass_heads lt y.1 y.2 = Some hy →
                     pass_heads lt x.1 x.2 = Some hx →
                     disjoint_heads hy hx) as Hd.
    { intros hy hx Hhy Hhx.
      apply (passes_disjoint lt y x);
        [done|apply Hin; by left|apply Hin; right; by left
        |congruence|done|done]. }
    transitivity ((t1 ← heads_pass lt t y; heads_pass lt t1 x)
                  ≫= Py.for_each (heads_pass lt) l).
    { by destruct (heads_pass lt t y). }
    rewrite (heads_pass_swap lt y x t Hd).
    by destruct (heads_pass lt t x).
  - rewrite IH12 by done. apply IH23.
    intros z Hz. apply Hin. by rewrite H12.
Qed.

(** * The encoder writes tokens *)

Lemma string_app_nil (s : string) : s +:+ EmptyString = s.
Proof.
  induction s as [|c s IH]; [done|].
  change (String c (s +:+ EmptyString) = String c s). by rewrite IH.
Qed.

Lemma string_app_assoc (s1 s2 s3 : string) :
  (s1 +:+ s2) +:+ s3 = s1 +:+ (s2 +:+ s3).
Proof.
  induction s1 as [|c s1 IH]; [done|].
  change (String c ((s1 +:+ s2) +:+ s3) = String c (s1 +:+ (s2 +:+ s3))).
  by rewrite IH.
Qed.

Lemma join_app (l1 l2 : list string) :
  join (l1 ++ l2) = join l1 +:+ join l2.
Proof.
  induction l1 as [|x l1 IH]; [done|]. simpl.
  by rewrite IH, string_app_assoc.
Qed.

Lemma join_snoc (l : list string) (tok : string) :
  join (l ++ [tok]) = join l +:+ tok.
Proof. rewrite join_app. f_equal. apply string_app_nil. Qed.

Lemma contains_cons (m : string) (a : ascii) (s : string) :
  Py.contains m (String a s)
  = String.prefix m (String a s) || Py.contains m s.
Proof. reflexivity. Qed.

Lemma prefix_cons_ne (c a : ascii) (x s : string) :
  c ≠ a → String.prefix (String c x) (String a s) = false.
Proof. intros Hne. simpl. by destruct (ascii_dec c a). Qed.

Lemma prefix_cons_eq (c : ascii) (x s : string) :
  String.prefix (String c x) (String c s) = String.prefix x s.
Proof. simpl. by destruct (ascii_dec c c). Qed.

Lemma prefix_nil (s : string) : String.prefix EmptyString s = true.
Proof. by destruct s. Qed.

(** Unfolds a search for a marker through the known first characters
    of a string. *)
Ltac contains_compute :=
  cbv [String.append];
  repeat rewrite contains_cons;
  repeat first [ rewrite prefix_cons_eq
               | rewrite prefix_cons_ne by discriminate
               | rewrite prefix_nil ].

Ltac string_eqb_compute :=
  repeat match goal with
         | |- context [String.eqb ?a ?b] =>
             let H := fresh in
             destruct (String.eqb_spec a b) as [H|H];
             [try discriminate H|try (exfalso; apply H; reflexivity)]
         end.

Lemma enc_token_cases (tok : string) :
  enc_token tok = true →
  tok ∈ ["<0"; "<0*"; ">0"; ">0*"; "\0"; "/0";
         "<1"; "<1*"; ">1"; ">1*"; "\1"; "/1"].
Proof.
  unfold enc_token. intros H%List.existsb_exists.
  destruct H as (x & Hx & ->%String.eqb_eq). by apply list_elem_of_In.
Qed.

(** A governor marker occurs in a fragment of encoder tokens exactly
    when it is one of the tokens. *)
Lemma contains_join (m : string) (toks : list string) :
  m ∈ ["\0"; "/0"; "\1"; "/1"] →
  Forall (fun tok => enc_token tok = true) toks →
  Py.contains m (join toks) = existsb (String.eqb m) toks.
Proof.
  intros Hm Htoks. induction Htoks as [|tok toks Htok _ IH].
  - repeat (apply elem_of_cons in Hm as [->|Hm]); [done..|].
    by apply elem_of_nil in Hm.
  - change (join (tok :: toks)) with (tok +:+ join toks).
    cbn [existsb]. rewrite <- IH. clear IH.
    apply enc_token_cases in Htok.
    repeat (apply elem_of_cons in Hm as [->|Hm]);
      try (by apply elem_of_nil in Hm);
      repeat (apply elem_of_cons in Htok as [->|Htok]);
      try (by apply elem_of_nil in Htok);
      contains_compute; string_eqb_compute; reflexivity.
Qed.

Lemma in_range_lookup {A} (l : list A) (k : Z) :
  in_range (length l) k → ∃ x, l !! Z.to_nat k = Some x.
Proof.
  intros [H0 H1]. apply lookup_lt_is_Some_2. lia.
Qed.

Lemma get_join (tb : list (list string)) (k : Z) (toks : list string) :
  0 <= k → tb !! Z.to_nat k = Some toks →
  Py.get (join <$> tb) k = Some (join toks).
Proof.
  intros Hk Htoks. rewrite get_is_lookup by done.
  by rewrite list_lookup_fmap, Htoks.
Qed.

Lemma set_join (tb : list (list string)) (k : Z) (toks : list string) :
  in_range (length tb) k →
  Py.set (join <$> tb) k (join toks)
  = Some (join <$> <[Z.to_nat k := toks]> tb).
Proof.
  intros [H0 H1].
  replace k with (Z.of_nat (Z.to_nat k)) at 1 by lia.
  rewrite set_of_nat by (rewrite length_fmap; lia).
  by rewrite list_fmap_insert.
Qed.

Lemma append_at_tokens (tb : list (list string)) (k : Z) (s : string) :
  in_range (length tb) k →
  append_at (join <$> tb) k s = Some (join <$> add_tokens tb k [s]).
Proof.
  intros Hk. destruct (in_range_lookup tb k Hk) as [toks Htoks].
  unfold append_at, add_tokens. rewrite Htoks.
  rewrite (get_join tb k toks) by (done || apply Hk). simpl.
  rewrite <- join_snoc. by apply set_join.
Qed.

Lemma append_star_tokens (tb : list (list string)) (k : Z) (s : string) :
  in_range (length tb) k →
  append_at (join <$> add_tokens tb k [s]) k "*"
  = Some (join <$> add_tokens tb k [s +:+ "*"]).
Proof.
  intros Hk. destruct (in_range_lookup tb k Hk) as [toks Htoks].
  assert (Z.to_nat k < length tb)%nat as Hlt by (destruct Hk; lia).
  unfold append_at, add_tokens. rewrite Htoks.
  rewrite (get_join _ k (toks ++ [s]))
    by (apply Hk || by apply list_lookup_insert_eq).
  simpl.
  replace (join (toks ++ [s]) +:+ "*") with (join (toks ++ [s +:+ "*"]))
    by (by rewrite !join_snoc, string_app_assoc).
  rewrite set_join by (by rewrite length_insert).
  by rewrite list_insert_insert_eq.
Qed.

Lemma append_once_tokens (tb : list (list string)) (h : Z) (m : string) :
  in_range (length tb) h →
  m ∈ ["\0"; "/0"; "\1"; "/1"] →
  Forall (Forall (fun tok => enc_token tok = true)) tb →
  append_once (join <$> tb) h m
  = Some (join <$> add_tokens tb h (if has_token tb h m then [] else [m])).
Proof.
  intros Hh Hm Htb. destruct (in_range_lookup tb h Hh) as [toks Htoks].
  unfold append_once, add_tokens, has_token. rewrite Htoks.
  rewrite (get_join tb h toks) by (done || apply Hh). simpl.
  rewrite contains_join; [|done|].
  - destruct (existsb (String.eqb m) toks); simpl.
    + rewrite string_app_nil, app_nil_r. by apply set_join.
    + rewrite <- join_snoc. by apply set_join.
  - rewrite Forall_forall in Htb. by eapply Htb, list_elem_of_lookup_2.
Qed.

Lemma add_tokens_length (tb : list (list string)) (k : Z)
    (toks : list string) :
  length (add_tokens tb k toks) = length tb.
Proof.
  unfold add_tokens. destruct (tb !! Z.to_nat k); [|done].
  apply length_insert.
Qed.

Lemma add_tokens_enc (tb : list (list string)) (k : Z) (toks : list string) :
  Forall (Forall (fun tok => enc_token tok = true)) tb →
  Forall (fun tok => enc_token tok = true) toks →
  Forall (Forall (fun tok => enc_token tok = true)) (add_tokens tb k toks).
Proof.
  intros Htb Htoks. unfold add_tokens.
  destruct (tb !! Z.to_nat k) as [l|] eqn:Hl; [|done].
  apply Forall_insert; [done|]. apply Forall_app. split; [|done].
  rewrite Forall_forall in Htb. by eapply Htb, list_elem_of_lookup_2.
Qed.

Lemma dep_token_enc (p : string) (plane : D_Plane) (node : D_Node) (h : Z) :
  plane_digit p → enc_token (dep_token p plane node h) = true.
Proof.
  unfold dep_token.
  intros [-> | ->]; destruct (is_left_arc (id node) h);
    by destruct (is_leftmost plane node), (is_rightmost plane node).
Qed.

Lemma gov_marker_cases (p : string) (left : bool) :
  plane_digit p → gov_marker p left ∈ ["\0"; "/0"; "\1"; "/1"].
Proof.
  intros [-> | ->]; destruct left; simpl;
    repeat (first [by left|right]).
Qed.

Lemma gov_marker_enc (p : string) (left : bool) :
  plane_digit p → enc_token (gov_marker p left) = true.
Proof. by intros [-> | ->]; destruct left. Qed.

Lemma token_node_length (p : string) (plane : D_Plane)
    (tb : list (list string)) (node : D_Node) :
  length (token_node p plane tb node) = length tb.
Proof.
  unfold token_node. destruct (id node =? 0); [done|].
  destruct (head node); [|done]. by rewrite !add_tokens_length.
Qed.

Lemma token_node_enc (p : string) (plane : D_Plane)
    (tb : list (list string)) (node : D_Node) :
  plane_digit p →
  Forall (Forall (fun tok => enc_token tok = true)) tb →
  Forall (Forall (fun tok => enc_token tok = true))
         (token_node p plane tb node).
Proof.
  intros Hp Htb. unfold token_node. destruct (id node =? 0); [done|].
  destruct (head node) as [h|]; [|done].
  apply add_tokens_enc.
  - apply add_tokens_enc; [done|]. repeat constructor.
    by apply dep_token_enc.
  - destruct (has_token _ _ _); repeat constructor.
    by apply gov_marker_enc.
Qed.

(** One step of the encoder appends to the fragments what
    [token_node] appends to the token buffers. *)
Lemma encoding_node_tokens (p : string) (plane : D_Plane)
    (tb : list (list string)) (node : D_Node) :
  plane_digit p →
  Forall (Forall (fun tok => enc_token tok = true)) tb →
  arc_ok (length tb) node →
  encoding_node plane (brk_chars_of p) (join <$> tb) node
  = Some (join <$> token_node p plane tb node).
Proof.
  intros Hp Htb Harc. unfold encoding_node, token_node.
  destruct (Z.eqb_spec (id node) 0) as [|Hid]; [done|].
  destruct (Harc Hid) as (h & Hh & Hrid & Hrh & _). rewrite Hh. simpl.
  set (tok := dep_token p plane node h).
  set (tb1 := add_tokens tb (id node) [tok]).
  assert (Forall (Forall (fun tok => enc_token tok = true)) tb1) as Htb1.
  { apply add_tokens_enc; [done|]. repeat constructor.
    by apply dep_token_enc. }
  assert (in_range (length tb1) h) as Hrh1
    by (unfold tb1; by rewrite add_tokens_length).
  unfold dep_token in tok.
  destruct (is_left_arc (id node) h) eqn:Hleft.
  - change (Py.get (brk_chars_of p) 0) with (Some ("<" +:+ p)).
    change (Py.get (brk_chars_of p) 1) with (Some (gov_marker p true)).
    simpl. rewrite append_at_tokens by done. simpl.
    destruct (is_leftmost plane node); simpl.
    + rewrite append_star_tokens by done. simpl.
      rewrite string_app_assoc. fold tok. fold tb1.
      apply append_once_tokens; [done| |done]. by apply gov_marker_cases.
    + replace ("<" +:+ p) with tok
        by (unfold tok; by rewrite string_app_nil).
      fold tb1.
      apply append_once_tokens; [done| |done]. by apply gov_marker_cases.
  - change (Py.get (brk_chars_of p) 2) with (Some (">" +:+ p)).
    change (Py.get (brk_chars_of p) 3) with (Some (gov_marker p false)).
    simpl. rewrite append_at_tokens by done. simpl.
    destruct (is_rightmost plane node); simpl.
    + rewrite append_star_tokens by done. simpl.
      rewrite string_app_assoc. fold tok. fold tb1.
      apply append_once_tokens; [done| |done]. by apply gov_marker_cases.
    + replace (">" +:+ p) with tok
        by (unfold tok; by rewrite string_app_nil).
      fold tb1.
      apply append_once_tokens; [done| |done]. by apply gov_marker_cases.
Qed.

Lemma encoding_step_tokens (p : string) (plane : D_Plane)
    (nodes : D_Plane) :
  plane_digit p →
  ∀ tb : list (list string),
    Forall (Forall (fun tok => enc_token tok = true)) tb →
    Forall (arc_ok (length tb)) nodes →
    Py.for_each (encoding_node plane (brk_chars_of p)) nodes (join <$> tb)
    = Some (join <$> token_step_plane p plane nodes tb).
Proof.
  intros Hp. induction nodes as [|node nodes IH]; intros tb Htb Hnodes.
  - done.
  - apply Forall_cons in Hnodes as [Hnode Hnodes].
    cbn [Py.for_each]. rewrite encoding_node_tokens by done. simpl.
    apply IH.
    + by apply token_node_enc.
    + by rewrite token_node_length.
Qed.

(** * The merge loop never moves a slot *)

Lemma get_index {A} (l : list A) (k : Z) (x : A) :
  Py.get l k = Some x →
  ∃ j, Py.index (length l) k = Some j ∧ l !! j = Some x.
Proof.
  unfold Py.get. destruct (Py.index _ _) as [j|]; simpl; [|done].
  intros Hj. by exists j.
Qed.

Lemma set_index {A} (l l' : list A) (k : Z) (v : A) :
  Py.set l k v = Some l' →
  ∃ j, Py.index (length l) k = Some j ∧ l' = <[j:=v]> l.
Proof.
  unfold Py.set. destruct (Py.index _ _) as [j|]; simpl; [|done].
  intros [= <-]. by exists j.
Qed.

Lemma Forall2_set {A B} (P : A → B → Prop) (inp : list A) (l l' : list B)
    (k : Z) (v : B) :
  Forall2 P inp l → Py.set l k v = Some l' →
  (∀ j c, Py.index (length l) k = Some j → inp !! j = Some c → P c v) →
  Forall2 P inp l'.
Proof.
  intros Hall (j & Hj & ->)%set_index Hv.
  destruct (inp !! j) as [c|] eqn:Hc.
  - rewrite <- (list_insert_id inp j c Hc).
    apply Forall2_insert; [done|]. by apply (Hv j).
  - rewrite list_insert_ge; [done|].
    rewrite <- (Forall2_length _ _ _ Hall). by apply lookup_ge_None.
Qed.

Lemma Forall2_get {A B} (P : A → B → Prop) (inp : list A) (l : list B)
    (k : Z) (x : B) :
  Forall2 P inp l → Py.get l k = Some x →
  ∃ j c, Py.index (length l) k = Some j ∧ inp !! j = Some c ∧ P c x.
Proof.
  intros Hall (j & Hj & Hx)%get_index.
  destruct (Forall2_lookup_r _ _ _ _ _ Hall Hx) as (c & Hc & HP).
  by exists j, c.
Qed.

Lemma slot_of_fuse (c slot d : string) :
  slot_of c slot → fused_chars d = true → slot_of c (slot +:+ d).
Proof.
  unfold slot_of. intros Hslot Hd. destruct (starts_boundary c).
  - destruct Hslot as (f & -> & Hf). exists (f +:+ d).
    by rewrite string_app_assoc, fused_chars_app, Hf, Hd.
  - by rewrite fused_chars_app, Hslot, Hd.
Qed.

(** A slot that reads as a plane digit or as the star is not the slot
    of a boundary character: clearing it loses no boundary character. *)
Lemma slot_of_clear (c slot : string) :
  String.length c = 1%nat → slot_of c slot →
  is_plane_digit slot = true ∨ slot = "*" →
  slot_of c EmptyString.
Proof.
  unfold slot_of. intros Hlen Hslot Hread.
  destruct c as [|ch [|ch' c]]; try done. simpl in *.
  destruct (boundary_char ch) eqn:Hb; [|done].
  destruct Hslot as (f & -> & _). unfold boundary_char in Hb.
  destruct Hread as [Hd|Hs].
  - unfold is_plane_digit in Hd.
    apply orb_prop in Hd as [Hd|Hd]; apply String.eqb_eq in Hd;
      injection Hd as -> _; done.
  - injection Hs as -> _. done.
Qed.

Lemma merge_iter_slots (inp l l' : list string) (i : Z) :
  Forall (fun c => String.length c = 1%nat) inp →
  Forall2 slot_of inp l → merge_iter l i = Some l' →
  Forall2 slot_of inp l'.
Proof.
  intros Hinp Hl. unfold merge_iter.
  destruct (Py.get l i) as [b|] eqn:Hb; [|done]. simpl.
  destruct (if is_plane_digit b
            then p ← Py.get l (i - 1);
                 brks' ← Py.set l (i - 1) (p +:+ b);
                 Py.set brks' i EmptyString
            else Some l) as [l1|] eqn:Hl1; [|done].
  simpl. rewrite Forall_forall in Hinp.
  assert (Forall2 slot_of inp l1) as Hslots1.
  { destruct (is_plane_digit b) eqn:Hdig; [|by injection Hl1 as <-].
    destruct (Py.get l (i - 1)) as [p|] eqn:Hp; [|done]. simpl in Hl1.
    destruct (Py.set l (i - 1) (p +:+ b)) as [l0|] eqn:Hl0; [|done].
    simpl in Hl1.
    destruct (Forall2_get _ _ _ _ _ Hl Hb) as (j & c & Hj & Hc & Hcb).
    destruct (Forall2_get _ _ _ _ _ Hl Hp) as (j1 & c1 & Hj1 & Hc1 & Hcp).
    assert (Forall2 slot_of inp l0) as Hslots0.
    { eapply Forall2_set; [exact Hl|exact Hl0|].
      intros j' c' Hj' Hc'. rewrite Hj1 in Hj'. injection Hj' as <-.
      rewrite Hc1 in Hc'. injection Hc' as <-.
      apply slot_of_fuse; [done|]. by apply plane_digit_fused. }
    eapply Forall2_set; [exact Hslots0|exact Hl1|].
    intros j' c' Hj' Hc'.
    rewrite (set_length _ _ _ _ Hl0), Hj in Hj'. injection Hj' as <-.
    rewrite Hc in Hc'. injection Hc' as <-.
    apply (slot_of_clear c b); [|done|by left].
    by eapply Hinp, list_elem_of_lookup_2. }
  destruct (Py.get l1 i) as [b1|] eqn:Hb1; [|done]. simpl.
  destruct (String.eqb_spec b1 "*") as [->|_]; [|by intros [= <-]].
  destruct (Py.get l1 (i - 2)) as [p|] eqn:Hp; [|done]. simpl.
  destruct (Py.set l1 (i - 2) (p +:+ "*")) as [l0|] eqn:Hl0; [|done].
  simpl. intros Hl'.
  destruct (Forall2_get _ _ _ _ _ Hslots1 Hb1) as (j & c & Hj & Hc & Hcb).
  destruct (Forall2_get _ _ _ _ _ Hslots1 Hp) as (j2 & c2 & Hj2 & Hc2 & Hcp).
  assert (Forall2 slot_of inp l0) as Hslots0.
  { eapply Forall2_set; [exact Hslots1|exact Hl0|].
    intros j' c' Hj' Hc'. rewrite Hj2 in Hj'. injection Hj' as <-.
    rewrite Hc2 in Hc'. injection Hc' as <-.
    by apply slot_of_fuse. }
  eapply Forall2_set; [exact Hslots0|exact Hl'|].
  intros j' c' Hj' Hc'.
  rewrite (set_length _ _ _ _ Hl0), Hj in Hj'. injection Hj' as <-.
  rewrite Hc in Hc'. injection Hc' as <-.
  apply (slot_of_clear c "*"); [|done|by right].
  by eapply Hinp, list_elem_of_lookup_2.
Qed.

Lemma merge_loop_slots (inp : list string) (k : nat) :
  Forall (fun c => String.length c = 1%nat) inp →
  ∀ (i : Z) (l l' : list string),
    Forall2 slot_of inp l → merge_loop k i l = Some l' →
    Forall2 slot_of inp l'.
Proof.
  intros Hinp. induction k as [|k IH]; intros i l l' Hl; simpl.
  - by intros [= <-].
  - destruct (merge_iter l i) as [l1|] eqn:Hl1; [|done]. simpl.
    apply IH. by eapply merge_iter_slots.
Qed.

Lemma chars_one (s : string) :
  Forall (fun c => String.length c = 1%nat) (Py.chars s).
Proof. induction s as [|c s IH]; simpl; by constructor. Qed.

Lemma chars_slots (s : string) : Forall2 slot_of (Py.chars s) (Py.chars s).
Proof.
  induction s as [|c s IH]; simpl; constructor; [|done].
  unfold slot_of. simpl. destruct (boundary_char c) eqn:Hb.
  - by exists EmptyString.
  - unfold boundary_char in Hb. apply negb_false_iff in Hb.
    simpl. by rewrite Hb.
Qed.

(** Slot by slot, the tokens left after the merge that start with a
    boundary character are headed by the boundary characters of the
    input, in their order. *)
Lemma slots_boundaries (inp l : list string) :
  Forall (fun c => String.length c = 1%nat) inp →
  Forall2 slot_of inp l →
  List.map first_char (List.filter starts_boundary (List.filter nonempty l))
  = List.filter starts_boundary inp.
Proof.
  intros Hinp Hall. induction Hall as [|c slot inp l Hslot _ IH]; [done|].
  apply Forall_cons in Hinp as [Hc Hinp]. specialize (IH Hinp).
  destruct c as [|ch [|ch' c]]; try done.
  unfold slot_of in Hslot. simpl in *.
  destruct (boundary_char ch) eqn:Hb.
  - destruct Hslot as (f & -> & _). simpl. rewrite Hb. simpl.
    by rewrite IH.
  - destruct slot as [|a rest]; [done|]. simpl in *.
    apply andb_prop in Hslot as [Ha _].
    unfold boundary_char. rewrite Ha. simpl. done.
Qed.

Lemma merge_boundaries (s : string) (toks : list string) :
  _merge_brackets (Py.chars s) = Some toks →
  List.map first_char (List.filter starts_boundary toks)
  = List.filter starts_boundary (Py.chars s).
Proof.
  unfold _merge_brackets.
  destruct (merge_loop _ 0 _) as [l|] eqn:Hl; [|done]. simpl.
  intros [= <-]. apply slots_boundaries; [apply chars_one|].
  eapply merge_loop_slots; [apply chars_one|apply chars_slots|exact Hl].
Qed.

(** Tokens none of which is a bare plane digit or the bare star are
    left as they are by a further merge. *)
Lemma merge_plain_fixed (toks : list string) :
  Forall (fun tok => plain tok = true) toks →
  Forall (fun tok => tok ≠ EmptyString) toks →
  _merge_brackets toks = Some toks.
Proof.
  intros Hplain Hne. unfold _merge_brackets.
  change 0 with (Z.of_nat 0).
  rewrite (merge_loop_plain toks Hplain (length toks) 0%nat) by (simpl; lia).
  simpl. f_equal. clear Hplain.
  induction Hne as [|tok toks Htok _ IH]; [done|]. simpl.
  destruct tok; [done|]. simpl. by rewrite IH.
Qed.

Lemma merge_nonempty (brks toks : list string) :
  _merge_brackets brks = Some toks →
  Forall (fun tok => tok ≠ EmptyString) toks.
Proof.
  unfold _merge_brackets.
  destruct (merge_loop _ 0 _) as [l|]; [|done]. simpl. intros [= <-].
  apply Forall_forall. intros tok Htok.
  apply list_elem_of_In, List.filter_In in Htok as [_ Htok].
  unfold nonempty in Htok. apply negb_true_iff in Htok.
  by apply String.eqb_neq in Htok.
Qed.

Lemma merge_iter_length (l l' : list string) (i : Z) :
  merge_iter l i = Some l' → length l' = length l.
Proof.
  unfold merge_iter.
  destruct (Py.get l i) as [b|]; [|done]. simpl.
  destruct (if is_plane_digit b
            then p ← Py.get l (i - 1);
                 brks' ← Py.set l (i - 1) (p +:+ b);
                 Py.set brks' i EmptyString
            else Some l) as [l1|] eqn:Hl1; [|done].
  simpl. assert (length l1 = length l) as Hlen1.
  { destruct (is_plane_digit b); [|by injection Hl1 as <-].
    destruct (Py.get l (i - 1)) as [p|]; [|done]. simpl in Hl1.
    destruct (Py.set l (i - 1) (p +:+ b)) as [l0|] eqn:Hl0; [|done].
    simpl in Hl1. apply set_length in Hl0, Hl1. congruence. }
  destruct (Py.get l1 i) as [b1|]; [|done]. simpl.
  destruct (String.eqb b1 "*"); [|intros [= <-]; done].
  destruct (Py.get l1 (i - 2)) as [p|]; [|done]. simpl.
  destruct (Py.set l1 (i - 2) (p +:+ "*")) as [l0|] eqn:Hl0; [|done].
  simpl. intros Hl'. apply set_length in Hl0, Hl'. congruence.
Qed.

Lemma merge_loop_length (k : nat) :
  ∀ (i : Z) (l l' : list string),
    merge_loop k i l = Some l' → length l' = length l.
Proof.
  induction k as [|k IH]; intros i l l'; simpl.
  - by intros [= <-].
  - destruct (merge_iter l i) as [l1|] eqn:Hl1; [|done]. simpl.
    intros Hl'. rewrite (IH _ _ _ Hl'). by eapply merge_iter_length.
Qed.

(** One round of the loop leaves the list alone at a slot that is
    neither a plane digit nor the star, and empties the slot
    otherwise. *)
Lemma merge_iter_cases (l l1 : list string) (j : nat) :
  merge_iter l (Z.of_nat j) = Some l1 →
  (∃ x, l !! j = Some x ∧ plain x = true ∧ l1 = l)
  ∨ l1 !! j = Some EmptyString.
Proof.
  unfold merge_iter.
  destruct (Py.get l (Z.of_nat j)) as [b|] eqn:Hb; [|done]. simpl.
  rewrite get_is_lookup in Hb by lia. rewrite Nat2Z.id in Hb.
  assert (j < length l)%nat as Hj by (by eapply lookup_lt_Some).
  destruct (is_plane_digit b) eqn:Hdig.
  - destruct (Py.get l (Z.of_nat j - 1)) as [p|]; [|done]. simpl.
    destruct (Py.set l (Z.of_nat j - 1) (p +:+ b)) as [l0|] eqn:Hl0;
      [|done].
    simpl. pose proof (set_length _ _ _ _ Hl0) as Hlen0.
    rewrite set_of_nat by lia. simpl.
    rewrite (get_of_nat _ j EmptyString)
      by (apply list_lookup_insert_eq; lia).
    simpl. intros [= <-]. right. apply list_lookup_insert_eq. lia.
  - simpl. rewrite (get_of_nat _ _ _ Hb). simpl.
    destruct (String.eqb_spec b "*") as [->|Hne].
    + destruct (Py.get l (Z.of_nat j - 2)) as [p|]; [|done]. simpl.
      destruct (Py.set l (Z.of_nat j - 2) (p +:+ "*")) as [l0|] eqn:Hl0;
        [|done].
      simpl. pose proof (set_length _ _ _ _ Hl0) as Hlen0.
      rewrite set_of_nat by lia. intros [= <-].
      right. apply list_lookup_insert_eq. lia.
    + intros [= <-]. left. exists b. split; [done|]. split; [|done].
      unfold plain. rewrite Hdig. simpl.
      by apply negb_true_iff, String.eqb_neq.
Qed.

(** A run of the loop that ends with no empty slot has found no plane
    digit and no star, and has changed nothing. *)
Lemma merge_loop_full (k : nat) :
  ∀ (j : nat) (l l' : list string),
    merge_loop k (Z.of_nat j) l = Some l' →
    Forall (fun x => x ≠ EmptyString) l' →
    l' = l
    ∧ ∀ m x, (j <= m < j + k)%nat → l !! m = Some x → plain x = true.
Proof.
  induction k as [|k IH]; intros j l l'; simpl.
  - intros [= <-] _. split; [done|]. intros m x Hm. lia.
  - destruct (merge_iter l (Z.of_nat j)) as [l1|] eqn:Hl1; [|done]. simpl.
    replace (Z.of_nat j + 1) with (Z.of_nat (S j)) by lia.
    intros Hloop Hfull.
    destruct (IH (S j) l1 l' Hloop Hfull) as [-> Hrest].
    destruct (merge_iter_cases l l1 j Hl1) as [(x & Hx & Hplain & ->)|Hempty].
    + split; [done|]. intros m y Hm Hy.
      destruct (decide (m = j)) as [->|Hne].
      * rewrite Hx in Hy. by injection Hy as <-.
      * apply (Hrest m y); [lia|done].
    + rewrite Forall_forall in Hfull.
      by destruct (Hfull EmptyString (list_elem_of_lookup_2 _ _ _ Hempty)).
Qed.

Lemma filter_keeps_all {A} (f : A → bool) (l : list A) :
  length (List.filter f l) = length l → Forall (fun x => f x = true) l.
Proof.
  induction l as [|x l IH]; [done|]. simpl.
  destruct (f x) eqn:Hx; simpl.
  - intros [= Hlen]. constructor; [done|]. by apply IH.
  - intros Hlen. pose proof (List.filter_length_le f l). lia.
Qed.

(** A list that a merge returns unchanged holds no bare plane digit and
    no bare star. *)
Lemma merge_fixed_plain (toks : list string) :
  _merge_brackets toks = Some toks →
  Forall (fun tok => plain tok = true) toks.
Proof.
  unfold _merge_brackets.
  destruct (merge_loop (length toks) 0 toks) as [l|] eqn:Hl; [|done].
  simpl. intros [= Hfilter].
  pose proof (merge_loop_length _ _ _ _ Hl) as Hlen.
  assert (Forall (fun x => nonempty x = true) l) as Hfull.
  { apply filter_keeps_all. by rewrite Hfilter. }
  change 0 with (Z.of_nat 0) in Hl.
  destruct (merge_loop_full _ _ _ _ Hl) as [_ Hplain].
  { eapply Forall_impl; [exact Hfull|]. intros x Hx ->. done. }
  apply Forall_forall. intros tok Htok.
  apply list_elem_of_lookup in Htok as [m Hm].
  apply (Hplain m tok); [|done].
  pose proof (lookup_lt_Some _ _ _ Hm). lia.
Qed.

(** * Tokens added by a plane, in any order of its arcs *)

Lemma add_tokens_lookup (tb : list (list string)) (k : Z)
    (toks : list string) (i : nat) :
  add_tokens tb k toks !! i
  = (fun l => l ++ (if decide (Z.to_nat k = i) then toks else []))
      <$> tb !! i.
Proof.
  unfold add_tokens. destruct (decide (Z.to_nat k = i)) as [Heq|Hne].
  - subst i. destruct (tb !! Z.to_nat k) as [l|] eqn:Hl.
    + by rewrite list_lookup_insert_eq by (by eapply lookup_lt_Some).
    + done.
  - destruct (tb !! Z.to_nat k) as [l|] eqn:Hl.
    + rewrite list_lookup_insert_ne by done.
      destruct (tb !! i); simpl; [|done]. by rewrite app_nil_r.
    + destruct (tb !! i); simpl; [|done]. by rewrite app_nil_r.
Qed.

Lemma has_dep_snoc (left : bool) (nodes : D_Plane) (d : D_Node) (g : Z) :
  has_dep left (nodes ++ [d]) g = has_dep left nodes g || is_dep left g d.
Proof.
  unfold has_dep. rewrite List.existsb_app. simpl. by rewrite orb_false_r.
Qed.

Lemma own_tokens_snoc (p : string) (plane nodes : D_Plane) (d : D_Node)
    (i : Z) :
  own_tokens p plane (nodes ++ [d]) i
  = own_tokens p plane nodes i ++ own_token p plane i d.
Proof.
  unfold own_tokens. rewrite List.flat_map_app. simpl.
  by rewrite app_nil_r.
Qed.

Lemma dep_token_not_gov (p : string) (plane : D_Plane) (node : D_Node)
    (h : Z) (left : bool) :
  String.eqb (gov_marker p left) (dep_token p plane node h) = false.
Proof.
  apply String.eqb_neq. unfold gov_marker, dep_token.
  destruct left, (is_left_arc (id node) h); discriminate.
Qed.

Lemma gov_marker_inj (p : string) (l1 l2 : bool) :
  String.eqb (gov_marker p l1) (gov_marker p l2) = Bool.eqb l1 l2.
Proof.
  destruct l1, l2; simpl; by rewrite ?String.eqb_refl.
Qed.

Lemma own_tokens_no_gov (p : string) (plane nodes : D_Plane) (i : Z)
    (left : bool) :
  existsb (String.eqb (gov_marker p left)) (own_tokens p plane nodes i)
  = false.
Proof.
  unfold own_tokens. induction nodes as [|nd nodes IH]; [done|].
  simpl. rewrite List.existsb_app, IH, orb_false_r.
  unfold own_token. destruct (negb _ && _); [|done].
  destruct (head nd); [|done]. simpl.
  by rewrite dep_token_not_gov.
Qed.

(** Among the tokens added by a plane a governor marker is present
    exactly when the node governs an arc of that direction. *)
Lemma plane_tokens_gov (p : string) (plane nodes : D_Plane) (i : Z)
    (left : bool) :
  existsb (String.eqb (gov_marker p left)) (plane_tokens p plane nodes i)
  = has_dep left nodes i.
Proof.
  unfold plane_tokens.
  rewrite !List.existsb_app, own_tokens_no_gov.
  destruct left, (has_dep true nodes i), (has_dep false nodes i);
    cbn [existsb]; by rewrite ?gov_marker_inj.
Qed.

Lemma existsb_perm {A} (f : A → bool) (l1 l2 : list A) :
  l1 ≡ₚ l2 → existsb f l1 = existsb f l2.
Proof.
  induction 1 as [|x l1 l2 _ IH|x y l|l1 l2 l3 _ IH1 _ IH2]; simpl.
  - done.
  - by rewrite IH.
  - by destruct (f x), (f y).
  - by rewrite IH1.
Qed.

Lemma is_dep_spec (left : bool) (g : Z) (d : D_Node) (h : Z) :
  id d ≠ 0 → head d = Some h →
  is_dep left g d = (h =? g) && Bool.eqb (is_left_arc (id d) h) left.
Proof.
  intros Hid Hh. unfold is_dep, same_group. rewrite Hh.
  by destruct (Z.eqb_spec (id d) 0).
Qed.

Lemma own_token_spec (p : string) (plane : D_Plane) (i : Z) (d : D_Node)
    (h : Z) :
  id d ≠ 0 → head d = Some h →
  own_token p plane i d
  = if id d =? i then [dep_token p plane d h] else [].
Proof.
  intros Hid Hh. unfold own_token. rewrite Hh.
  by destruct (Z.eqb_spec (id d) 0).
Qed.

Lemma plane_tokens_sentinel (p : string) (plane nodes : D_Plane)
    (d : D_Node) (i : Z) :
  id d = 0 →
  plane_tokens p plane (nodes ++ [d]) i = plane_tokens p plane nodes i.
Proof.
  intros Hid. unfold plane_tokens.
  rewrite !has_dep_snoc, own_tokens_snoc.
  unfold is_dep, same_group, own_token. rewrite Hid. simpl.
  by rewrite !orb_false_r, app_nil_r.
Qed.

(** One step of the encoder keeps the buffers in line with the arcs
    processed so far. *)
Lemma token_node_added (p : string) (plane nodes : D_Plane)
    (tb0 tb : list (list string)) (d : D_Node) :
  arc_ok (length tb) d →
  added_by p plane nodes tb0 tb →
  added_by p plane (nodes ++ [d]) tb0 (token_node p plane tb d).
Proof.
  intros Harc [Hlen Hinv]. split; [by rewrite token_node_length|].
  intros i toks0 Hi Hfree.
  destruct (Hinv i toks0 Hi Hfree) as (added & Htb & Hadded).
  unfold token_node.
  destruct (Z.eqb_spec (id d) 0) as [Hid|Hid].
  { exists added. split; [done|]. by rewrite plane_tokens_sentinel. }
  destruct (Harc Hid) as (h & Hh & [Hk0 Hk1] & [Hh0 Hh1] & Hne).
  rewrite Hh.
  set (left := is_left_arc (id d) h).
  set (tok := dep_token p plane d h).
  set (gov := gov_marker p left).
  set (tb1 := add_tokens tb (id d) [tok]).
  rewrite !add_tokens_lookup. unfold tb1 at 2.
  rewrite add_tokens_lookup, Htb. simpl.
  eexists. split; [by rewrite <- !app_assoc|].
  unfold plane_tokens.
  rewrite !has_dep_snoc, own_tokens_snoc.
  rewrite !(is_dep_spec _ _ d h Hid Hh), (own_token_spec _ _ _ d h Hid Hh).
  fold left tok.
  destruct (decide (Z.to_nat h = i)) as [Hhi|Hhi].
  - (* the governor of the arc *)
    assert (h = Z.of_nat i) as -> by lia.
    rewrite Z.eqb_refl. simpl.
    destruct (decide (Z.to_nat (id d) = i)) as [Hki|_]; [lia|].
    destruct (Z.eqb_spec (id d) (Z.of_nat i)) as [|_]; [lia|].
    assert (has_token tb1 (Z.of_nat i) gov
            = has_dep left nodes (Z.of_nat i)) as ->.
    { unfold has_token, tb1.
      rewrite add_tokens_lookup, Nat2Z.id, Htb. simpl.
      destruct (decide (Z.to_nat (id d) = i)) as [|_]; [lia|].
      rewrite app_nil_r, List.existsb_app. unfold gov.
      rewrite (existsb_perm _ _ _ Hadded), plane_tokens_gov.
      destruct Hfree as [Hf1 Hf2].
      by destruct left; rewrite ?Hf1, ?Hf2. }
    rewrite !app_nil_r. unfold plane_tokens in Hadded. unfold gov.
    destruct left; simpl;
      destruct (has_dep true nodes (Z.of_nat i)),
               (has_dep false nodes (Z.of_nat i));
      simpl; rewrite ?app_nil_r; rewrite Hadded; solve_Permutation.
  - (* another node *)
    destruct (Z.eqb_spec h (Z.of_nat i)) as [|_]; [lia|]. simpl.
    rewrite !orb_false_r, !app_nil_r.
    unfold plane_tokens in Hadded. rewrite Hadded.
    destruct (decide (Z.to_nat (id d) = i)) as [Hki|Hki];
      destruct (Z.eqb_spec (id d) (Z.of_nat i)) as [|]; try lia;
      solve_Permutation.
Qed.

(** The whole step of a plane, whatever the order of its arcs. *)
Lemma token_step_added (p : string) (plane : D_Plane)
    (tb0 : list (list string)) (rest : D_Plane) :
  ∀ (nodes : D_Plane) (tb : list (list string)),
    Forall (arc_ok (length tb0)) rest →
    added_by p plane nodes tb0 tb →
    added_by p plane (nodes ++ rest) tb0 (token_step_plane p plane rest tb).
Proof.
  induction rest as [|d rest IH]; intros nodes tb Hrest Hinv.
  - by rewrite app_nil_r.
  - apply Forall_cons in Hrest as [Hd Hrest].
    replace (nodes ++ d :: rest) with ((nodes ++ [d]) ++ rest)
      by (by rewrite <- app_assoc).
    simpl. apply IH; [done|].
    apply token_node_added; [|done].
    destruct Hinv as [-> _]. done.
Qed.

Lemma own_tokens_count_gov (p : string) (plane nodes : D_Plane) (i : Z)
    (left : bool) :
  count_occ string_dec (own_tokens p plane nodes i) (gov_marker p left)
  = 0%nat.
Proof.
  apply count_occ_not_In. intros Hin.
  pose proof (own_tokens_no_gov p plane nodes i left) as Hno.
  apply not_true_iff_false in Hno. apply Hno.
  apply List.existsb_exists. eexists. split; [exact Hin|].
  apply String.eqb_refl.
Qed.

(** A plane adds each of its governor markers once to the nodes that
    govern an arc of that direction, and to no other node. *)
Lemma plane_tokens_count_gov (p : string) (plane nodes : D_Plane) (i : Z)
    (left : bool) :
  count_occ string_dec (plane_tokens p plane nodes i) (gov_marker p left)
  = if has_dep left nodes i then 1%nat else 0%nat.
Proof.
  unfold plane_tokens. rewrite !count_occ_app, own_tokens_count_gov.
  assert (gov_marker p true ≠ gov_marker p false) as Hne by discriminate.
  destruct left, (has_dep true nodes i), (has_dep false nodes i); simpl;
    repeat (destruct (string_dec _ _)); try done; congruence.
Qed.

Lemma own_tokens_elem (p : string) (plane nodes : D_Plane) (d : D_Node)
    (h : Z) :
  d ∈ nodes → id d ≠ 0 → head d = Some h →
  dep_token p plane d h ∈ own_tokens p plane nodes (id d).
Proof.
  intros Hd Hid Hh. unfold own_tokens.
  apply list_elem_of_In, List.in_flat_map. exists d.
  split; [by apply list_elem_of_In|].
  rewrite (own_token_spec _ _ _ d h Hid Hh), Z.eqb_refl. by left.
Qed.

(** * Correctness of the stack machine *)

Section MachineFacts.
Variable res : Z → option (Z * bool).
Variable psh : Z → bool.

Lemma pending_cons (d : Z) (rest : list Z) (g : Z) :
  pending res (d :: rest) g = governs res g d || pending res rest g.
Proof. reflexivity. Qed.

Lemma filter_none {A} (f : A → bool) (l : list A) :
  Forall (fun x => f x = false) l → List.filter f l = [].
Proof.
  induction 1 as [|x l Hx _ IH]; [done|]. simpl. by rewrite Hx.
Qed.

Lemma filter_ext_Forall {A} (f g : A → bool) (l : list A) :
  Forall (fun x => f x = g x) l → List.filter f l = List.filter g l.
Proof.
  induction 1 as [|x l Hx _ IH]; [done|]. simpl. by rewrite Hx, IH.
Qed.

(** Along a disciplined order the stack holds, most recent first, the
    visited nodes that govern a node still to come; every resolving
    token finds its governor on top. *)
Lemma m_run_disciplined (vs : list Z) :
  NoDup vs → disciplined res psh vs →
  ∀ l2 l1 : list Z,
    vs = l1 ++ l2 →
    m_run res psh l2 (List.filter (pending res l2) (List.rev l1))
    = Some ([], List.map (fun d => fst <$> res d) l2).
Proof.
  intros Hnd Hdisc. induction l2 as [|d l2 IH]; intros l1 Hvs.
  - simpl. rewrite filter_none; [done|]. by apply Forall_forall.
  - destruct (Hdisc l1 d l2 Hvs) as [Hpsh Hres].
    specialize (IH (l1 ++ [d])).
    rewrite <- app_assoc in IH. specialize (IH Hvs).
    rewrite rev_unit in IH. simpl in IH. rewrite <- Hpsh in IH.
    cbn [m_run List.map]. unfold m_step.
    destruct (res d) as [[h star]|] eqn:Hd.
    + destruct (Hres h star eq_refl) as (Hstar & a & b & -> & Hb).
      assert (NoDup (a ++ h :: b)) as Hnd1.
      { rewrite Hvs in Hnd. by apply NoDup_app in Hnd as [? _]. }
      apply NoDup_app in Hnd1 as (_ & Hah & Hhb).
      apply NoDup_cons in Hhb as [Hhb _].
      assert (Forall (fun g => governs res g d = false) b) as Hgb.
      { apply Forall_forall. intros g Hg. unfold governs. rewrite Hd.
        apply Z.eqb_neq. intros ->. done. }
      assert (Forall (fun g => governs res g d = false) a) as Hga.
      { apply Forall_forall. intros g Hg. unfold governs. rewrite Hd.
        apply Z.eqb_neq. intros ->. apply (Hah g Hg). by left. }
      assert (List.filter (pending res (d :: l2)) (List.rev b) = []) as Eb.
      { apply filter_none, Forall_rev, Forall_forall. intros g Hg.
        rewrite Forall_forall in Hb, Hgb.
        by rewrite pending_cons, (Hgb g Hg), (Hb g Hg). }
      assert (List.filter (pending res l2) (List.rev b) = []) as Eb'.
      { by apply filter_none, Forall_rev. }
      assert (List.filter (pending res (d :: l2)) (List.rev a)
              = List.filter (pending res l2) (List.rev a)) as Ea.
      { apply filter_ext_Forall, Forall_rev.
        eapply Forall_impl; [exact Hga|].
        intros g Hg. by rewrite pending_cons, Hg. }
      assert (pending res (d :: l2) h = true) as Hh.
      { rewrite pending_cons. unfold governs. by rewrite Hd, Z.eqb_refl. }
      rewrite rev_app_distr in *. simpl in *.
      rewrite <- !app_assoc in *. simpl in *.
      rewrite !List.filter_app in *. simpl in *.
      rewrite Eb, Ea, Hh. rewrite Eb' in IH. simpl in *.
      destruct star; simpl.
      * symmetry in Hstar. apply negb_true_iff in Hstar.
        rewrite Hstar in IH. rewrite IH. done.
      * symmetry in Hstar. apply negb_false_iff in Hstar.
        rewrite Hstar in IH. rewrite IH. done.
    + assert (List.filter (pending res (d :: l2)) (List.rev l1)
              = List.filter (pending res l2) (List.rev l1)) as E1.
      { apply filter_ext_Forall, Forall_forall. intros g _.
        rewrite pending_cons. unfold governs. by rewrite Hd. }
      rewrite E1. simpl.
      destruct (psh d); simpl in *; by rewrite IH.
Qed.
End MachineFacts.

(** * Tokens added by a plane in ascending order *)

Lemma own_tokens_below (p : string) (plane nodes : D_Plane) (i : Z) :
  Forall (fun nd => id nd < i) nodes → own_tokens p plane nodes i = [].
Proof.
  induction 1 as [|nd nodes Hnd _ IH]; [done|].
  unfold own_tokens in *. simpl. rewrite IH, app_nil_r.
  unfold own_token. destruct (Z.eqb_spec (id nd) i); [lia|].
  by rewrite andb_false_r.
Qed.

(** A node has no right dependent among nodes of smaller id. *)
Lemma has_right_dep_below (nodes : D_Plane) (g : Z) :
  Forall (fun nd => id nd < g) nodes → has_dep false nodes g = false.
Proof.
  induction 1 as [|nd nodes Hnd _ IH]; [done|].
  unfold has_dep in *. simpl. rewrite IH, orb_false_r.
  unfold is_dep, same_group. destruct (head nd) as [hm|];
    [|by rewrite andb_false_r].
  destruct (Z.eqb_spec hm g) as [->|]; [|by rewrite andb_false_r].
  unfold is_left_arc.
  destruct (Z.ltb_spec (id nd) g); [|lia]. simpl.
  by rewrite andb_false_r.
Qed.

Lemma Forall_lt_trans (nodes : D_Plane) (k h : Z) :
  k <= h → Forall (fun nd => id nd < k) nodes →
  Forall (fun nd => id nd < h) nodes.
Proof.
  intros Hkh H. eapply Forall_impl; [exact H|]. intros nd Hnd. simpl in *. lia.
Qed.

(** One step of the encoder on a node that comes after all the nodes
    processed so far. *)
Lemma token_node_exact (p : string) (plane nodes : D_Plane)
    (tb0 tb : list (list string)) (d : D_Node) :
  arc_ok (length tb) d →
  Forall (fun nd => id nd < id d) nodes →
  exact_by p plane nodes tb0 tb →
  exact_by p plane (nodes ++ [d]) tb0 (token_node p plane tb d).
Proof.
  intros Harc Hbelow [Hlen Hinv]. split; [by rewrite token_node_length|].
  intros i toks0 Hi Hfree.
  pose proof (Hinv i toks0 Hi Hfree) as Htb.
  unfold token_node.
  destruct (Z.eqb_spec (id d) 0) as [Hid|Hid].
  { by rewrite plane_tokens_sentinel. }
  destruct (Harc Hid) as (h & Hh & [Hk0 Hk1] & [Hh0 Hh1] & Hne).
  rewrite Hh.
  set (left := is_left_arc (id d) h).
  set (tok := dep_token p plane d h).
  set (gov := gov_marker p left).
  set (tb1 := add_tokens tb (id d) [tok]).
  rewrite !add_tokens_lookup. unfold tb1 at 2.
  rewrite add_tokens_lookup, Htb. simpl. f_equal.
  rewrite <- !app_assoc. f_equal.
  unfold plane_tokens.
  rewrite !has_dep_snoc, own_tokens_snoc.
  rewrite !(is_dep_spec _ _ d h Hid Hh), (own_token_spec _ _ _ d h Hid Hh).
  fold left tok.
  destruct (decide (Z.to_nat h = i)) as [Hhi|Hhi].
  - (* the governor of the arc *)
    assert (h = Z.of_nat i) as -> by lia.
    rewrite Z.eqb_refl. simpl.
    destruct (decide (Z.to_nat (id d) = i)) as [Hki|_]; [lia|].
    destruct (Z.eqb_spec (id d) (Z.of_nat i)) as [|_]; [lia|].
    assert (has_token tb1 (Z.of_nat i) gov
            = has_dep left nodes (Z.of_nat i)) as ->.
    { unfold has_token, tb1.
      rewrite add_tokens_lookup, Nat2Z.id, Htb. simpl.
      destruct (decide (Z.to_nat (id d) = i)) as [|_]; [lia|].
      rewrite app_nil_r, List.existsb_app. unfold gov.
      rewrite plane_tokens_gov.
      destruct Hfree as [Hf1 Hf2].
      by destruct left; rewrite ?Hf1, ?Hf2. }
    rewrite !app_nil_r. unfold gov.
    destruct left eqn:Hleft; simpl.
    + apply Z.ltb_lt in Hleft.
      rewrite (own_tokens_below p plane nodes (Z.of_nat i))
        by (eapply Forall_lt_trans; [|exact Hbelow]; lia).
      rewrite (has_right_dep_below nodes (Z.of_nat i))
        by (eapply Forall_lt_trans; [|exact Hbelow]; lia).
      by destruct (has_dep true nodes (Z.of_nat i)).
    + rewrite orb_false_r, orb_true_r.
      destruct (has_dep false nodes (Z.of_nat i)); simpl;
        by rewrite <- ?app_assoc, ?app_nil_r.
  - (* another node *)
    destruct (Z.eqb_spec h (Z.of_nat i)) as [|_]; [lia|]. simpl.
    rewrite !orb_false_r, !app_nil_r.
    destruct (decide (Z.to_nat (id d) = i)) as [Hki|Hki];
      destruct (Z.eqb_spec (id d) (Z.of_nat i)) as [Hki'|Hki']; try lia.
    + rewrite <- Hki'.
      rewrite (own_tokens_below p plane nodes (id d)) by done.
      rewrite (has_right_dep_below nodes (id d)) by done.
      simpl. by rewrite !app_nil_r.
    + by rewrite !app_nil_r.
Qed.

Lemma ascending_before (nodes : D_Plane) (d : D_Node) (rest : D_Plane) :
  ascending (nodes ++ d :: rest) → Forall (fun nd => id nd < id d) nodes.
Proof.
  unfold ascending. induction nodes as [|nd nodes IH]; [done|].
  simpl. intros [Hs Hall]%StronglySorted_inv. constructor.
  - rewrite Forall_forall in Hall. apply Hall.
    apply elem_of_app. right. by left.
  - by apply IH.
Qed.

Lemma token_step_exact (p : string) (plane : D_Plane)
    (tb0 : list (list string)) (rest : D_Plane) :
  ∀ (nodes : D_Plane) (tb : list (list string)),
    Forall (arc_ok (length tb0)) rest →
    ascending (nodes ++ rest) →
    exact_by p plane nodes tb0 tb →
    exact_by p plane (nodes ++ rest) tb0 (token_step_plane p plane rest tb).
Proof.
  induction rest as [|d rest IH]; intros nodes tb Hrest Hasc Hinv.
  - by rewrite app_nil_r.
  - apply Forall_cons in Hrest as [Hd Hrest].
    replace (nodes ++ d :: rest) with ((nodes ++ [d]) ++ rest) in *
      by (by rewrite <- app_assoc).
    simpl. apply IH; [done..|].
    apply token_node_exact; [| |done].
    + destruct Hinv as [-> _]. done.
    + rewrite <- app_assoc in Hasc. by eapply ascending_before.
Qed.

(** * The rows written by [encode] *)

Lemma sublist_ascending (l1 l2 : D_Plane) :
  sublist l1 l2 → ascending l2 → ascending l1.
Proof.
  unfold ascending. induction 1 as [|x l1 l2 Hsub IH|x l1 l2 Hsub IH].
  - done.
  - intros [Hs Hall]%StronglySorted_inv. constructor; [by apply IH|].
    rewrite Forall_forall in *. intros y Hy. apply Hall.
    by eapply elem_of_sublist.
  - intros [Hs _]%StronglySorted_inv. by apply IH.
Qed.

Lemma dense_ids_ascending_from (t : D_Tree) :
  ∀ k : nat,
    (∀ i nd, t !! i = Some nd → id nd = Z.of_nat (k + i)) → ascending t.
Proof.
  unfold ascending. induction t as [|x t IH]; intros k Hid; [constructor|].
  constructor.
  - apply (IH (S k)). intros i nd Hi.
    rewrite (Hid (S i) nd Hi). f_equal. lia.
  - apply Forall_forall. intros y Hy.
    apply list_elem_of_lookup in Hy as [i Hi].
    rewrite (Hid 0%nat x eq_refl), (Hid (S i) y Hi). lia.
Qed.

Lemma dense_ids_ascending (t : D_Tree) : dense_ids t → ascending t.
Proof. intros H. by apply (dense_ids_ascending_from t 0). Qed.

Lemma arc_ok_mono (n m : nat) (nd : D_Node) :
  (n <= m)%nat → arc_ok n nd → arc_ok m nd.
Proof.
  intros Hnm Harc Hid. destruct (Harc Hid) as (h & ? & [??] & [??] & ?).
  exists h. unfold in_range. repeat split; try done; lia.
Qed.

Lemma sublist_Forall {A} (P : A → Prop) (l1 l2 : list A) :
  sublist l1 l2 → Forall P l2 → Forall P l1.
Proof.
  intros Hsub Hall. rewrite Forall_forall in *.
  intros x Hx. apply Hall. by eapply elem_of_sublist.
Qed.

Lemma token_step_enc (p : string) (plane nodes : D_Plane) :
  plane_digit p →
  ∀ tb : list (list string),
    Forall (Forall (fun tok => enc_token tok = true)) tb →
    Forall (Forall (fun tok => enc_token tok = true))
           (token_step_plane p plane nodes tb).
Proof.
  intros Hp. induction nodes as [|d nodes IH]; intros tb Htb; [done|].
  simpl. apply IH. by apply token_node_enc.
Qed.

Lemma own_tokens_plane (p : string) (plane nodes : D_Plane) (i : Z) :
  Forall (plane_token p) (own_tokens p plane nodes i).
Proof.
  unfold own_tokens. induction nodes as [|nd nodes IH]; [constructor|].
  simpl. apply Forall_app. split; [|done].
  unfold own_token. destruct (negb _ && _); [|constructor].
  destruct (head nd) as [h|]; [|constructor].
  constructor; [|constructor]. unfold plane_token, dep_token.
  destruct (is_left_arc (id nd) h).
  - destruct (is_leftmost plane nd).
    + do 3 right. by left.
    + rewrite string_app_nil. do 2 right. by left.
  - destruct (is_rightmost plane nd).
    + do 5 right. by left.
    + rewrite string_app_nil. do 4 right. by left.
Qed.

Lemma plane_tokens_plane (p : string) (plane nodes : D_Plane) (i : Z) :
  Forall (plane_token p) (plane_tokens p plane nodes i).
Proof.
  unfold plane_tokens. repeat (apply Forall_app; split).
  - destruct (has_dep true nodes i); [|constructor].
    constructor; [by left|constructor].
  - apply own_tokens_plane.
  - destruct (has_dep false nodes i); [|constructor].
    constructor; [right; by left|constructor].
Qed.

Lemma plane0_tokens_gov_free (toks : list string) :
  Forall (plane_token "0") toks → gov_free "1" toks.
Proof.
  induction 1 as [|tok toks Htok _ [IH1 IH2]]; [done|].
  unfold gov_free. cbn [existsb]. rewrite IH1, IH2, !orb_false_r.
  unfold plane_token in Htok.
  repeat (apply elem_of_cons in Htok as [->|Htok]);
    [..|by apply elem_of_nil in Htok]; done.
Qed.

Lemma plane0_gov_free (plane nodes : D_Plane) (i : Z) :
  gov_free "1" (plane_tokens "0" plane nodes i).
Proof. apply plane0_tokens_gov_free, plane_tokens_plane. Qed.

Lemma repeat_join (n : nat) :
  join <$> List.repeat [] n = List.repeat EmptyString n.
Proof. induction n as [|n IH]; [done|]. simpl. f_equal. exact IH. Qed.

Lemma repeat_lookup {A} (x : A) (n i : nat) :
  (i < n)%nat → List.repeat x n !! i = Some x.
Proof.
  revert i. induction n as [|n IH]; intros i Hi; [lia|].
  destruct i as [|i]; [done|]. simpl. apply IH. lia.
Qed.

Lemma exact_by_start (p : string) (plane : D_Plane)
    (tb0 : list (list string)) :
  exact_by p plane [] tb0 tb0.
Proof.
  split; [done|]. intros i toks0 Hi _.
  unfold plane_tokens. simpl. by rewrite app_nil_r.
Qed.

Lemma generate_labels_tokens (planes : D_Plane * D_Plane)
    (tb : list (list string)) (nodes : list D_Node) :
  Forall (fun nd => 0 <= id nd
                    ∧ tb !! Z.to_nat (id nd)
                      = Some (encoded_tokens planes (id nd))) nodes →
  generate_labels (join <$> tb) nodes
  = Some (List.map (fun nd => mk_label (join (encoded_tokens planes (id nd)))
                                       (relation nd)) nodes).
Proof.
  induction 1 as [|nd nodes [Hid Hnd] _ IH]; [done|].
  simpl. rewrite (get_join tb (id nd) _ Hid Hnd). simpl.
  by rewrite IH.
Qed.

Lemma make_rows_encoded (planes : D_Plane * D_Plane) (t : D_Tree) :
  make_rows (List.map word t) (List.map upos t) (List.map feats t)
            (List.map (fun nd => mk_label
                                   (join (encoded_tokens planes (id nd)))
                                   (relation nd)) t)
  = List.map (encoded_row planes) t.
Proof. induction t as [|nd t IH]; [done|]. simpl. by rewrite IH. Qed.

(** On a well-formed tree whose planes are listed in the order of the
    tree, [encode] returns one row per node; the payload of a row
    spells the tokens of plane 0 and then those of plane 1. *)
Lemma encode_rows (two_planar : D_Tree → D_Plane * D_Plane) (t : D_Tree) :
  well_formed t →
  sublist (two_planar t).1 t → sublist (two_planar t).2 t →
  encode two_planar t = Some (List.map (encoded_row (two_planar t)) t).
Proof.
  intros [Hdense Harcs] Hs1 Hs2. unfold encode.
  set (planes := two_planar t). fold planes in Hs1, Hs2.
  rewrite <- repeat_join.
  set (tb0 := List.repeat [] (length t + 1)).
  assert (length tb0 = (length t + 1)%nat) as Hlen0
    by apply List.repeat_length.
  assert (Forall (Forall (fun tok => enc_token tok = true)) tb0) as Henc0.
  { apply Forall_forall. intros l Hl.
    apply list_elem_of_In, List.repeat_spec in Hl. by subst l. }
  assert (∀ plane, sublist plane t → Forall (arc_ok (length tb0)) plane)
    as Hok.
  { intros plane Hsub. eapply sublist_Forall; [exact Hsub|].
    eapply Forall_impl; [exact Harcs|]. intros nd.
    apply arc_ok_mono. lia. }
  assert (∀ plane, sublist plane t → ascending plane) as Hasc.
  { intros plane Hsub. eapply sublist_ascending; [exact Hsub|].
    by apply dense_ids_ascending. }
  unfold encoding_step.
  rewrite (encoding_step_tokens "0" planes.1 planes.1)
    by (by left || by apply Hok || done).
  simpl.
  set (tb1 := token_step_plane "0" planes.1 planes.1 tb0).
  pose proof (token_step_exact "0" planes.1 tb0 planes.1 [] tb0
                (Hok _ Hs1) (Hasc _ Hs1) (exact_by_start _ _ _))
    as [Hlen1 Hex1].
  fold tb1 in Hlen1, Hex1. simpl in Hex1.
  assert (Forall (Forall (fun tok => enc_token tok = true)) tb1) as Henc1
    by (apply token_step_enc; [by left|done]).
  rewrite (encoding_step_tokens "1" planes.2 planes.2)
    by (by right || (rewrite Hlen1; by apply Hok) || done).
  simpl.
  set (tb2 := token_step_plane "1" planes.2 planes.2 tb1).
  assert (Forall (arc_ok (length tb1)) planes.2) as Hok2
    by (rewrite Hlen1; by apply Hok).
  pose proof (token_step_exact "1" planes.2 tb1 planes.2 [] tb1
                Hok2 (Hasc _ Hs2) (exact_by_start _ _ _))
    as [Hlen2 Hex2].
  fold tb2 in Hlen2, Hex2. simpl in Hex2.
  rewrite (generate_labels_tokens planes tb2 t).
  { simpl. by rewrite make_rows_encoded. }
  apply Forall_forall. intros nd Hnd.
  apply list_elem_of_lookup in Hnd as [i Hi].
  pose proof (lookup_lt_Some _ _ _ Hi) as Hlt.
  rewrite (Hdense i nd Hi), Nat2Z.id. split; [lia|].
  assert (tb0 !! i = Some []) as H0
    by (apply repeat_lookup; lia).
  assert (tb1 !! i = Some (plane_tokens "0" planes.1 planes.1 (Z.of_nat i)))
    as H1 by (by apply (Hex1 i [] H0)).
  apply (Hex2 i _ H1). apply plane0_gov_free.
Qed.

(** * The passes on the rows written by [encode] *)

Lemma plane_token_enc (p : string) (tok : string) :
  plane_digit p → plane_token p tok → enc_token tok = true.
Proof.
  unfold plane_token.
  intros [-> | ->] Htok;
    repeat (apply elem_of_cons in Htok as [->|Htok]);
    try done; by apply elem_of_nil in Htok.
Qed.

Lemma enc_token_bracket (tok : string) :
  enc_token tok = true → bracket_token tok = true.
Proof.
  intros Htok%enc_token_cases.
  repeat (apply elem_of_cons in Htok as [->|Htok]);
    try done; by apply elem_of_nil in Htok.
Qed.

Lemma encoded_tokens_enc (planes : D_Plane * D_Plane) (i : Z) :
  Forall (fun tok => enc_token tok = true) (encoded_tokens planes i).
Proof.
  unfold encoded_tokens. apply Forall_app. split.
  - eapply Forall_impl; [apply plane_tokens_plane|].
    intros tok. apply plane_token_enc. by left.
  - eapply Forall_impl; [apply plane_tokens_plane|].
    intros tok. apply plane_token_enc. by right.
Qed.

Lemma join_not_none (toks : list string) :
  Forall (fun tok => enc_token tok = true) toks →
  String.eqb (join toks) D_NONE_LABEL = false.
Proof.
  intros [|tok toks' Htok _]; [done|].
  apply String.eqb_neq.
  change (join (tok :: toks')) with (tok +:+ join toks').
  apply enc_token_cases in Htok.
  repeat (apply elem_of_cons in Htok as [->|Htok]);
    try discriminate; by apply elem_of_nil in Htok.
Qed.

(** A pass reads on an encoded row the tokens of the node, in its
    reading order. *)
Lemma row_tokens_encoded (dir : direction) (p : string)
    (planes : D_Plane * D_Plane) (nd : D_Node) :
  row_tokens dir p (encoded_row planes nd)
  = Some (pass_order dir p (encoded_tokens planes (id nd))).
Proof.
  unfold row_tokens, encoded_row. simpl.
  pose proof (encoded_tokens_enc planes (id nd)) as Henc.
  rewrite (join_not_none _ Henc).
  rewrite merge_of_tokens; [done|].
  eapply Forall_impl; [exact Henc|]. apply enc_token_bracket.
Qed.

(** Tokens that are neither opening nor resolving leave the state of
    the pass as it is. *)
Lemma head_steps_keep (dir : direction) (p : string) (cur : Z)
    (toks : list string) :
  ∀ st : list Z * option Z,
    Py.for_each (head_step (s_append_brk dir p) (s_peek_brk dir p) cur)
                toks st
    = Py.for_each (head_step (s_append_brk dir p) (s_peek_brk dir p) cur)
                  (List.filter (keep dir p) toks) st.
Proof.
  induction toks as [|tok toks IH]; intros [stack oh]; [done|].
  cbn [Py.for_each List.filter]. unfold keep at 1.
  unfold is_opening, is_resolving.
  destruct (Py.contains (s_append_brk dir p) tok) eqn:Ha;
    destruct (Py.contains (s_peek_brk dir p) tok) eqn:Hk; simpl;
    try (destruct (head_step _ _ cur (stack, oh) tok); [apply IH|done]).
  rewrite head_step_eq, Ha, Hk. simpl. apply IH.
Qed.

Lemma keep_gov (dir : direction) (p q : string) (left : bool) :
  plane_digit p → plane_digit q →
  keep dir p (gov_marker q left)
  = String.eqb q p && Bool.eqb left (pass_left dir).
Proof. by intros [-> | ->] [-> | ->]; destruct dir, left. Qed.

Lemma keep_dep (dir : direction) (p q : string) (plane : D_Plane)
    (nd : D_Node) (h : Z) :
  plane_digit p → plane_digit q →
  keep dir p (dep_token q plane nd h)
  = String.eqb q p && Bool.eqb (is_left_arc (id nd) h) (pass_left dir).
Proof.
  unfold dep_token.
  by intros [-> | ->] [-> | ->];
    destruct dir, (is_left_arc (id nd) h),
             (is_leftmost plane nd), (is_rightmost plane nd).
Qed.

Lemma bare_gov (p q : string) (left : bool) :
  plane_digit p → plane_digit q →
  is_bare p (gov_marker q left) = String.eqb q p && left.
Proof. by intros [-> | ->] [-> | ->]; destruct left. Qed.

Lemma bare_dep (p q : string) (plane : D_Plane) (nd : D_Node) (h : Z) :
  plane_digit p → plane_digit q →
  is_bare p (dep_token q plane nd h) = false.
Proof.
  unfold dep_token.
  by intros [-> | ->] [-> | ->];
    destruct (is_left_arc (id nd) h),
             (is_leftmost plane nd), (is_rightmost plane nd).
Qed.

Lemma filter_plane_tokens (g : string → bool) (q : string)
    (plane : D_Plane) (i : Z) :
  List.filter g (plane_tokens q plane plane i)
  = (if has_dep true plane i && g (gov_marker q true)
     then [gov_marker q true] else [])
    ++ List.filter g (own_tokens q plane plane i)
    ++ (if has_dep false plane i && g (gov_marker q false)
        then [gov_marker q false] else []).
Proof.
  unfold plane_tokens. rewrite !List.filter_app.
  destruct (has_dep true plane i), (has_dep false plane i); simpl;
    by destruct (g (gov_marker q true)), (g (gov_marker q false)).
Qed.

Lemma own_tokens_above (p : string) (plane nodes : D_Plane) (i : Z) :
  Forall (fun nd => i < id nd) nodes → own_tokens p plane nodes i = [].
Proof.
  induction 1 as [|nd nodes Hnd _ IH]; [done|].
  unfold own_tokens in *. simpl. rewrite IH, app_nil_r.
  unfold own_token. destruct (Z.eqb_spec (id nd) i); [lia|].
  by rewrite andb_false_r.
Qed.

(** In a plane listed in ascending order a node has one dependent token
    at most, that of its own arc. *)
Lemma own_tokens_find (p : string) (plane nodes : D_Plane) (i : Z) :
  ascending nodes →
  own_tokens p plane nodes i
  = match List.find (fun nd => negb (id nd =? 0) && (id nd =? i)) nodes with
    | Some nd =>
        match head nd with
        | Some h => [dep_token p plane nd h]
        | None => []
        end
    | None => []
    end.
Proof.
  unfold ascending. induction 1 as [|nd nodes Hs IH Hall]; [done|].
  unfold own_tokens in *. simpl. unfold own_token at 1.
  destruct (negb (id nd =? 0) && (id nd =? i)) eqn:Hnd.
  - apply andb_prop in Hnd as [_ Hi%Z.eqb_eq].
    fold (own_tokens p plane nodes i).
    rewrite own_tokens_above, app_nil_r; [done|].
    eapply Forall_impl; [exact Hall|]. intros m Hm. simpl in Hm. lia.
  - simpl. exact IH.
Qed.

(** Filtering the tokens of a plane by a test that only looks at the
    kind of a token. *)
Lemma filter_plane_table (g : string → bool) (G D : bool → bool)
    (q : string) (plane : D_Plane) (i : Z) :
  ascending plane →
  (∀ left, g (gov_marker q left) = G left) →
  (∀ nd h, g (dep_token q plane nd h) = D (is_left_arc (id nd) h)) →
  List.filter g (plane_tokens q plane plane i)
  = (if has_dep true plane i && G true then [gov_marker q true] else [])
    ++ match node_at plane i with
       | Some nd =>
           match head nd with
           | Some h =>
               if D (is_left_arc (id nd) h) then [dep_token q plane nd h]
               else []
           | None => []
           end
       | None => []
       end
    ++ (if has_dep false plane i && G false then [gov_marker q false]
        else []).
Proof.
  intros Hasc HG HD. rewrite filter_plane_tokens, !HG.
  rewrite (own_tokens_find q plane plane i Hasc). fold (node_at plane i).
  destruct (node_at plane i) as [nd|]; [|done].
  destruct (head nd) as [h|]; [|done].
  simpl. by rewrite HD.
Qed.

Lemma filter_filter_list {A} (f g : A → bool) (l : list A) :
  List.filter f (List.filter g l) = List.filter (fun x => g x && f x) l.
Proof.
  induction l as [|x l IH]; [done|]. simpl.
  destruct (g x); simpl; [|done]. destruct (f x); by rewrite IH.
Qed.

Lemma filter_perm {A} (f : A → bool) (l1 l2 : list A) :
  l1 ≡ₚ l2 → List.filter f l1 ≡ₚ List.filter f l2.
Proof.
  induction 1 as [|x l1 l2 _ IH|x y l|l1 l2 l3 _ IH1 _ IH2]; simpl.
  - done.
  - destruct (f x); by rewrite IH.
  - destruct (f x), (f y); try done. apply perm_swap.
  - by rewrite IH1.
Qed.

Lemma perm_short {A} (l1 l2 : list A) :
  l1 ≡ₚ l2 → (length l2 <= 1)%nat → l1 = l2.
Proof.
  intros Hperm Hlen. destruct l2 as [|x [|y l2]]; simpl in Hlen; [| |lia].
  - by apply Permutation_nil_r.
  - by apply Permutation_singleton_r.
Qed.

Lemma res_token_spec (p : string) (plane : D_Plane) (dir : direction)
    (i : Z) :
  match node_at plane i with
  | Some nd =>
      match head nd with
      | Some h =>
          if Bool.eqb (is_left_arc (id nd) h) (pass_left dir)
          then [dep_token p plane nd h] else []
      | None => []
      end
  | None => []
  end
  = match res_of plane dir i with
    | Some (_, star) =>
        [s_peek_brk dir p +:+ (if star then "*" else EmptyString)]
    | None => []
    end.
Proof.
  unfold res_of. destruct (node_at plane i) as [nd|]; [|done]. simpl.
  destruct (head nd) as [h|]; [|done]. simpl.
  unfold dep_token, s_peek_brk.
  destruct dir, (is_left_arc (id nd) h); simpl; try done;
    by rewrite string_app_assoc.
Qed.

(** What a left-to-right pass acts on, in the order of the fragment. *)
Lemma acting_l2r (p : string) (planes : D_Plane * D_Plane) (i : Z) :
  plane_digit p → ascending planes.1 → ascending planes.2 →
  List.filter (keep l2r p) (encoded_tokens planes i)
  = acting_tokens p (plane_of planes p) l2r i.
Proof.
  intros Hp H1 H2. unfold encoded_tokens. rewrite List.filter_app.
  rewrite (filter_plane_table (keep l2r p)
             (fun left => String.eqb "0" p && Bool.eqb left false)
             (fun la => String.eqb "0" p && Bool.eqb la false)
             "0" planes.1 i H1);
    [|intros; apply keep_gov; [done|by left]
     |intros; apply keep_dep; [done|by left]].
  rewrite (filter_plane_table (keep l2r p)
             (fun left => String.eqb "1" p && Bool.eqb left false)
             (fun la => String.eqb "1" p && Bool.eqb la false)
             "1" planes.2 i H2);
    [|intros; apply keep_gov; [done|by right]
     |intros; apply keep_dep; [done|by right]].
  unfold acting_tokens, psh_of, plane_of.
  rewrite <- (res_token_spec p _ l2r).
  destruct Hp as [-> | ->]; simpl; rewrite ?andb_false_r, ?andb_true_r;
    simpl.
  - destruct (node_at planes.2 i) as [nd|]; [|by rewrite !app_nil_r].
    destruct (head nd); by rewrite !app_nil_r.
  - destruct (node_at planes.1 i) as [nd|]; [|done].
    by destruct (head nd).
Qed.

Lemma nonbare_keep_encoded (p : string) (planes : D_Plane * D_Plane)
    (i : Z) :
  plane_digit p → ascending planes.1 → ascending planes.2 →
  List.filter (fun x => negb (is_bare p x) && keep r2l p x)
              (encoded_tokens planes i)
  = match res_of (plane_of planes p) r2l i with
    | Some (_, star) =>
        [s_peek_brk r2l p +:+ (if star then "*" else EmptyString)]
    | None => []
    end.
Proof.
  intros Hp H1 H2. unfold encoded_tokens. rewrite List.filter_app.
  rewrite (filter_plane_table _
             (fun left => negb (String.eqb "0" p && left)
                          && (String.eqb "0" p && Bool.eqb left true))
             (fun la => String.eqb "0" p && Bool.eqb la true)
             "0" planes.1 i H1);
    [|intros; rewrite bare_gov, keep_gov; done || by left
     |intros; rewrite bare_dep, keep_dep; done || by left].
  rewrite (filter_plane_table _
             (fun left => negb (String.eqb "1" p && left)
                          && (String.eqb "1" p && Bool.eqb left true))
             (fun la => String.eqb "1" p && Bool.eqb la true)
             "1" planes.2 i H2);
    [|intros; rewrite bare_gov, keep_gov; done || by right
     |intros; rewrite bare_dep, keep_dep; done || by right].
  unfold plane_of. rewrite <- (res_token_spec p _ r2l).
  destruct Hp as [-> | ->]; simpl; rewrite ?andb_false_r, ?andb_true_r;
    simpl.
  - destruct (node_at planes.1 i) as [nd|], (node_at planes.2 i) as [nd'|];
      try destruct (head nd); try destruct (head nd');
      simpl; by rewrite ?app_nil_r.
  - destruct (node_at planes.1 i) as [nd|], (node_at planes.2 i) as [nd'|];
      try destruct (head nd); try destruct (head nd');
      simpl; by rewrite ?app_nil_r.
Qed.

Lemma bare_keep_encoded (p : string) (planes : D_Plane * D_Plane) (i : Z) :
  plane_digit p → ascending planes.1 → ascending planes.2 →
  List.filter (fun x => is_bare p x && keep r2l p x)
              (encoded_tokens planes i)
  = if psh_of (plane_of planes p) r2l i then [s_append_brk r2l p] else [].
Proof.
  intros Hp H1 H2. unfold encoded_tokens. rewrite List.filter_app.
  rewrite (filter_plane_table _
             (fun left => (String.eqb "0" p && left)
                          && (String.eqb "0" p && Bool.eqb left true))
             (fun la => false)
             "0" planes.1 i H1);
    [|intros; rewrite bare_gov, keep_gov; done || by left
     |intros; rewrite bare_dep; done || by left].
  rewrite (filter_plane_table _
             (fun left => (String.eqb "1" p && left)
                          && (String.eqb "1" p && Bool.eqb left true))
             (fun la => false)
             "1" planes.2 i H2);
    [|intros; rewrite bare_gov, keep_gov; done || by right
     |intros; rewrite bare_dep; done || by right].
  unfold plane_of, psh_of.
  destruct Hp as [-> | ->]; simpl; rewrite ?andb_false_r, ?andb_true_r;
    simpl.
  - destruct (node_at planes.1 i) as [nd|], (node_at planes.2 i) as [nd'|];
      try destruct (head nd); try destruct (head nd');
      simpl; by rewrite ?app_nil_r.
  - destruct (node_at planes.1 i) as [nd|], (node_at planes.2 i) as [nd'|];
      try destruct (head nd); try destruct (head nd');
      simpl; by rewrite ?app_nil_r.
Qed.

(** What a right-to-left pass acts on, in its reading order. *)
Lemma acting_r2l (p : string) (planes : D_Plane * D_Plane) (i : Z) :
  plane_digit p → ascending planes.1 → ascending planes.2 →
  List.filter (keep r2l p) (pass_order r2l p (encoded_tokens planes i))
  = acting_tokens p (plane_of planes p) r2l i.
Proof.
  intros Hp H1 H2. rewrite r2l_order_split, List.filter_app.
  unfold acting_tokens. f_equal.
  - apply perm_short.
    + rewrite <- (nonbare_keep_encoded p planes i Hp H1 H2).
      rewrite <- filter_filter_list. apply filter_perm.
      apply (sort_by_perm (fun x : string => x) String.leb).
    + destruct (res_of _ r2l i) as [[??]|]; simpl; lia.
  - rewrite filter_filter_list. by apply bare_keep_encoded.
Qed.

Lemma res_token_kind (dir : direction) (p : string) (star : bool) :
  plane_digit p →
  let tok := s_peek_brk dir p +:+ (if star then "*" else EmptyString) in
  Py.contains (s_append_brk dir p) tok = false
  ∧ Py.contains (s_peek_brk dir p) tok = true
  ∧ Py.contains "*" tok = star.
Proof. by intros [-> | ->]; destruct dir, star. Qed.

Lemma push_token_kind (dir : direction) (p : string) :
  plane_digit p →
  Py.contains (s_append_brk dir p) (s_append_brk dir p) = true
  ∧ Py.contains (s_peek_brk dir p) (s_append_brk dir p) = false.
Proof. by intros [-> | ->]; destruct dir. Qed.

(** On the tokens it acts on, a pass does one step of the stack
    machine of its plane. *)
Lemma acting_run (p : string) (plane : D_Plane) (dir : direction)
    (stack : list Z) (i : Z) :
  plane_digit p →
  Py.for_each (head_step (s_append_brk dir p) (s_peek_brk dir p) i)
              (acting_tokens p plane dir i) (stack, None)
  = m_step (res_of plane dir) (psh_of plane dir) stack i.
Proof.
  intros Hp. unfold acting_tokens, m_step.
  destruct (push_token_kind dir p Hp) as [Hpa Hpk].
  destruct (res_of plane dir i) as [[h star]|].
  - destruct (res_token_kind dir p star Hp) as (Ha & Hk & Hs).
    cbn [app Py.for_each]. rewrite head_step_eq, Ha, Hk, Hs.
    destruct star; simpl.
    + destruct stack as [|top rest]; [done|]. simpl.
      destruct (psh_of plane dir i); [|done].
      cbn [Py.for_each]. by rewrite head_step_eq, Hpa, Hpk.
    + destruct (psh_of plane dir i); [|done].
      cbn [Py.for_each]. by rewrite head_step_eq, Hpa, Hpk.
  - simpl. destruct (psh_of plane dir i); [|done].
    cbn [Py.for_each]. by rewrite head_step_eq, Hpa, Hpk.
Qed.

Lemma row_heads_encoded (dir : direction) (p : string)
    (planes : D_Plane * D_Plane) (nd : D_Node) (stack : list Z) :
  plane_digit p → ascending planes.1 → ascending planes.2 →
  row_heads dir p (id nd) stack (encoded_row planes nd)
  = m_step (res_of (plane_of planes p) dir) (psh_of (plane_of planes p) dir)
           stack (id nd).
Proof.
  intros Hp H1 H2. unfold row_heads.
  rewrite row_tokens_encoded. simpl.
  rewrite head_steps_keep.
  destruct dir.
  - simpl pass_order. rewrite acting_l2r by done. by apply acting_run.
  - rewrite acting_r2l by done. by apply acting_run.
Qed.

(** * Tokens read one after the other *)

Lemma for_each_app {A S} (f : S → A → option S) (l1 l2 : list A) (s : S) :
  Py.for_each f (l1 ++ l2) s
  = s' ← Py.for_each f l1 s; Py.for_each f l2 s'.
Proof.
  revert s. induction l1 as [|x l1 IH]; intros s; [done|]. simpl.
  destruct (f s x) as [s1|]; [|done]. simpl. apply IH.
Qed.

Lemma for_each_ext {A S} (f g : S → A → option S) (l : list A) :
  (∀ s x, f s x = g s x) →
  ∀ s, Py.for_each f l s = Py.for_each g l s.
Proof.
  intros Hfg. induction l as [|x l IH]; intros s; [done|]. simpl.
  rewrite Hfg. destruct (g s x) as [s1|]; [|done]. simpl. apply IH.
Qed.

Lemma repeat_app_cons {A} (x : A) (n : nat) (l : list A) :
  List.repeat x n ++ x :: l = x :: List.repeat x n ++ l.
Proof. induction n as [|n IH]; [done|]. simpl. by rewrite IH. Qed.

Lemma filter_none_of {A} (f : A → bool) (l : list A) :
  Forall (fun x => f x = false) l → List.filter f l = [].
Proof.
  induction 1 as [|x l Hx _ IH]; [done|]. simpl. by rewrite Hx.
Qed.

Lemma sorted_filter {A} (R : A → A → Prop) (f : A → bool) (l : list A) :
  StronglySorted R l → StronglySorted R (List.filter f l).
Proof.
  induction 1 as [|x l Hl IH Hx]; simpl; [constructor|].
  destruct (f x); [|done]. constructor; [done|]. by apply filter_Forall.
Qed.

Lemma token_step_no_resolving (a k : string) (cur : Z)
    (st : list Z * D_Tree) (tok : string) :
  Py.contains k tok = false →
  token_step a k cur st tok
  = Some (if Py.contains a tok then cur :: st.1 else st.1, st.2).
Proof. unfold token_step. by intros ->. Qed.

(** Tokens that do not resolve only push: the stack grows by the
    current node once for each token that holds the opening marker, and
    the tree is left alone. *)
Lemma steps_no_resolving (a k : string) (cur : Z) (toks : list string) :
  Forall (fun tok => Py.contains k tok = false) toks →
  ∀ st : list Z * D_Tree,
    Py.for_each (token_step a k cur) toks st
    = Some (List.repeat cur (length (List.filter (Py.contains a) toks))
              ++ st.1, st.2).
Proof.
  induction 1 as [|tok toks Htok _ IH]; intros [stack t]; [done|].
  cbn [Py.for_each]. rewrite (token_step_no_resolving _ _ _ _ _ Htok).
  simpl. rewrite IH. simpl. destruct (Py.contains a tok); simpl; [|done].
  by rewrite repeat_app_cons.
Qed.

Lemma for_each_ext_in {A S} (f g : S → A → option S) (l : list A) :
  (∀ s x, x ∈ l → f s x = g s x) →
  ∀ s, Py.for_each f l s = Py.for_each g l s.
Proof.
  induction l as [|x l IH]; intros Hfg s; [done|]. simpl.
  rewrite Hfg by (by left). destruct (g s x) as [s1|]; [|done]. simpl.
  apply IH. intros s' y Hy. apply Hfg. by right.
Qed.

Lemma resolve_step_none (k : string) (cur : Z) (st : list Z * D_Tree)
    (tok : string) :
  Py.contains k tok = false → resolve_step k cur st tok = Some st.
Proof. unfold resolve_step. by intros ->. Qed.

Lemma resolve_steps_none (k : string) (cur : Z) (toks : list string) :
  Forall (fun tok => Py.contains k tok = false) toks →
  ∀ st : list Z * D_Tree,
    Py.for_each (resolve_step k cur) toks st = Some st.
Proof.
  induction 1 as [|tok toks Htok _ IH]; intros st; [done|].
  cbn [Py.for_each]. rewrite (resolve_step_none _ _ _ _ Htok). simpl.
  apply IH.
Qed.

(** A token that holds the resolving marker and not the opening one
    acts as [resolve_step] says. *)
Lemma token_step_resolving (a k : string) (cur : Z) (st : list Z * D_Tree)
    (tok : string) :
  Py.contains a tok = false →
  token_step a k cur st tok = resolve_step k cur st tok.
Proof.
  intros Ha. unfold token_step, resolve_step. rewrite Ha.
  destruct (Py.contains k tok); [done|]. by destruct st.
Qed.

(** Tokens in which no resolving token comes after an opening one: the
    loop over them resolves everything first and pushes afterwards. *)
Lemma steps_resolve_first (a k : string) (cur : Z) (toks : list string) :
  Forall (fun x => Py.contains k x = true → Py.contains a x = false) toks →
  resolving_first a k toks = true →
  ∀ st : list Z * D_Tree,
    Py.for_each (token_step a k cur) toks st
    = st' ← Py.for_each (resolve_step k cur) toks st;
      Some (List.repeat cur (length (List.filter (Py.contains a) toks))
              ++ st'.1, st'.2).
Proof.
  induction 1 as [|x toks Hx _ IH]; intros Hfirst st.
  - by destruct st.
  - cbn [resolving_first] in Hfirst.
    apply andb_prop in Hfirst as [Hhere Hrest].
    destruct (Py.contains a x) eqn:Ha.
    + (* an opening token: nothing resolves from here on *)
      simpl in Hhere.
      assert (Forall (fun y => Py.contains k y = false) (x :: toks))
        as Hnone.
      { constructor.
        - destruct (Py.contains k x) eqn:Hk; [|done].
          specialize (Hx eq_refl). congruence.
        - apply Forall_forall. intros y Hy.
          rewrite List.forallb_forall in Hhere.
          apply negb_true_iff, Hhere. by apply list_elem_of_In. }
      rewrite (steps_no_resolving a k cur _ Hnone).
      by rewrite (resolve_steps_none k cur _ Hnone).
    + cbn [Py.for_each List.filter]. rewrite Ha.
      rewrite (token_step_resolving a k cur st x Ha).
      destruct (resolve_step k cur st x) as [st1|]; [|done]. simpl.
      by apply IH.
Qed.

(** Among merged tokens no token holds both markers of a pass: the
    markers start with different bracket characters. *)
Lemma marker_exclusive (dir : direction) (p tok : string) :
  slot_shape tok →
  Py.contains (s_peek_brk dir p) tok = true →
  Py.contains (s_append_brk dir p) tok = false.
Proof.
  intros Hshape Hk.
  destruct (Py.contains (s_append_brk dir p) tok) eqn:Ha; [|done].
  destruct dir.
  - change (s_peek_brk l2r p) with (String ">" p) in Hk.
    change (s_append_brk l2r p) with (String "/" p) in Ha.
    apply contains_first_char in Hk as [rk ->]; [|done..].
    by apply contains_first_char in Ha as [ra ?].
  - change (s_peek_brk r2l p) with (String "<" p) in Hk.
    change (s_append_brk r2l p) with (String "\" p) in Ha.
    apply contains_first_char in Hk as [rk ->]; [|done..].
    by apply contains_first_char in Ha as [ra ?].
Qed.

Lemma row_brks_shape (row : Row) (brks : list string) :
  row_brks row = Some brks → Forall slot_shape brks.
Proof.
  unfold row_brks. destruct (String.eqb _ D_NONE_LABEL).
  - by intros [= <-].
  - apply merge_shape.
Qed.

Lemma pass_order_shape (dir : direction) (p : string) (brks : list string) :
  Forall slot_shape brks → Forall slot_shape (pass_order dir p brks).
Proof.
  intros Hshape. destruct dir; simpl; [done|].
  by rewrite (sort_by_perm (r2l_key p) key_leb brks).
Qed.

(** The reading order of a right-to-left pass always has the resolving
    tokens first. *)
Lemma r2l_resolving_first (p : string) (brks : list string) :
  Forall slot_shape brks →
  resolving_first (s_append_brk r2l p) (s_peek_brk r2l p)
                  (pass_order r2l p brks) = true.
Proof.
  intros Hshape.
  pose proof (pass_order_shape r2l p brks Hshape) as HL.
  pose proof (r2l_order_resolve_first p brks) as Hord.
  set (L := pass_order r2l p brks) in *.
  assert (∀ pre rest, L = pre ++ rest →
            resolving_first (s_append_brk r2l p) (s_peek_brk r2l p) rest
            = true) as Hall; [|by apply (Hall [])].
  intros pre rest. revert pre.
  induction rest as [|x rest IH]; intros pre HLeq; [done|].
  cbn [resolving_first]. apply andb_true_intro. split.
  - destruct (Py.contains (s_append_brk r2l p) x) eqn:Ha; [|done]. simpl.
    apply List.forallb_forall. intros y Hy%list_elem_of_In.
    apply negb_true_iff.
    destruct (Py.contains (s_peek_brk r2l p) y) eqn:Hk; [|done].
    apply list_elem_of_lookup in Hy as [m Hm].
    rewrite Forall_forall in HL.
    assert (x ∈ L) as HxL
      by (rewrite HLeq; apply elem_of_app; right; by left).
    assert (y ∈ L) as HyL.
    { rewrite HLeq. apply elem_of_app. right. right.
      by eapply list_elem_of_lookup_2. }
    change (s_append_brk r2l p) with (String "\" p) in Ha.
    change (s_peek_brk r2l p) with (String "<" p) in Hk.
    apply contains_first_char in Ha as [ra ->]; [|done|by apply HL].
    apply contains_first_char in Hk as [rb ->]; [|done|by apply HL].
    assert (L !! length pre = Some (String "\" ra)) as Hi
      by (rewrite HLeq; by apply list_lookup_middle).
    assert (L !! (length pre + S m)%nat = Some (String "<" rb)) as Hj.
    { rewrite HLeq, lookup_app_r by lia.
      replace (length pre + S m - length pre)%nat with (S m) by lia.
      done. }
    pose proof (Hord _ _ _ _ Hi Hj). lia.
  - apply (IH (pre ++ [x])). by rewrite <- app_assoc.
Qed.

(** On a row whose tokens the pass reads with the resolving tokens
    first, the step of the pass resolves and then pushes. *)
Lemma row_step_resolving (dir : direction) (p : string) (s : pass_state)
    (row : Row) :
  row_resolving_first dir p row = true →
  row_step dir p s row
  = brks ← row_brks row;
    resolve_then_push dir p s row (pass_order dir p brks).
Proof.
  unfold row_resolving_first, row_step, resolve_then_push.
  fold (row_brks row).
  destruct (row_brks row) as [brks|] eqn:Hbrks; [|done]. simpl.
  intros Hfirst.
  destruct (update_word _ _ _) as [t1|]; [|done]. simpl.
  destruct (update_upos _ _ _) as [t2|]; [|done]. simpl.
  destruct (update_relation _ _ _) as [t3|]; [|done]. simpl.
  rewrite steps_resolve_first; [|
    |exact Hfirst].
  - by destruct (Py.for_each (resolve_step _ _) _ _).
  - eapply Forall_impl;
      [apply pass_order_shape, (row_brks_shape row), Hbrks|].
    intros tok. apply marker_exclusive.
Qed.

Lemma row_step_reading (dir : direction) (p : string) (s : pass_state)
    (row : Row) :
  row_step dir p s row
  = brks ← row_brks row;
    read_tokens dir p s row (reading_order dir p brks).
Proof.
  unfold row_step, read_tokens. fold (row_brks row).
  destruct (row_brks row) as [brks|]; [|done]. simpl.
  assert (pass_order dir p brks = reading_order dir p brks) as ->; [|done].
  destruct dir; [done|]. apply r2l_order_split.
Qed.

(** * The planes of a partition obey the bracket discipline *)

Lemma node_at_Some (plane : D_Plane) (i : Z) (nd : D_Node) :
  node_at plane i = Some nd → nd ∈ plane ∧ id nd = i ∧ i ≠ 0.
Proof.
  unfold node_at. intros [Hin Hnd]%List.find_some.
  apply andb_prop in Hnd as [H0 Hi]. apply Z.eqb_eq in Hi. subst i.
  split; [by apply list_elem_of_In|]. split; [done|].
  intros Heq. by rewrite Heq in H0.
Qed.

Lemma node_at_elem (plane : D_Plane) (nd : D_Node) :
  ascending plane → nd ∈ plane → id nd ≠ 0 →
  node_at plane (id nd) = Some nd.
Proof.
  unfold ascending, node_at. intros Hasc Hin Hid.
  induction Hasc as [|x plane Hs IH Hall]; [by apply elem_of_nil in Hin|].
  simpl. apply elem_of_cons in Hin as [->|Hin].
  - rewrite Z.eqb_refl. by destruct (Z.eqb_spec (id x) 0).
  - rewrite Forall_forall in Hall. specialize (Hall nd Hin). simpl in Hall.
    destruct (Z.eqb_spec (id x) (id nd)); [lia|].
    rewrite andb_false_r. by apply IH.
Qed.

Lemma res_of_Some (plane : D_Plane) (dir : direction) (d h : Z)
    (star : bool) :
  res_of plane dir d = Some (h, star) →
  ∃ nd, nd ∈ plane ∧ id nd = d ∧ d ≠ 0 ∧ head nd = Some h
        ∧ is_left_arc d h = pass_left dir
        ∧ star = if is_l2r dir then is_rightmost plane nd
                 else is_leftmost plane nd.
Proof.
  unfold res_of. destruct (node_at plane d) as [nd|] eqn:Hnd; [|done].
  simpl. destruct (head nd) as [h'|] eqn:Hh; [|done]. simpl.
  destruct (Bool.eqb _ _) eqn:Hdir; [|done]. intros [= <- <-].
  apply node_at_Some in Hnd as (Hin & Hid & Hd0).
  exists nd. rewrite Hid in Hdir. by apply Bool.eqb_prop in Hdir.
Qed.

Lemma res_of_elem (plane : D_Plane) (dir : direction) (nd : D_Node)
    (h : Z) :
  ascending plane → nd ∈ plane → id nd ≠ 0 → head nd = Some h →
  is_left_arc (id nd) h = pass_left dir →
  res_of plane dir (id nd)
  = Some (h, if is_l2r dir then is_rightmost plane nd
             else is_leftmost plane nd).
Proof.
  intros Hasc Hin Hid Hh Hdir. unfold res_of.
  rewrite (node_at_elem plane nd Hasc Hin Hid). simpl. rewrite Hh. simpl.
  by rewrite Hdir, Bool.eqb_reflx.
Qed.

Lemma same_group_spec (left : bool) (g : Z) (m : D_Node) :
  same_group left g m = true
  ↔ id m ≠ 0 ∧ head m = Some g ∧ is_left_arc (id m) g = left.
Proof.
  unfold same_group. split.
  - intros [H0 H]%andb_prop. destruct (head m) as [hm|]; [|done].
    apply andb_prop in H as [->%Z.eqb_eq Hl%Bool.eqb_prop].
    split; [|done]. intros Heq. by rewrite Heq in H0.
  - intros (H0 & -> & <-). rewrite Z.eqb_refl, Bool.eqb_reflx.
    by destruct (Z.eqb_spec (id m) 0).
Qed.

(** [g] is pending on [l] exactly when the plane has an arc of the
    direction of the pass from a node of [l] to [g]. *)
Lemma pending_spec (plane : D_Plane) (dir : direction) (l : list Z)
    (g : Z) :
  ascending plane →
  pending (res_of plane dir) l g = true
  ↔ ∃ m, m ∈ plane ∧ id m ∈ l ∧ same_group (pass_left dir) g m = true.
Proof.
  intros Hasc. unfold pending. rewrite List.existsb_exists. split.
  - intros (d & Hd & Hgov). unfold governs in Hgov.
    destruct (res_of plane dir d) as [[h star]|] eqn:Hres; [|done].
    apply Z.eqb_eq in Hgov. subst h.
    apply res_of_Some in Hres as (m & Hm & Hid & Hd0 & Hh & Hdir & _).
    exists m. split; [done|]. subst d.
    split; [by apply list_elem_of_In|]. by apply same_group_spec.
  - intros (m & Hm & Hl & (Hid & Hh & Hdir)%same_group_spec).
    exists (id m). split; [by apply list_elem_of_In|].
    unfold governs. rewrite (res_of_elem plane dir m g) by done.
    apply Z.eqb_refl.
Qed.

Lemma has_dep_spec (left : bool) (plane : D_Plane) (g : Z) :
  has_dep left plane g = true
  ↔ ∃ m, m ∈ plane ∧ same_group left g m = true.
Proof.
  unfold has_dep, is_dep. rewrite List.existsb_exists.
  split; intros (m & Hm & Hg); exists m; split; try done;
    by apply list_elem_of_In.
Qed.

Lemma positions_elem (n : nat) (x : Z) : x ∈ positions n ↔ in_range n x.
Proof.
  unfold positions, in_range. rewrite list_elem_of_In, List.in_map_iff.
  split.
  - intros (i & <- & Hi%List.in_seq). lia.
  - intros Hx. exists (Z.to_nat x). split; [lia|]. apply List.in_seq. lia.
Qed.

Lemma visit_elem (dir : direction) (n : nat) (x : Z) :
  x ∈ visit_order dir n ↔ in_range n x.
Proof.
  rewrite <- positions_elem. destruct dir; simpl; [done|].
  by rewrite !list_elem_of_In, <- List.in_rev.
Qed.

Lemma positions_sorted_from (k n : nat) :
  StronglySorted Z.lt (List.map Z.of_nat (seq k n)).
Proof.
  revert k. induction n as [|n IH]; intros k; simpl; [constructor|].
  constructor; [apply IH|]. apply Forall_forall. intros x Hx.
  apply list_elem_of_In, List.in_map_iff in Hx as (i & <- & Hi%List.in_seq).
  lia.
Qed.

Lemma sorted_rev {A} (R : A → A → Prop) (l : list A) :
  StronglySorted R l → StronglySorted (fun x y => R y x) (List.rev l).
Proof.
  induction 1 as [|x l Hs IH Hall]; simpl; [constructor|].
  apply StronglySorted_app. split; [|split; [done|by repeat constructor]].
  intros x1 x2 Hx1 ->%list_elem_of_singleton.
  rewrite Forall_forall in Hall. apply Hall.
  by apply list_elem_of_In, List.in_rev, list_elem_of_In.
Qed.

Lemma visit_sorted (dir : direction) (n : nat) :
  StronglySorted (before dir) (visit_order dir n).
Proof.
  destruct dir; simpl.
  - apply positions_sorted_from.
  - apply (sorted_rev Z.lt), positions_sorted_from.
Qed.

Lemma before_irrefl (dir : direction) (x : Z) : ¬ before dir x x.
Proof. unfold before. destruct dir; simpl; lia. Qed.

Lemma before_asym (dir : direction) (x y : Z) :
  before dir x y → ¬ before dir y x.
Proof. unfold before. destruct dir; simpl; lia. Qed.

Lemma sorted_NoDup (dir : direction) (l : list Z) :
  StronglySorted (before dir) l → NoDup l.
Proof.
  induction 1 as [|x l Hs IH Hall]; constructor; [|done].
  intros Hx. rewrite Forall_forall in Hall.
  by apply (before_irrefl dir x), Hall.
Qed.

(** In a split of the visiting order, the nodes visited before [d] and
    those visited after it. *)
Lemma visit_split (dir : direction) (n : nat) (l1 l2 : list Z) (d : Z) :
  visit_order dir n = l1 ++ d :: l2 →
  (∀ x, x ∈ l1 ↔ in_range n x ∧ before dir x d)
  ∧ (∀ x, x ∈ l2 ↔ in_range n x ∧ before dir d x).
Proof.
  intros Hvs. pose proof (visit_sorted dir n) as Hs. rewrite Hvs in Hs.
  apply StronglySorted_app in Hs as (H12 & Hs1 & Hs2).
  apply StronglySorted_cons in Hs2 as [Hd2 Hs2].
  rewrite Forall_forall in Hd2.
  assert (∀ x, in_range n x ↔ x ∈ l1 ∨ x = d ∨ x ∈ l2) as Hall.
  { intros x. rewrite <- (visit_elem dir), Hvs, elem_of_app, elem_of_cons.
    done. }
  split; intros x; split.
  - intros Hx. split; [apply Hall; by left|]. apply H12; [done|by left].
  - intros [Hr Hb]. apply Hall in Hr as [Hx|[->|Hx]]; [done| |].
    + by apply before_irrefl in Hb.
    + apply before_asym in Hb. destruct Hb. by apply Hd2.
  - intros Hx. split; [apply Hall; by right; right|]. by apply Hd2.
  - intros [Hr Hb]. apply Hall in Hr as [Hx|[->|Hx]]; [| |done].
    + apply before_asym in Hb. destruct Hb. apply H12; [done|by left].
    + by apply before_irrefl in Hb.
Qed.

(** In an arc resolved by the pass the governor is visited before the
    dependent. *)
Lemma arc_before (n : nat) (dir : direction) (g : Z) (m : D_Node) :
  arc_ok n m → same_group (pass_left dir) g m = true →
  in_range n (id m) ∧ in_range n g ∧ before dir g (id m).
Proof.
  intros Harc (Hid & Hh & Hdir)%same_group_spec.
  destruct (Harc Hid) as (h & Hh' & Hrid & Hrh & Hne).
  rewrite Hh in Hh'. injection Hh' as <-.
  split; [done|]. split; [done|].
  unfold before, is_left_arc, pass_left in *.
  destruct dir; simpl in *.
  - apply Z.ltb_ge in Hdir. lia.
  - by apply Z.ltb_lt in Hdir.
Qed.

(** Two arcs of the pass that interleave in the visiting order cross. *)
Lemma interleaved_cross (dir : direction) (nd m : D_Node) (h g : Z) :
  head nd = Some h → head m = Some g →
  before dir h g → before dir g (id nd) → before dir (id nd) (id m) →
  arcs_cross nd m = true.
Proof.
  intros Hh Hg. unfold arcs_cross, spans_cross, before.
  rewrite Hh, Hg. destruct dir; simpl; intros H1 H2 H3.
  - apply orb_true_iff. left. apply andb_true_iff. split.
    + apply andb_true_iff. split; apply Z.ltb_lt; lia.
    + apply orb_true_iff. right. apply Z.ltb_lt. lia.
  - apply orb_true_iff. right. apply andb_true_iff. split.
    + apply andb_true_iff. split; apply Z.ltb_lt; lia.
    + apply orb_true_iff. left. apply Z.ltb_lt. lia.
Qed.

Lemma flag_spec (plane : D_Plane) (dir : direction) (nd : D_Node) (h : Z) :
  head nd = Some h → is_left_arc (id nd) h = pass_left dir →
  (if is_l2r dir then is_rightmost plane nd else is_leftmost plane nd)
  = forallb (fun m => implb (same_group (pass_left dir) h m)
                            (if is_l2r dir then id m <=? id nd
                             else id nd <=? id m)) plane.
Proof.
  intros Hh Hdir. unfold is_rightmost, is_leftmost. rewrite Hh, Hdir.
  by destruct dir.
Qed.

(** The arcs of a crossing-free plane listed in ascending order obey
    the bracket discipline in both directions. *)
Lemma plane_disciplined (plane : D_Plane) (dir : direction) (n : nat) :
  ascending plane → Forall (arc_ok n) plane → crossing_free plane →
  disciplined (res_of plane dir) (psh_of plane dir) (visit_order dir n).
Proof.
  intros Hasc Harc Hfree l1 d l2 Hvs.
  destruct (visit_split dir n l1 l2 d Hvs) as [Hl1 Hl2].
  rewrite Forall_forall in Harc.
  split.
  - (* pushed exactly when it governs a later node *)
    unfold psh_of. apply Bool.eq_iff_eq_true.
    rewrite has_dep_spec, pending_spec by done.
    split.
    + intros (m & Hm & Hg). exists m. split; [done|]. split; [|done].
      apply Hl2.
      destruct (arc_before n dir d m (Harc m Hm) Hg) as (? & _ & ?).
      done.
    + intros (m & Hm & _ & Hg). by exists m.
  - intros h star Hres.
    apply res_of_Some in Hres as (nd & Hnd & Hid & Hd0 & Hh & Hdir & ->).
    assert (same_group (pass_left dir) h nd = true) as Hgrp
      by (apply same_group_spec; by rewrite Hid).
    destruct (arc_before n dir h nd (Harc nd Hnd) Hgrp) as (_ & Hrh & Hbef).
    rewrite Hid in Hbef. split.
    + (* starred exactly when no later node names the same governor *)
      rewrite (flag_spec plane dir nd h) by (by rewrite ?Hid).
      apply Bool.eq_iff_eq_true.
      rewrite negb_true_iff, <- not_true_iff_false, pending_spec by done.
      rewrite List.forallb_forall. split.
      * intros Hall (m & Hm & Hml2 & Hg).
        apply Hl2 in Hml2 as [_ Hafter].
        specialize (Hall m (proj1 (list_elem_of_In _ _) Hm)).
        rewrite Hg, Hid in Hall. simpl in Hall.
        unfold before in Hafter. destruct dir; simpl in *;
          apply Z.leb_le in Hall; lia.
      * intros Hno m Hm%list_elem_of_In.
        destruct (same_group (pass_left dir) h m) eqn:Hg; [|done]. simpl.
        destruct (arc_before n dir h m (Harc m Hm) Hg) as (Hrm & _ & _).
        rewrite Hid.
        assert (before dir d (id m) ∨ ¬ before dir d (id m))
          as [Hafter|Hnot] by (unfold before; destruct dir; simpl; lia).
        { destruct Hno. exists m. split; [done|]. split; [|done].
          by apply Hl2. }
        { unfold before in Hnot. destruct dir; simpl in *;
            apply Z.leb_le; lia. }
    + (* its governor was visited, and nothing visited since governs a
         later node *)
      assert (h ∈ l1) as Hhl1 by (by apply Hl1).
      apply list_elem_of_split in Hhl1 as (a & b & ->).
      exists a, b. split; [done|].
      apply Forall_forall. intros g Hgb.
      apply not_true_iff_false. rewrite pending_spec by done.
      intros (m & Hm & Hml2 & Hg).
      assert (before dir h g) as Hhg.
      { pose proof (visit_sorted dir n) as Hs. rewrite Hvs in Hs.
        apply StronglySorted_app_1_l, StronglySorted_app_1_r in Hs.
        apply StronglySorted_cons in Hs as [Hs _].
        rewrite Forall_forall in Hs. by apply Hs. }
      assert (before dir g d) as Hgd.
      { apply Hl1. apply elem_of_app. right. by right. }
      apply Hl2 in Hml2 as [_ Hdm].
      apply same_group_spec in Hg as (_ & Hmh & _).
      assert (arcs_cross nd m = true) as Hcross
        by (apply (interleaved_cross dir nd m h g); by rewrite ?Hid).
      by rewrite (Hfree nd m Hnd Hm) in Hcross.
Qed.

(** * Decoding the rows written by [encode] *)

Lemma map_lookup {A B} (f : A → B) (l : list A) (i : nat) :
  List.map f l !! i = f <$> l !! i.
Proof.
  revert i. induction l as [|x l IH]; intros [|i]; simpl; done.
Qed.

(** Along nodes whose ids the cursor follows, a pass over the encoded
    rows is a run of the stack machine of its plane. *)
Lemma heads_run_encoded (dir : direction) (p : string)
    (planes : D_Plane * D_Plane) (nodes : list D_Node) :
  plane_digit p → ascending planes.1 → ascending planes.2 →
  ∀ (cur : Z) (stack : list Z),
    follows dir cur nodes →
    heads_run dir p cur (List.map (encoded_row planes) nodes) stack
    = m_run (res_of (plane_of planes p) dir)
            (psh_of (plane_of planes p) dir) (List.map id nodes) stack.
Proof.
  intros Hp H1 H2. induction nodes as [|nd nodes IH]; intros cur stack;
    [done|].
  intros [<- Hrest]. cbn [List.map heads_run m_run].
  rewrite row_heads_encoded by done.
  destruct (m_step _ _ _ _) as [r|]; [|done]. simpl.
  by rewrite IH.
Qed.

Lemma follows_l2r (t : D_Tree) :
  ∀ k : nat,
    (∀ i nd, t !! i = Some nd → id nd = Z.of_nat (k + i)) →
    follows l2r (Z.of_nat k) t.
Proof.
  induction t as [|x t IH]; intros k Hid; [done|]. split.
  - rewrite (Hid 0%nat x eq_refl). f_equal. lia.
  - unfold next_node. simpl.
    replace (Z.of_nat k + 1) with (Z.of_nat (S k)) by lia.
    apply IH. intros i nd Hi. rewrite (Hid (S i) nd Hi). f_equal. lia.
Qed.

Lemma follows_r2l (t : D_Tree) :
  dense_ids t → follows r2l (Z.of_nat (length t) - 1) (List.rev t).
Proof.
  induction t as [|x t IH] using rev_ind; intros Hd; [done|].
  rewrite List.rev_unit, length_app. simpl. split.
  - rewrite (Hd (length t) x) by apply list_lookup_middle, eq_refl. lia.
  - unfold next_node. simpl.
    replace (Z.of_nat (length t + 1) - 1 - 1)
      with (Z.of_nat (length t) - 1) by lia.
    apply IH. intros i nd Hi. apply Hd. by apply lookup_app_l_Some.
Qed.

Lemma ids_from (t : D_Tree) :
  ∀ k : nat,
    (∀ i nd, t !! i = Some nd → id nd = Z.of_nat (k + i)) →
    List.map id t = List.map Z.of_nat (seq k (length t)).
Proof.
  induction t as [|x t IH]; intros k Hid; [done|]. simpl. f_equal.
  - rewrite (Hid 0%nat x eq_refl). f_equal. lia.
  - apply IH. intros i nd Hi. rewrite (Hid (S i) nd Hi). f_equal. lia.
Qed.

Lemma dense_ids_positions (t : D_Tree) :
  dense_ids t → List.map id t = positions (length t).
Proof. intros Hd. by apply (ids_from t 0). Qed.

(** A pass over the encoded rows assigns to each node the governor of
    its arc, when the arc lies in the plane of the pass and points in
    its direction, and nothing otherwise. *)
Lemma pass_heads_encoded (dir : direction) (p : string)
    (planes : D_Plane * D_Plane) (t : D_Tree) :
  plane_digit p → dense_ids t →
  ascending planes.1 → ascending planes.2 →
  Forall (arc_ok (length t)) (plane_of planes p) →
  crossing_free (plane_of planes p) →
  pass_heads (List.map (encoded_row planes) t) p dir
  = Some (List.map (fun nd => fst <$> res_of (plane_of planes p) dir (id nd))
                   t).
Proof.
  intros Hp Hd H1 H2 Harc Hfree.
  assert (ascending (plane_of planes p)) as Hasc
    by (unfold plane_of; by destruct (String.eqb p "0")).
  pose proof (m_run_disciplined
                (res_of (plane_of planes p) dir)
                (psh_of (plane_of planes p) dir)
                (visit_order dir (length t))
                (sorted_NoDup dir _ (visit_sorted dir (length t)))
                (plane_disciplined _ dir _ Hasc Harc Hfree)
                (visit_order dir (length t)) [] eq_refl) as Hrun.
  simpl in Hrun. unfold pass_heads. destruct dir.
  - rewrite (heads_run_encoded l2r p planes t Hp H1 H2 0 [])
      by apply (follows_l2r t 0), Hd.
    rewrite (dense_ids_positions t Hd).
    simpl in Hrun. rewrite Hrun. simpl.
    by rewrite <- (dense_ids_positions t Hd), List.map_map.
  - rewrite length_map, <- List.map_rev.
    rewrite (heads_run_encoded r2l p planes (List.rev t) Hp H1 H2 _ [])
      by apply follows_r2l, Hd.
    rewrite List.map_rev, (dense_ids_positions t Hd).
    simpl in Hrun. rewrite Hrun. simpl.
    by rewrite <- List.map_rev, List.rev_involutive,
         <- (dense_ids_positions t Hd), List.map_map.
Qed.

Lemma apply_heads_lookup (rows : list Row) :
  ∀ (heads : list (option Z)) (t : D_Tree) (i : nat) (row : Row)
    (oh : option Z) (nd : D_Node),
    rows !! i = Some row → heads !! i = Some oh → t !! i = Some nd →
    apply_heads rows heads t !! i = Some (decoded_node row oh nd).
Proof.
  induction rows as [|row' rows IH]; intros [|oh' heads] [|nd' t] [|i];
    simpl; try done.
  - by intros row oh nd [= ->] [= ->] [= ->].
  - apply IH.
Qed.

Lemma empty_tree_lookup (n i : nat) :
  (i < n)%nat → empty_tree n !! i = Some (empty_node (Z.of_nat i)).
Proof.
  intros Hi. unfold empty_tree. rewrite map_lookup.
  by rewrite lookup_seq_lt.
Qed.

(** Two nodes of a tree with dense ids that share an id are the same
    node. *)
Lemma dense_ids_inj (t : D_Tree) (a b : D_Node) :
  dense_ids t → a ∈ t → b ∈ t → id a = id b → a = b.
Proof.
  intros Hd [i Hi]%list_elem_of_lookup [j Hj]%list_elem_of_lookup Hid.
  rewrite (Hd i a Hi), (Hd j b Hj) in Hid.
  assert (i = j) as -> by lia. congruence.
Qed.

(** What a pass resolves at a node of the tree is the head of the
    node. *)
Lemma res_of_head (t : D_Tree) (plane : D_Plane) (dir : direction)
    (nd : D_Node) (h : Z) :
  dense_ids t → sublist plane t → nd ∈ t →
  fst <$> res_of plane dir (id nd) = Some h → head nd = Some h.
Proof.
  intros Hd Hsub Hnd Hres.
  destruct (res_of plane dir (id nd)) as [[h' star]|] eqn:Hr; [|done].
  injection Hres as ->.
  apply res_of_Some in Hr as (nd' & Hin & Hid & _ & Hh & _).
  assert (nd' = nd) as <-; [|done].
  apply (dense_ids_inj t); try done. by eapply elem_of_sublist.
Qed.

(** A node of a plane is resolved by one of the two passes of the
    plane. *)
Lemma res_of_cover (plane : D_Plane) (nd : D_Node) (h : Z) :
  ascending plane → nd ∈ plane → id nd ≠ 0 → head nd = Some h →
  fst <$> res_of plane l2r (id nd) = Some h
  ∨ fst <$> res_of plane r2l (id nd) = Some h.
Proof.
  intros Hasc Hin Hid Hh.
  destruct (is_left_arc (id nd) h) eqn:Hdir.
  - right. by rewrite (res_of_elem plane r2l nd h).
  - left. by rewrite (res_of_elem plane l2r nd h).
Qed.

Lemma res_of_sentinel (plane : D_Plane) (dir : direction) :
  res_of plane dir 0 = None.
Proof.
  destruct (res_of plane dir 0) as [[h star]|] eqn:Hr; [|done].
  by apply res_of_Some in Hr as (nd & _ & _ & ? & _).
Qed.

Lemma decoded_node_fields (row : Row) (oh : option Z) (nd : D_Node) :
  id (decoded_node row oh nd) = id nd
  ∧ word (decoded_node row oh nd) = r_word row
  ∧ upos (decoded_node row oh nd) = r_postag row
  ∧ relation (decoded_node row oh nd) = li (r_label row)
  ∧ head (decoded_node row oh nd)
    = match oh with Some h => Some h | None => head nd end.
Proof. by destruct oh. Qed.

(** Decoding the rows of a tree encoded with a two-plane partition
    returns a tree of the same length; position by position the id, the
    word, the tag and the relation are those of the tree, every node
    other than the sentinel has its head back, and the head of the
    sentinel stays unset. *)
Lemma decode_encoded (planes : D_Plane * D_Plane) (t : D_Tree) :
  well_formed t → two_plane_partition t planes →
  ∃ t', decode (List.map (encoded_row planes) t) = Some t'
        ∧ length t' = length t
        ∧ ∀ (i : nat) (nd : D_Node),
            t !! i = Some nd →
            ∃ nd', t' !! i = Some nd'
                   ∧ id nd' = id nd ∧ word nd' = word nd
                   ∧ upos nd' = upos nd ∧ relation nd' = relation nd
                   ∧ (id nd ≠ 0 → head nd' = head nd)
                   ∧ (id nd = 0 → head nd' = None).
Proof.
  intros [Hd Harcs] (Hs1 & Hs2 & Hf1 & Hf2 & Hcov).
  assert (ascending planes.1) as Ha1
    by (eapply sublist_ascending; [exact Hs1|by apply dense_ids_ascending]).
  assert (ascending planes.2) as Ha2
    by (eapply sublist_ascending; [exact Hs2|by apply dense_ids_ascending]).
  assert (Forall (arc_ok (length t)) planes.1) as Hok1
    by (by eapply sublist_Forall).
  assert (Forall (arc_ok (length t)) planes.2) as Hok2
    by (by eapply sublist_Forall).
  rewrite decode_heads.
  rewrite (pass_heads_encoded l2r "0" planes t), (pass_heads_encoded r2l "0" planes t),
    (pass_heads_encoded l2r "1" planes t), (pass_heads_encoded r2l "1" planes t);
    try done; try (by left); try (by right).
  change (plane_of planes "0") with planes.1.
  change (plane_of planes "1") with planes.2.
  set (lt := List.map (encoded_row planes) t).
  set (h1 := List.map (fun nd => fst <$> res_of planes.1 l2r (id nd)) t).
  set (h2 := List.map (fun nd => fst <$> res_of planes.1 r2l (id nd)) t).
  set (h3 := List.map (fun nd => fst <$> res_of planes.2 l2r (id nd)) t).
  set (h4 := List.map (fun nd => fst <$> res_of planes.2 r2l (id nd)) t).
  set (t0 := empty_tree (length lt)).
  set (t1 := apply_heads lt h1 t0).
  set (t2 := apply_heads lt h2 t1).
  set (t3 := apply_heads lt h3 t2).
  exists (apply_heads lt h4 t3). split; [done|].
  assert (length lt = length t) as Hlt by apply length_map.
  assert (length t0 = length lt) as Hl0 by apply empty_tree_length.
  assert (length t1 = length lt) as Hl1
    by (apply apply_heads_length;
        [unfold h1, lt; by rewrite !length_map|done]).
  assert (length t2 = length lt) as Hl2
    by (apply apply_heads_length;
        [unfold h2, lt; by rewrite !length_map|done]).
  assert (length t3 = length lt) as Hl3
    by (apply apply_heads_length;
        [unfold h3, lt; by rewrite !length_map|done]).
  split.
  { rewrite apply_heads_length;
      [done|unfold h4, lt; by rewrite !length_map|done]. }
  intros i nd Hi.
  pose proof (lookup_lt_Some _ _ _ Hi) as Hlen.
  assert (nd ∈ t) as Hnd by (by eapply list_elem_of_lookup_2).
  assert (lt !! i = Some (encoded_row planes nd)) as Hrow
    by (unfold lt; by rewrite map_lookup, Hi).
  assert (t0 !! i = Some (empty_node (Z.of_nat i))) as H0
    by (apply empty_tree_lookup; lia).
  pose proof (apply_heads_lookup lt h1 t0 i _ _ _ Hrow
                ltac:(unfold h1; by rewrite map_lookup, Hi) H0) as Ht1.
  pose proof (apply_heads_lookup lt h2 t1 i _ _ _ Hrow
                ltac:(unfold h2; by rewrite map_lookup, Hi) Ht1) as Ht2.
  pose proof (apply_heads_lookup lt h3 t2 i _ _ _ Hrow
                ltac:(unfold h3; by rewrite map_lookup, Hi) Ht2) as Ht3.
  pose proof (apply_heads_lookup lt h4 t3 i _ _ _ Hrow
                ltac:(unfold h4; by rewrite map_lookup, Hi) Ht3) as Ht4.
  eexists. split; [exact Ht4|].
  set (o1 := fst <$> res_of planes.1 l2r (id nd)) in *.
  set (o2 := fst <$> res_of planes.1 r2l (id nd)) in *.
  set (o3 := fst <$> res_of planes.2 l2r (id nd)) in *.
  set (o4 := fst <$> res_of planes.2 r2l (id nd)) in *.
  destruct (decoded_node_fields (encoded_row planes nd) o4
              (decoded_node (encoded_row planes nd) o3
                 (decoded_node (encoded_row planes nd) o2
                    (decoded_node (encoded_row planes nd) o1
                       (empty_node (Z.of_nat i))))))
    as (-> & -> & -> & -> & ->).
  destruct (decoded_node_fields (encoded_row planes nd) o3
              (decoded_node (encoded_row planes nd) o2
                 (decoded_node (encoded_row planes nd) o1
                    (empty_node (Z.of_nat i)))))
    as (-> & _ & _ & _ & ->).
  destruct (decoded_node_fields (encoded_row planes nd) o2
              (decoded_node (encoded_row planes nd) o1
                 (empty_node (Z.of_nat i))))
    as (-> & _ & _ & _ & ->).
  destruct (decoded_node_fields (encoded_row planes nd) o1
              (empty_node (Z.of_nat i)))
    as (-> & _ & _ & _ & ->).
  split; [by rewrite (Hd i nd Hi)|].
  do 3 (split; [done|]).
  split.
  - intros Hid.
    rewrite Forall_forall in Harcs.
    destruct (Harcs nd Hnd Hid) as (h & Hh & _).
    assert (∀ plane dir, sublist plane t →
              fst <$> res_of plane dir (id nd) = None
              ∨ fst <$> res_of plane dir (id nd) = Some h) as Hone.
    { intros plane dir Hsub.
      destruct (fst <$> res_of plane dir (id nd)) as [h'|] eqn:Hr;
        [|by left].
      right. apply (res_of_head t) in Hr; [|done..]. congruence. }
    assert (o1 = Some h ∨ o2 = Some h ∨ o3 = Some h ∨ o4 = Some h) as Hsome.
    { destruct (Hcov nd Hnd Hid) as [Hin|Hin].
      - destruct (res_of_cover planes.1 nd h Ha1 Hin Hid Hh); auto.
      - destruct (res_of_cover planes.2 nd h Ha2 Hin Hid Hh); auto. }
    rewrite Hh.
    destruct (Hone planes.1 l2r Hs1) as [E1|E1];
      destruct (Hone planes.1 r2l Hs1) as [E2|E2];
      destruct (Hone planes.2 l2r Hs2) as [E3|E3];
      destruct (Hone planes.2 r2l Hs2) as [E4|E4];
      fold o1 in E1; fold o2 in E2; fold o3 in E3; fold o4 in E4;
      rewrite ?E1, ?E2, ?E3, ?E4 in *; try done.
    destruct Hsome as [?|[?|[?|?]]]; done.
  - intros Hid. unfold o1, o2, o3, o4.
    by rewrite Hid, !res_of_sentinel.
Qed.

(** * The greedy partition *)

Lemma arcs_cross_sym (a b : D_Node) : arcs_cross a b = arcs_cross b a.
Proof.
  unfold arcs_cross, spans_cross.
  destruct (head a) as [ha|], (head b) as [hb|]; try done.
  apply Bool.eq_iff_eq_true.
  rewrite !orb_true_iff, !andb_true_iff, !orb_true_iff, !Z.ltb_lt. lia.
Qed.

Lemma arcs_cross_self (a : D_Node) : arcs_cross a a = false.
Proof.
  unfold arcs_cross, spans_cross. destruct (head a) as [ha|]; [|done].
  apply not_true_iff_false.
  rewrite !orb_true_iff, !andb_true_iff, !orb_true_iff, !Z.ltb_lt. lia.
Qed.

Lemma crossing_free_snoc (plane : D_Plane) (a : D_Node) :
  crossing_free plane → fits plane a = true → crossing_free (plane ++ [a]).
Proof.
  unfold fits. rewrite List.forallb_forall. intros Hfree Hfits x y Hx Hy.
  assert (∀ b, b ∈ plane → arcs_cross a b = false) as Ha.
  { intros b Hb%list_elem_of_In. by apply negb_true_iff, Hfits. }
  apply elem_of_app in Hx as [Hx|Hx]; apply elem_of_app in Hy as [Hy|Hy];
    try (apply list_elem_of_singleton in Hx as ->);
    try (apply list_elem_of_singleton in Hy as ->).
  - by apply Hfree.
  - rewrite arcs_cross_sym. by apply Ha.
  - by apply Ha.
  - apply arcs_cross_self.
Qed.

Lemma crossing_free_nil : crossing_free [].
Proof. intros a b Ha. by apply elem_of_nil in Ha. Qed.

(** While it runs through the tree the greedy policy keeps two
    crossing-free planes that list nodes already seen, in their
    order. *)
Lemma greedy_place_planes (t : D_Tree) :
  ∀ (planes : D_Plane * D_Plane) (seen : D_Tree),
    sublist planes.1 seen → sublist planes.2 seen →
    crossing_free planes.1 → crossing_free planes.2 →
    let planes' := List.fold_left greedy_place t planes in
    sublist planes'.1 (seen ++ t) ∧ sublist planes'.2 (seen ++ t)
    ∧ crossing_free planes'.1 ∧ crossing_free planes'.2.
Proof.
  induction t as [|a t IH]; intros planes seen Hs1 Hs2 Hf1 Hf2.
  - simpl. by rewrite app_nil_r.
  - cbn [List.fold_left].
    replace (seen ++ a :: t) with ((seen ++ [a]) ++ t)
      by (by rewrite <- app_assoc).
    apply IH; unfold greedy_place;
      destruct (id a =? 0); try (by apply sublist_inserts_r);
      try done;
      destruct (fits planes.1 a) eqn:Hfit1; simpl;
      try (by apply sublist_inserts_r);
      try (by apply sublist_app);
      try (by apply crossing_free_snoc); try done;
      destruct (fits planes.2 a) eqn:Hfit2; simpl;
      try (by apply sublist_inserts_r);
      try (by apply sublist_app);
      try (by apply crossing_free_snoc); done.
Qed.

(** When it leaves no arc out, the greedy policy meets the contract of
    the partitioner. *)
Lemma greedy_partition (t : D_Tree) :
  (∀ nd, nd ∈ t → id nd ≠ 0 →
         nd ∈ (two_planar_greedy t).1 ∨ nd ∈ (two_planar_greedy t).2) →
  two_plane_partition t (two_planar_greedy t).
Proof.
  intros Hcov.
  destruct (greedy_place_planes t ([], []) [])
    as (Hs1 & Hs2 & Hf1 & Hf2);
    try done; try apply crossing_free_nil.
Qed.

Lemma crossing_tree_well_formed : well_formed crossing_tree.
Proof.
  split.
  - intros [|[|[|[|[|i]]]]] nd; simpl; try done; by intros [= <-].
  - unfold crossing_tree.
    repeat (apply Forall_cons; split); try (by apply Forall_nil);
      intros Hid; try done; eexists; unfold in_range; simpl;
      (split; [reflexivity|]); lia.
Qed.

Lemma crossing_tree_partition :
  two_plane_partition crossing_tree (two_planar_greedy crossing_tree).
Proof.
  apply greedy_partition. intros nd Hnd Hid.
  change (two_planar_greedy crossing_tree)
    with ([node_of 1 (Some 3); node_of 3 (Some 0); node_of 4 (Some 3)],
          [node_of 2 (Some 4)]).
  unfold crossing_tree in Hnd. simpl.
  repeat (apply elem_of_cons in Hnd as [->|Hnd]);
    try (by apply elem_of_nil in Hnd); try done.
  - left. apply elem_of_cons. by left.
  - right. apply elem_of_cons. by left.
  - left. apply elem_of_cons. right. apply elem_of_cons. by left.
  - left. do 2 (apply elem_of_cons; right). apply elem_of_cons. by left.
Qed.

(** * Bracket token merge *)

(** C7, as stated, fails: on the raw characters [/], [0], [1] a second
    merge fuses the stray [1] that the first one left as a token of its
    own, so merging twice differs from merging once. *)
Lemma C7_merge_not_idempotent :
  (_merge_brackets (Py.chars "/01") ≫= _merge_brackets)
  ≠ _merge_brackets (Py.chars "/01").
Proof. vm_compute. discriminate. Qed.

(** C7 (amended): for every raw character sequence on which the merge
    returns, (order) the merged tokens that start with a boundary
    character start with exactly the boundary characters of the
    sequence, one token for each, in the same order; (idempotence)
    merging the result again gives the same token sequence exactly when
    no merged token is a bare plane digit or the bare [*]; and a
    sequence that spells well-formed tokens (a boundary character
    alone, or followed by one plane digit, or by one plane digit and
    [*]) is merged into exactly those tokens, none of which is bare. *)
Theorem C7_merge_order_and_fixpoint (s : string) (toks : list string) :
  _merge_brackets (Py.chars s) = Some toks →
  List.map first_char (List.filter starts_boundary toks)
  = List.filter starts_boundary (Py.chars s)
  ∧ ((_merge_brackets (Py.chars s) ≫= _merge_brackets)
     = _merge_brackets (Py.chars s)
     ↔ Forall (fun tok => plain tok = true) toks)
  ∧ ∀ toks', Forall (fun tok => bracket_token tok = true) toks' →
             s = join toks' →
             toks = toks' ∧ Forall (fun tok => plain tok = true) toks.
Proof.
  intros Hm. split; [by apply merge_boundaries|]. split.
  - rewrite Hm. simpl. split.
    + apply merge_fixed_plain.
    + intros Hplain. apply merge_plain_fixed; [done|].
      by eapply merge_nonempty.
  - intros toks' Htoks' ->.
    rewrite (merge_of_tokens toks' Htoks') in Hm. injection Hm as <-.
    split; [done|].
    eapply Forall_impl; [exact Htoks'|]. apply bracket_token_plain.
Qed.

Lemma C7_merge_order_and_fixpoint_witness :
  List.map first_char
           (List.filter starts_boundary ["\0"; ">0*"; "/0"; "<"; "a1"])
  = List.filter starts_boundary (Py.chars "1\0>0*/0<a")
  ∧ ((_merge_brackets (Py.chars "1\0>0*/0<a") ≫= _merge_brackets)
     = _merge_brackets (Py.chars "1\0>0*/0<a")
     ↔ Forall (fun tok => plain tok = true)
              ["\0"; ">0*"; "/0"; "<"; "a1"])
  ∧ ∀ toks', Forall (fun tok => bracket_token tok = true) toks' →
             "1\0>0*/0<a" = join toks' →
             ["\0"; ">0*"; "/0"; "<"; "a1"] = toks'
             ∧ Forall (fun tok => plain tok = true)
                      ["\0"; ">0*"; "/0"; "<"; "a1"].
Proof.
  apply (C7_merge_order_and_fixpoint "1\0>0*/0<a"). reflexivity.
Defined.

(** * Reading order of the two directions *)

(** C10: every pass does, row after row, what reading the merged tokens
    of the row in the following order does: a right-to-left pass for
    plane [p] reads them reordered, first every token other than the
    bare opening marker [\p] in ascending lexicographic order, then the
    bare [\p] tokens; a left-to-right pass reads them in the order of
    the fragment.  (The first part of the right-to-left order is a
    permutation of those tokens, in ascending order.) *)
Theorem C10_pass_reading_order (lt : LinearizedTree) (t : D_Tree)
    (p : string) (dir : direction) :
  _decoding_step lt t p dir = reading_pass lt t p dir
  ∧ (∀ toks, pass_order dir p toks = reading_order dir p toks)
  ∧ (∀ toks,
       let others := List.filter (fun x => negb (is_bare p x)) toks in
       sort_strings others ≡ₚ others
       ∧ StronglySorted (fun a b => String.leb a b = true)
                        (sort_strings others)).
Proof.
  split; [|split].
  - unfold _decoding_step, reading_pass.
    by rewrite (for_each_ext (row_step dir p) _ _ (row_step_reading dir p)).
  - intros toks. destruct dir; [done|]. apply r2l_order_split.
  - intros toks others. split; [apply sort_by_perm|].
    apply (sort_by_sorted (fun x : string => x) String.leb).
    + apply String.leb_total.
    + apply string_leb_trans.
Qed.

(** * What [decode] returns *)

Lemma decode_run_passes (lt : LinearizedTree) :
  decode lt = run_passes decode_passes lt (empty_tree (length lt)).
Proof.
  unfold decode, run_passes. simpl.
  destruct (_decoding_step lt _ "0" l2r) as [t1|]; [|done]. simpl.
  destruct (_decoding_step lt t1 "0" r2l) as [t2|]; [|done]. simpl.
  destruct (_decoding_step lt t2 "1" l2r) as [t3|]; [|done]. simpl.
  by destruct (_decoding_step lt t3 "1" r2l) as [t4|].
Qed.

Lemma apply_heads_ids (rows : list Row) :
  ∀ (heads : list (option Z)) (t : D_Tree),
    length heads = length rows → length t = length rows →
    List.map id (apply_heads rows heads t) = List.map id t.
Proof.
  induction rows as [|row rows IH]; intros [|oh heads] [|nd t];
    simpl; try done.
  intros [= Hh] [= Ht]. f_equal; [by destruct oh|]. by apply IH.
Qed.

Lemma empty_tree_ids (n : nat) :
  List.map id (empty_tree n) = List.map Z.of_nat (seq 0 n).
Proof. unfold empty_tree. rewrite List.map_map. done. Qed.

(** The tree returned by [decode] has one node per row, with the ids
    of the empty tree. *)
Lemma decode_shape (lt : LinearizedTree) (t : D_Tree) :
  decode lt = Some t →
  length t = length lt
  ∧ List.map id t = List.map Z.of_nat (seq 0 (length lt)).
Proof.
  intros Hdec.
  rewrite decode_heads in Hdec.
  destruct (pass_heads lt "0" l2r) as [h1|] eqn:H1; [|done].
  destruct (pass_heads lt "0" r2l) as [h2|] eqn:H2; [|done].
  destruct (pass_heads lt "1" l2r) as [h3|] eqn:H3; [|done].
  destruct (pass_heads lt "1" r2l) as [h4|] eqn:H4; [|done].
  apply pass_heads_length in H1, H2, H3, H4.
  simpl in Hdec. injection Hdec as <-.
  pose proof (empty_tree_length (length lt)) as H0.
  pose proof (apply_heads_length lt h1 _ H1 H0) as L1.
  pose proof (apply_heads_length lt h2 _ H2 L1) as L2.
  pose proof (apply_heads_length lt h3 _ H3 L2) as L3.
  split; [by apply apply_heads_length|].
  rewrite !apply_heads_ids by done. apply empty_tree_ids.
Qed.

(** C2, as stated, fails: the tree returned for the two rows [/0] and
    [>0*] still has two nodes, the first of which is the sentinel with
    id 0; it is not the tree of the four passes with its sentinel
    removed. *)
Lemma C2_sentinel_not_discarded :
  let lt := List.map row_of ["/0"; ">0*"] in
  decode lt
  ≠ (remove_dummy <$> run_passes decode_passes lt (empty_tree (length lt)))
  ∧ (List.map id <$> decode lt) = Some [0; 1]
  ∧ heads_of (decode lt) = Some [None; Some 0].
Proof. vm_compute. repeat split; discriminate. Qed.

(** C2 (amended): [decode] returns the tree exactly as the four passes
    (plane 0 l2r, plane 0 r2l, plane 1 l2r, plane 1 r2l) leave it,
    without discarding anything: it has one node per row, with ids
    [0 .. n-1], the node at position 0 included. *)
Theorem C2_decode_keeps_all_nodes (lt : LinearizedTree) (t : D_Tree) :
  decode lt = Some t →
  run_passes decode_passes lt (empty_tree (length lt)) = Some t
  ∧ length t = length lt
  ∧ List.map id t = List.map Z.of_nat (seq 0 (length lt)).
Proof.
  intros Hdec. split; [by rewrite <- decode_run_passes|].
  by apply decode_shape.
Qed.

Lemma C2_decode_keeps_all_nodes_witness :
  decode (List.map row_of ["/0"; "<0*"; "\0>0*/0"; ">0*"])
  = Some [node_of 0 None; node_of 1 (Some 2); node_of 2 (Some 0);
          node_of 3 (Some 2)]
  ∧ (run_passes decode_passes
       (List.map row_of ["/0"; "<0*"; "\0>0*/0"; ">0*"]) (empty_tree 4)
     = Some [node_of 0 None; node_of 1 (Some 2); node_of 2 (Some 0);
             node_of 3 (Some 2)]
     ∧ length [node_of 0 None; node_of 1 (Some 2); node_of 2 (Some 0);
               node_of 3 (Some 2)] = 4%nat
     ∧ List.map id [node_of 0 None; node_of 1 (Some 2); node_of 2 (Some 0);
                    node_of 3 (Some 2)] = [0; 1; 2; 3]).
Proof.
  split; [reflexivity|].
  apply (C2_decode_keeps_all_nodes
           (List.map row_of ["/0"; "<0*"; "\0>0*/0"; ">0*"])).
  reflexivity.
Defined.

(** C8, as stated, fails: on the zero-length label sequence [decode]
    raises nothing. *)
Lemma C8_empty_input_not_raised : decode [] ≠ None.
Proof. vm_compute. discriminate. Qed.

(** C8 (amended): given a zero-length label sequence, [decode] raises no
    error; every pass leaves the tree as it is and the tree with no
    nodes is returned. *)
Theorem C8_decode_empty :
  decode [] = Some []
  ∧ ∀ (t : D_Tree) (p : string) (dir : direction),
      _decoding_step [] t p dir = Some t.
Proof. split; [done|]. by intros t p []. Qed.

(** C4 (code at the failing input): a single row whose payload is the
    starred resolving token [>0*] makes the plane-0 left-to-right pass
    pop its empty stack, which raises; without the star the same row
    decodes to head 0. *)
Theorem C4_starred_resolve_on_empty_stack_raises :
  decode [row_of ">0*"] = None
  ∧ _decoding_step [row_of ">0*"] (empty_tree 1) "0" l2r = None
  ∧ heads_of (decode [row_of ">0"]) = Some [Some 0].
Proof. vm_compute. done. Qed.

(** * Totality of [decode] *)

(** C3 (code at the failing input): a label sequence with a row whose
    payload is the lone character [*] makes the merge read [brks[i-2]]
    at [i = 0] on a list of one slot, which raises, and [decode] with
    it, whether the row stands alone or among rows that decode; the
    claim has [decode] return a tree on every payload. *)
Theorem C3_decode_raises_on_lone_star :
  decode [row_of "*"] = None
  ∧ _merge_brackets (Py.chars "*") = None
  ∧ _decoding_step [row_of "*"] (empty_tree 1) "0" l2r = None
  ∧ decode [row_of "/0"; row_of "*"; row_of ">0*"] = None
  ∧ heads_of (decode [row_of "/0"; row_of EmptyString; row_of ">0*"])
    = Some [None; None; Some 0].
Proof. vm_compute. done. Qed.

(** * Resolving and pushing on one node *)

(** C5, as stated, fails for left-to-right passes: on the fragment
    [/0>0] the plane-0 pass reads the opening token first, so the node
    is pushed before its head is read and, as second node of a
    sequence, is given itself as head; resolving first would have given
    it the node below it on the stack. *)
Lemma C5_l2r_pushes_before_resolving :
  ¬ resolve_before_push l2r "0" (row_of "/0>0")
  ∧ heads_of (_decoding_step [row_of "/0"; row_of "/0>0"] (empty_tree 2)
                             "0" l2r)
    = Some [None; Some 1]
  ∧ heads_of (resolving_pass [row_of "/0"; row_of "/0>0"] (empty_tree 2)
                             "0" l2r)
    = Some [None; Some 0].
Proof.
  split; [|split; reflexivity].
  intros H. specialize (H ["/0"; ">0"] 0%nat 1%nat "/0" ">0").
  cut (1 < 0)%nat; [lia|]. by apply H.
Qed.

(** C5 (amended): every right-to-left pass, for every plane and label
    sequence, does on each row what resolving first and pushing
    afterwards does: every token that holds the resolving marker acts
    on the stack as the row found it, in the order the pass reads the
    tokens (the head becomes the top of the stack, 0 on an empty stack,
    and a starred token pops), and only then the node is pushed, once
    for each token that holds the opening marker.  A left-to-right
    pass, which reads the merged tokens in the order of the fragment,
    does the same on the label sequences in whose rows no token that
    holds the resolving marker comes after a token that holds the
    opening marker. *)
Theorem C5_pass_resolves_before_pushing (lt : LinearizedTree) (t : D_Tree)
    (p : string) (dir : direction) :
  dir = r2l ∨ forallb (row_resolving_first dir p) lt = true →
  _decoding_step lt t p dir = resolving_pass lt t p dir.
Proof.
  intros Hcond.
  assert (∀ row, row ∈ iterrows lt dir →
                 row_resolving_first dir p row = true) as Hrows.
  { intros row Hrow. destruct Hcond as [->|Hall].
    - unfold row_resolving_first.
      destruct (row_brks row) as [brks|] eqn:Hbrks; [|done].
      by apply r2l_resolving_first, (row_brks_shape row).
    - rewrite List.forallb_forall in Hall. apply Hall.
      apply list_elem_of_In.
      destruct dir; [done|]. simpl in Hrow.
      by rewrite list_elem_of_In, <- List.in_rev, <- list_elem_of_In in Hrow. }
  unfold _decoding_step, resolving_pass.
  rewrite (for_each_ext_in (row_step dir p)
             (fun s row =>
                brks ← row_brks row;
                resolve_then_push dir p s row (pass_order dir p brks)));
    [done|].
  intros s row Hrow. by apply row_step_resolving, Hrows.
Qed.

Lemma C5_pass_resolves_before_pushing_witness :
  _decoding_step [row_of "/0"; row_of ">0/0"; row_of ">0*"; row_of ">0*"]
                 (empty_tree 4) "0" l2r
  = resolving_pass [row_of "/0"; row_of ">0/0"; row_of ">0*"; row_of ">0*"]
                   (empty_tree 4) "0" l2r.
Proof.
  apply (C5_pass_resolves_before_pushing
           [row_of "/0"; row_of ">0/0"; row_of ">0*"; row_of ">0*"]
           (empty_tree 4) "0" l2r).
  right. reflexivity.
Defined.

(** * Order of the passes *)

(** C9, as stated, fails: when a row carries resolving tokens of two
    passes, the pass that runs last decides its head.  On the rows
    [/0], [/1], [>0>1] the order of [decode] gives the third node
    head 1, and running plane 1 l2r first gives it head 0. *)
Lemma C9_pass_order_matters :
  heads_of (run_passes [("0", l2r); ("0", r2l); ("1", l2r); ("1", r2l)]
              (List.map row_of ["/0"; "/1"; ">0>1"]) (empty_tree 3))
  ≠ heads_of (run_passes [("1", l2r); ("0", l2r); ("0", r2l); ("1", r2l)]
                (List.map row_of ["/0"; "/1"; ">0>1"]) (empty_tree 3)).
Proof. vm_compute. discriminate. Qed.

(** C9 (amended): for every label sequence in which each row carries
    resolving tokens of at most one of the four passes, running the
    passes in any permutation of the order (plane 0 l2r, plane 0 r2l,
    plane 1 l2r, plane 1 r2l) gives the same result as [decode]: the
    same tree, heads included, or the same failure. *)
Theorem C9_passes_commute (lt : LinearizedTree)
    (order : list (string * direction)) :
  forallb one_pass_row lt = true →
  order ≡ₚ decode_passes →
  run_passes order lt (empty_tree (length lt)) = decode lt.
Proof.
  intros Hone Hperm.
  rewrite decode_run_passes.
  rewrite !run_passes_heads by apply empty_tree_length.
  apply heads_passes_perm; [done..|].
  intros x Hx. by rewrite <- Hperm.
Qed.

Lemma C9_passes_commute_witness :
  run_passes [("1", r2l); ("0", r2l); ("1", l2r); ("0", l2r)]
             (List.map row_of ["/0"; "<0*"; "<1*"; "\0>0*/0"; ">0*\1"])
             (empty_tree 5)
  = decode (List.map row_of ["/0"; "<0*"; "<1*"; "\0>0*/0"; ">0*\1"]).
Proof.
  apply (C9_passes_commute
           (List.map row_of ["/0"; "<0*"; "<1*"; "\0>0*/0"; ">0*\1"])).
  - reflexivity.
  - apply (Permutation_trans (l' := [("1", r2l); ("0", l2r); ("0", r2l);
                                     ("1", l2r)])).
    + apply perm_skip.
      apply (Permutation_trans (l' := [("0", r2l); ("0", l2r); ("1", l2r)])).
      * apply perm_skip, perm_swap.
      * apply perm_swap.
    + change ([("1", r2l); ("0", l2r); ("0", r2l); ("1", l2r)])
        with ([("1", r2l)] ++ [("0", l2r); ("0", r2l); ("1", l2r)]).
      change decode_passes
        with ([("0", l2r); ("0", r2l); ("1", l2r)] ++ [("1", r2l)]).
      apply Permutation_app_comm.
Defined.

(** * The encoder step of a plane *)

(** C6: run on fragments made of encoder tokens, the encoding step of
    plane [p] appends to the fragment of each node, in some order and
    after what the fragment held: the node's dependent marker ([<p] for
    a left arc, [>p] for a right arc, with [*] fused right after it
    exactly when the node is flagged leftmost or rightmost) if the node
    is a dependent of the plane, and each governor marker ([\p], [/p])
    exactly once if the node governs at least one arc of that direction
    in the plane, however many, and not at all otherwise. *)
Theorem C6_encoding_step_markers (p : string) (plane : D_Plane)
    (tb0 : list (list string)) :
  plane_digit p →
  Forall (Forall (fun tok => enc_token tok = true)) tb0 →
  Forall (arc_ok (length tb0)) plane →
  ∃ tb,
    encoding_step plane (join <$> tb0) (brk_chars_of p) = Some (join <$> tb)
    ∧ ∀ (i : nat) (toks0 : list string),
        tb0 !! i = Some toks0 → gov_free p toks0 →
        ∃ added,
          tb !! i = Some (toks0 ++ added)
          ∧ added ≡ₚ plane_tokens p plane plane (Z.of_nat i)
          ∧ (∀ left,
               count_occ string_dec added (gov_marker p left)
               = if has_dep left plane (Z.of_nat i) then 1%nat else 0%nat)
          ∧ (∀ d h, d ∈ plane → id d = Z.of_nat i → id d ≠ 0 →
                    head d = Some h →
                    dep_token p plane d h ∈ added).
Proof.
  intros Hp Htb0 Hplane.
  exists (token_step_plane p plane plane tb0). split.
  { unfold encoding_step. by apply encoding_step_tokens. }
  assert (added_by p plane [] tb0 tb0) as Hstart.
  { split; [done|]. intros i toks0 Hi _. exists [].
    split; [by rewrite app_nil_r|done]. }
  pose proof (token_step_added p plane tb0 plane [] tb0 Hplane Hstart)
    as [_ Hend].
  intros i toks0 Hi Hfree.
  destruct (Hend i toks0 Hi Hfree) as (added & Hadded & Hperm).
  simpl in Hperm. exists added. split; [done|]. split; [done|]. split.
  - intros left.
    rewrite <- (plane_tokens_count_gov p plane plane (Z.of_nat i) left).
    by apply Permutation_count_occ.
  - intros d h Hd Hdi Hid Hh. rewrite Hperm. unfold plane_tokens.
    apply elem_of_app. right. apply elem_of_app. left.
    rewrite <- Hdi. by apply own_tokens_elem.
Qed.

Lemma C6_encoding_step_markers_witness :
  ∃ tb,
    encoding_step example_plane (join <$> [[]; []; []; []; []])
                  (brk_chars_of "0")
    = Some (join <$> tb)
    ∧ ∀ (i : nat) (toks0 : list string),
        [[]; []; []; []; []] !! i = Some toks0 → gov_free "0" toks0 →
        ∃ added,
          tb !! i = Some (toks0 ++ added)
          ∧ added ≡ₚ plane_tokens "0" example_plane example_plane
                                  (Z.of_nat i)
          ∧ (∀ left,
               count_occ string_dec added (gov_marker "0" left)
               = if has_dep left example_plane (Z.of_nat i)
                 then 1%nat else 0%nat)
          ∧ (∀ d h, d ∈ example_plane → id d = Z.of_nat i → id d ≠ 0 →
                    head d = Some h →
                    dep_token "0" example_plane d h ∈ added).
Proof.
  apply (C6_encoding_step_markers "0" example_plane [[]; []; []; []; []]).
  - by left.
  - repeat constructor.
  - repeat constructor; intros _; eexists;
      (split; [reflexivity|]); unfold in_range; simpl; lia.
Defined.

(** * C1: round trip *)

(** C1: for every well-formed tree and every partitioner that returns
    for it two crossing-free planes which together hold every arc, no
    arc being left out, [encode] returns a label sequence, [decode]
    returns a tree on that sequence, and the decoded tree has one node
    per node of the tree with, position by position, the same id, and
    for every node other than the sentinel the same head, the same
    relation, the same word and the same tag (the relation, the word
    and the tag of the sentinel row come back as well). *)
Theorem C1_round_trip (two_planar : D_Tree → D_Plane * D_Plane)
    (t : D_Tree) :
  well_formed t →
  two_plane_partition t (two_planar t) →
  ∃ (lt : LinearizedTree) (t' : D_Tree),
    encode two_planar t = Some lt
    ∧ decode lt = Some t'
    ∧ length t' = length t
    ∧ ∀ (i : nat) (nd : D_Node),
        t !! i = Some nd →
        ∃ nd', t' !! i = Some nd'
               ∧ id nd' = id nd
               ∧ (id nd ≠ 0 → head nd' = head nd)
               ∧ relation nd' = relation nd
               ∧ word nd' = word nd
               ∧ upos nd' = upos nd.
Proof.
  intros Hwf Hpart.
  pose proof Hpart as (Hs1 & Hs2 & _).
  destruct (decode_encoded (two_planar t) t Hwf Hpart)
    as (t' & Hdec & Hlen & Hnodes).
  exists (List.map (encoded_row (two_planar t)) t), t'.
  split; [by apply encode_rows|]. split; [done|]. split; [done|].
  intros i nd Hi.
  destruct (Hnodes i nd Hi) as (nd' & Hi' & ? & ? & ? & ? & ? & _).
  by exists nd'.
Qed.

Lemma C1_round_trip_witness :
  ∃ (lt : LinearizedTree) (t' : D_Tree),
    encode two_planar_greedy crossing_tree = Some lt
    ∧ decode lt = Some t'
    ∧ length t' = length crossing_tree
    ∧ ∀ (i : nat) (nd : D_Node),
        crossing_tree !! i = Some nd →
        ∃ nd', t' !! i = Some nd'
               ∧ id nd' = id nd
               ∧ (id nd ≠ 0 → head nd' = head nd)
               ∧ relation nd' = relation nd
               ∧ word nd' = word nd
               ∧ upos nd' = upos nd.
Proof.
  apply (C1_round_trip two_planar_greedy crossing_tree).
  - exact crossing_tree_well_formed.
  - exact crossing_tree_partition.
Defined.

(** * Further properties of the merge and of the decoder *)

(** X1: [_merge_brackets] raises (the read of [brks[i-2]] at [i = 0]
    falls outside the list) exactly when its argument is the
    one-element list [["*"]]; on every other list of strings it
    returns. *)
Theorem X1_merge_raises_iff (brks : list string) :
  _merge_brackets brks = None ↔ brks = ["*"].
Proof.
  split.
  - intros Hnone. destruct (decide (brks = ["*"])) as [|Hne]; [done|].
    destruct (merge_total brks Hne) as [r Hr]. congruence.
  - by intros ->.
Qed.

(** The height of the stack along the tokens of a row, read back from a
    run that returned. *)
Lemma head_steps_depth_inv (a k : string) (cur : Z) (toks : list string) :
  ∀ (stack : list Z) (oh : option Z) (r : list Z * option Z),
    Py.for_each (head_step a k cur) toks (stack, oh) = Some r →
    Py.for_each (depth_step a k) toks (length stack) = Some (length r.1).
Proof.
  induction toks as [|tok toks IH]; intros stack oh r.
  - simpl. by intros [= <-].
  - cbn [Py.for_each]. rewrite head_step_eq. unfold depth_step.
    set (stack1 := if Py.contains a tok then cur :: stack else stack).
    assert ((if Py.contains a tok then S (length stack) else length stack)
            = length stack1) as ->
      by (unfold stack1; by destruct (Py.contains a tok)).
    destruct (Py.contains k tok); simpl; [|by apply IH].
    destruct (Py.contains "*" tok); simpl; [|by apply IH].
    destruct stack1 as [|top stack2]; simpl; [done|]. by apply IH.
Qed.

Lemma row_tokens_not_star (dir : direction) (p : string) (row : Row) :
  is_Some (row_tokens dir p row) → xi (r_label row) ≠ "*".
Proof.
  intros [toks Htoks] Heq. unfold row_tokens in Htoks.
  by rewrite Heq in Htoks.
Qed.

Lemma heads_run_depth_inv (dir : direction) (p : string) (rows : list Row) :
  ∀ (cur : Z) (stack : list Z) (r : list Z * list (option Z)),
    heads_run dir p cur rows stack = Some r →
    Forall (fun row => xi (r_label row) ≠ "*") rows
    ∧ Py.for_each (row_depth dir p) rows (length stack)
      = Some (length r.1).
Proof.
  induction rows as [|row rows IH]; intros cur stack r; simpl.
  - by intros [= <-].
  - unfold row_heads, row_depth.
    destruct (row_tokens dir p row) as [toks|] eqn:Htoks; [|done]. simpl.
    destruct (Py.for_each (head_step _ _ cur) toks (stack, None))
      as [r1|] eqn:Hr1; [|done]. simpl.
    destruct (heads_run dir p (next_node dir cur) rows r1.1)
      as [r2|] eqn:Hr2; [|done]. simpl. intros [= <-]. simpl.
    apply head_steps_depth_inv in Hr1. rewrite Hr1. simpl.
    destruct (IH _ _ _ Hr2) as [Hrows Hd]. split; [|done].
    constructor; [|done].
    apply (row_tokens_not_star dir p). by rewrite Htoks.
Qed.

Lemma pass_heads_balanced (lt : LinearizedTree) (p : string)
    (dir : direction) :
  is_Some (pass_heads lt p dir) →
  Forall (fun row => xi (r_label row) ≠ "*") lt
  ∧ balanced lt (p, dir) = true.
Proof.
  intros [heads Hh]. unfold pass_heads in Hh. unfold balanced. simpl.
  destruct dir; simpl in *.
  - destruct (heads_run l2r p 0 lt []) as [r|] eqn:Hrun; [|done].
    apply heads_run_depth_inv in Hrun as [Hrows Hd]. simpl in Hd.
    by rewrite Hd.
  - destruct (heads_run r2l p _ (List.rev lt) []) as [r|] eqn:Hrun; [|done].
    apply heads_run_depth_inv in Hrun as [Hrows Hd]. simpl in Hd.
    rewrite Hd. split; [|done].
    apply Forall_rev in Hrows. by rewrite List.rev_involutive in Hrows.
Qed.

(** X2: [decode] returns a tree exactly when no payload is the lone
    [*] (on which the merge raises) and none of the four passes meets a
    starred resolving token with an empty stack (on which [stack.pop()]
    raises); on every other label sequence it raises. *)
Theorem X2_decode_returns_iff (lt : LinearizedTree) :
  is_Some (decode lt)
  ↔ Forall (fun row => xi (r_label row) ≠ "*") lt
    ∧ forallb (balanced lt) decode_passes = true.
Proof.
  rewrite decode_heads. split.
  - intros [t Ht].
    destruct (pass_heads lt "0" l2r) as [h1|] eqn:H1; [|done].
    destruct (pass_heads lt "0" r2l) as [h2|] eqn:H2; [|done].
    destruct (pass_heads lt "1" l2r) as [h3|] eqn:H3; [|done].
    destruct (pass_heads lt "1" r2l) as [h4|] eqn:H4; [|done].
    destruct (pass_heads_balanced lt "0" l2r) as [Hrows B1];
      [by rewrite H1|].
    destruct (pass_heads_balanced lt "0" r2l) as [_ B2]; [by rewrite H2|].
    destruct (pass_heads_balanced lt "1" l2r) as [_ B3]; [by rewrite H3|].
    destruct (pass_heads_balanced lt "1" r2l) as [_ B4]; [by rewrite H4|].
    split; [done|]. unfold decode_passes. cbn [forallb].
    by rewrite B1, B2, B3, B4.
  - intros [Hrows Hbal]. unfold decode_passes in Hbal. cbn [forallb] in Hbal.
    apply andb_prop in Hbal as [B1 Hbal].
    apply andb_prop in Hbal as [B2 Hbal].
    apply andb_prop in Hbal as [B3 Hbal].
    apply andb_prop in Hbal as [B4 _].
    destruct (balanced_pass_heads lt "0" l2r Hrows B1) as [h1 ->].
    destruct (balanced_pass_heads lt "0" r2l Hrows B2) as [h2 ->].
    destruct (balanced_pass_heads lt "1" l2r Hrows B3) as [h3 ->].
    destruct (balanced_pass_heads lt "1" r2l Hrows B4) as [h4 ->].
    by eexists.
Qed.

Lemma decoded_node_feats (row : Row) (oh : option Z) (nd : D_Node) :
  feats (decoded_node row oh nd) = feats nd.
Proof. by destruct oh. Qed.

(** The tree returned by [decode], read position by position. *)
Lemma decode_lookup (lt : LinearizedTree) (t : D_Tree) (i : nat)
    (row : Row) :
  decode lt = Some t → lt !! i = Some row →
  ∃ o1 o2 o3 o4,
    t !! i
    = Some (decoded_node row o4
              (decoded_node row o3
                 (decoded_node row o2
                    (decoded_node row o1 (empty_node (Z.of_nat i)))))).
Proof.
  rewrite decode_heads. intros Hdec Hrow.
  destruct (pass_heads lt "0" l2r) as [h1|] eqn:H1; [|done].
  destruct (pass_heads lt "0" r2l) as [h2|] eqn:H2; [|done].
  destruct (pass_heads lt "1" l2r) as [h3|] eqn:H3; [|done].
  destruct (pass_heads lt "1" r2l) as [h4|] eqn:H4; [|done].
  simpl in Hdec. injection Hdec as <-.
  pose proof (lookup_lt_Some _ _ _ Hrow) as Hlt.
  apply pass_heads_length in H1, H2, H3, H4.
  destruct (lookup_lt_is_Some_2 h1 i) as [o1 Ho1]; [lia|].
  destruct (lookup_lt_is_Some_2 h2 i) as [o2 Ho2]; [lia|].
  destruct (lookup_lt_is_Some_2 h3 i) as [o3 Ho3]; [lia|].
  destruct (lookup_lt_is_Some_2 h4 i) as [o4 Ho4]; [lia|].
  exists o1, o2, o3, o4.
  repeat (apply apply_heads_lookup; [done..|]).
  by apply empty_tree_lookup.
Qed.

(** X3: whenever [decode] returns, the node at each position carries
    the word, the tag and the relation of the row at that position
    ([update_word], [update_upos], [update_relation]); the features of
    the row are not copied, the node keeps those of the empty tree. *)
Theorem X3_decode_copies_rows (lt : LinearizedTree) (t : D_Tree) (i : nat)
    (row : Row) :
  decode lt = Some t → lt !! i = Some row →
  ∃ nd, t !! i = Some nd
        ∧ id nd = Z.of_nat i
        ∧ word nd = r_word row
        ∧ upos nd = r_postag row
        ∧ relation nd = li (r_label row)
        ∧ feats nd = feats (empty_node (Z.of_nat i)).
Proof.
  intros Hdec Hrow.
  destruct (decode_lookup lt t i row Hdec Hrow)
    as (o1 & o2 & o3 & o4 & Hnd).
  eexists. split; [exact Hnd|].
  rewrite !decoded_node_feats.
  destruct (decoded_node_fields row o4
              (decoded_node row o3
                 (decoded_node row o2
                    (decoded_node row o1 (empty_node (Z.of_nat i))))))
    as (-> & -> & -> & -> & _).
  destruct (decoded_node_fields row o3
              (decoded_node row o2
                 (decoded_node row o1 (empty_node (Z.of_nat i)))))
    as (-> & _).
  destruct (decoded_node_fields row o2
              (decoded_node row o1 (empty_node (Z.of_nat i))))
    as (-> & _).
  by destruct (decoded_node_fields row o1 (empty_node (Z.of_nat i)))
    as (-> & _).
Qed.

Lemma X3_decode_copies_rows_witness :
  ∃ nd, [node_of 0 None; node_of 1 (Some 0)] !! 1%nat = Some nd
        ∧ id nd = 1
        ∧ word nd = r_word (row_of ">0*")
        ∧ upos nd = r_postag (row_of ">0*")
        ∧ relation nd = li (r_label (row_of ">0*"))
        ∧ feats nd = feats (empty_node 1).
Proof.
  apply (X3_decode_copies_rows [row_of "/0"; row_of ">0*"]
           [node_of 0 None; node_of 1 (Some 0)] 1 (row_of ">0*")).
  - reflexivity.
  - reflexivity.
Defined.

Lemma chars_length (s : string) : length (Py.chars s) = String.length s.
Proof. induction s as [|c s IH]; simpl; [done|]. by rewrite IH. Qed.

(** X4: the tokens the merge returns for the characters of a payload
    are never empty, each of them is one character of the payload
    followed by fused plane digits and stars only (or fused digits and
    stars alone, when a digit or star had nothing before it to fuse
    into), and there are no more tokens than the payload has
    characters.  A marker that starts with a bracket character can
    therefore only occur at the start of a token. *)
Theorem X4_merge_tokens_shape (s : string) (toks : list string) :
  _merge_brackets (Py.chars s) = Some toks →
  Forall (fun tok => tok ≠ EmptyString
                     ∧ match tok with
                       | EmptyString => True
                       | String _ rest => fused_chars rest = true
                       end) toks
  ∧ (length toks <= String.length s)%nat.
Proof.
  intros Hm. pose proof (merge_shape s toks Hm) as Hshape.
  unfold _merge_brackets in Hm.
  destruct (merge_loop _ 0 _) as [l|] eqn:Hl; [|done].
  simpl in Hm. injection Hm as <-. split.
  - rewrite Forall_forall in *. intros tok Htok. split.
    + apply list_elem_of_In, List.filter_In in Htok as [_ Htok].
      unfold nonempty in Htok. apply negb_true_iff in Htok.
      by apply String.eqb_neq in Htok.
    + by apply Hshape.
  - apply merge_loop_length in Hl.
    rewrite <- chars_length, <- Hl. apply List.filter_length_le.
Qed.

Lemma X4_merge_tokens_shape_witness :
  Forall (fun tok => tok ≠ EmptyString
                     ∧ match tok with
                       | EmptyString => True
                       | String _ rest => fused_chars rest = true
                       end) ["\0"; ">0*"; "/0"; "10"]
  ∧ (length ["\0"; ">0*"; "/0"; "10"] <= String.length "0\0>0*/01")%nat.
Proof.
  apply (X4_merge_tokens_shape "0\0>0*/01"). reflexivity.
Defined.

(** * Further properties of one pass *)

Lemma rev_lookup {A} (l : list A) (i : nat) :
  (i < length l)%nat → List.rev l !! i = l !! (length l - S i)%nat.
Proof. intros Hi. rewrite rev_alt. by apply (reverse_lookup l i). Qed.

Lemma head_steps_side (P : Z → Prop) (a k : string) (cur : Z)
    (toks : list string) :
  P cur →
  ∀ (stack : list Z) (oh : option Z) (r : list Z * option Z),
    Forall P stack → (∀ h, oh = Some h → h = 0 ∨ P h) →
    Py.for_each (head_step a k cur) toks (stack, oh) = Some r →
    Forall P r.1 ∧ ∀ h, r.2 = Some h → h = 0 ∨ P h.
Proof.
  intros Hcur. induction toks as [|tok toks IH]; intros stack oh r Hst Hoh.
  - simpl. by intros [= <-].
  - cbn [Py.for_each]. rewrite head_step_eq.
    set (stack1 := if Py.contains a tok then cur :: stack else stack).
    assert (Forall P stack1) as Hst1.
    { unfold stack1. destruct (Py.contains a tok); [by constructor|done]. }
    assert (Py.top_or 0 stack1 = 0 ∨ P (Py.top_or 0 stack1)) as Htop.
    { destruct Hst1 as [|top rest Htop _]; simpl; [by left|by right]. }
    destruct (Py.contains k tok); simpl; [|by apply IH].
    destruct (Py.contains "*" tok); simpl.
    + destruct Hst1 as [|top rest Ht Hrest]; simpl; [done|].
      apply IH; [done|]. by intros h [= <-].
    + apply IH; [done|]. by intros h [= <-].
Qed.

Lemma not_after_next (dir : direction) (g cur : Z) :
  not_after dir g cur → not_after dir g (next_node dir cur).
Proof. unfold not_after, next_node. destruct dir; simpl; lia. Qed.

Lemma heads_run_side (dir : direction) (p : string) (rows : list Row) :
  ∀ (cur : Z) (stack : list Z) (r : list Z * list (option Z)),
    Forall (fun g => not_after dir g cur) stack →
    heads_run dir p cur rows stack = Some r →
    ∀ (k : nat) (h : Z),
      r.2 !! k = Some (Some h) → h = 0 ∨ not_after dir h (cursor_at dir cur k).
Proof.
  induction rows as [|row rows IH]; intros cur stack r Hst; simpl.
  - intros [= <-] k h Hk. done.
  - unfold row_heads.
    destruct (row_tokens dir p row) as [toks|]; [|done]. simpl.
    destruct (Py.for_each (head_step _ _ cur) toks (stack, None))
      as [r1|] eqn:Hr1; [|done]. simpl.
    destruct (heads_run dir p (next_node dir cur) rows r1.1)
      as [r2|] eqn:Hr2; [|done]. simpl. intros [= <-]. simpl.
    apply (head_steps_side (fun g => not_after dir g cur)) in Hr1
      as [Hst1 Hoh1]; [| |done|done].
    2: { unfold not_after. destruct dir; simpl; lia. }
    intros [|k] h Hk; simpl in Hk.
    + injection Hk as Hk. destruct (Hoh1 h Hk) as [?|Hh]; [by left|].
      right. unfold cursor_at, not_after in *. destruct dir; simpl in *; lia.
    + assert (Forall (fun g => not_after dir g (next_node dir cur)) r1.1)
        as Hst2.
      { eapply Forall_impl; [exact Hst1|]. intros g.
        apply not_after_next. }
      destruct (IH _ _ _ Hst2 Hr2 k h Hk) as [?|Hh]; [by left|].
      right. unfold cursor_at, not_after, next_node in *.
      destruct dir; simpl in *; lia.
Qed.

Lemma pass_heads_side (lt : LinearizedTree) (p : string) (dir : direction)
    (heads : list (option Z)) (i : nat) (h : Z) :
  pass_heads lt p dir = Some heads → heads !! i = Some (Some h) →
  h = 0 ∨ not_after dir h (Z.of_nat i).
Proof.
  unfold pass_heads. destruct dir.
  - destruct (heads_run l2r p 0 lt []) as [r|] eqn:Hrun; [|done].
    simpl. intros [= <-] Hi.
    by apply (heads_run_side l2r p lt 0 [] r (Forall_nil_2 _) Hrun i h).
  - destruct (heads_run r2l p _ (List.rev lt) []) as [r|] eqn:Hrun; [|done].
    simpl. intros [= <-] Hi.
    pose proof (heads_run_length _ _ _ _ _ _ Hrun) as Hlen.
    rewrite length_rev in Hlen.
    pose proof (lookup_lt_Some _ _ _ Hi) as Hlt. rewrite length_rev in Hlt.
    rewrite rev_lookup in Hi by done.
    destruct (heads_run_side r2l p (List.rev lt) _ [] r (Forall_nil_2 _)
                Hrun _ h Hi) as [?|Hh]; [by left|].
    right. unfold not_after, cursor_at in *. simpl in *. lia.
Qed.

(** X5: a pass attaches a node only to the side it comes from.  When a
    left-to-right pass changes the head of the node at position [i],
    the new head is a position from 0 to [i]; when a right-to-left pass
    does, the new head is a position from [i] to the last one, or 0
    (the fallback on an empty stack).  The position [i] itself is
    possible: a row may push its node before it resolves. *)
Theorem X5_pass_attaches_to_its_side (lt : LinearizedTree) (t t' : D_Tree)
    (p : string) (dir : direction) (i : nat) (nd nd' : D_Node) :
  length t = length lt →
  _decoding_step lt t p dir = Some t' →
  t !! i = Some nd → t' !! i = Some nd' →
  head nd' = head nd
  ∨ ∃ h, head nd' = Some h
         ∧ 0 <= h < Z.of_nat (length lt)
         ∧ if is_l2r dir then h <= Z.of_nat i
           else h = 0 ∨ Z.of_nat i <= h.
Proof.
  intros Hlen Hstep Hnd Hnd'.
  rewrite decoding_step_heads in Hstep by done.
  destruct (pass_heads lt p dir) as [heads|] eqn:Hh; [|done].
  simpl in Hstep. injection Hstep as <-.
  pose proof (lookup_lt_Some _ _ _ Hnd) as Hi.
  pose proof (pass_heads_length _ _ _ _ Hh) as Hhl.
  destruct (lookup_lt_is_Some_2 lt i) as [row Hrow]; [lia|].
  destruct (lookup_lt_is_Some_2 heads i) as [oh Hoh]; [lia|].
  rewrite (apply_heads_lookup lt heads t i row oh nd Hrow Hoh Hnd) in Hnd'.
  injection Hnd' as <-.
  destruct (decoded_node_fields row oh nd) as (_ & _ & _ & _ & ->).
  destruct oh as [h|]; [|by left]. right. exists h. split; [done|].
  split.
  - apply pass_heads_range in Hh.
    by apply (Forall_lookup_1 _ _ _ _ Hh Hoh h).
  - destruct (pass_heads_side lt p dir heads i h Hh Hoh) as [->|Hside];
      unfold not_after in *; destruct dir; simpl in *; auto; lia.
Qed.

Lemma X5_pass_attaches_to_its_side_witness :
  head (node_of 1 (Some 1)) = head (empty_node 1)
  ∨ ∃ h, head (node_of 1 (Some 1)) = Some h
         ∧ 0 <= h < Z.of_nat (length [row_of "/0"; row_of "/0>0"])
         ∧ if is_l2r l2r then h <= Z.of_nat 1
           else h = 0 ∨ Z.of_nat 1 <= h.
Proof.
  apply (X5_pass_attaches_to_its_side
           [row_of "/0"; row_of "/0>0"] (empty_tree 2)
           [node_of 0 None; node_of 1 (Some 1)] "0" l2r 1).
  - reflexivity.
  - reflexivity.
  - reflexivity.
  - reflexivity.
Defined.

Lemma decoded_node_twice (row : Row) (oh : option Z) (nd : D_Node) :
  decoded_node row oh (decoded_node row oh nd) = decoded_node row oh nd.
Proof. by destruct oh. Qed.

Lemma apply_heads_twice (rows : list Row) :
  ∀ (heads : list (option Z)) (t : D_Tree),
    apply_heads rows heads (apply_heads rows heads t)
    = apply_heads rows heads t.
Proof.
  induction rows as [|row rows IH]; intros [|oh heads] [|nd t];
    simpl; try done.
  by rewrite decoded_node_twice, IH.
Qed.

(** X6: a pass is idempotent: run again on the tree it has returned,
    with the same label sequence, plane and direction, it returns that
    tree unchanged (the mutators write the same values again). *)
Theorem X6_pass_idempotent (lt : LinearizedTree) (t t1 : D_Tree)
    (p : string) (dir : direction) :
  length t = length lt →
  _decoding_step lt t p dir = Some t1 →
  _decoding_step lt t1 p dir = Some t1.
Proof.
  intros Hlen Hstep. rewrite decoding_step_heads in Hstep by done.
  destruct (pass_heads lt p dir) as [heads|] eqn:Hh; [|done].
  simpl in Hstep. injection Hstep as <-.
  rewrite decoding_step_heads.
  - rewrite Hh. simpl. by rewrite apply_heads_twice.
  - apply apply_heads_length; [|done]. by eapply pass_heads_length.
Qed.

Lemma X6_pass_idempotent_witness :
  _decoding_step [row_of "/0"; row_of ">0*"]
                 [mk_node 0 None "rel" "w" "t" [];
                  mk_node 1 (Some 0) "rel" "w" "t" []] "0" l2r
  = Some [mk_node 0 None "rel" "w" "t" [];
          mk_node 1 (Some 0) "rel" "w" "t" []].
Proof.
  apply (X6_pass_idempotent [row_of "/0"; row_of ">0*"] (empty_tree 2)).
  - reflexivity.
  - reflexivity.
Defined.

(** X7: a pass changes heads only where its own resolving marker
    stands: at a position whose row carries no token that contains the
    resolving marker of the pass ([>p] left to right, [<p] right to
    left), the node keeps the head it had. *)
Theorem X7_pass_keeps_other_heads (lt : LinearizedTree) (t t' : D_Tree)
    (p : string) (dir : direction) (i : nat) (row : Row) (nd : D_Node) :
  length t = length lt →
  _decoding_step lt t p dir = Some t' →
  lt !! i = Some row → t !! i = Some nd →
  has_resolving row (p, dir) = false →
  ∃ nd', t' !! i = Some nd' ∧ head nd' = head nd.
Proof.
  intros Hlen Hstep Hrow Hnd Hno.
  rewrite decoding_step_heads in Hstep by done.
  destruct (pass_heads lt p dir) as [heads|] eqn:Hh; [|done].
  simpl in Hstep. injection Hstep as <-.
  pose proof (lookup_lt_Some _ _ _ Hnd) as Hi.
  pose proof (pass_heads_length _ _ _ _ Hh) as Hhl.
  destruct (lookup_lt_is_Some_2 heads i) as [oh Hoh]; [lia|].
  exists (decoded_node row oh nd). split; [by apply apply_heads_lookup|].
  apply pass_heads_resolving in Hh.
  rewrite (Forall2_lookup_lr _ _ _ _ _ _ Hh Hrow Hoh Hno).
  by destruct (decoded_node_fields row None nd) as (_ & _ & _ & _ & ->).
Qed.

Lemma X7_pass_keeps_other_heads_witness :
  ∃ nd', [mk_node 0 (Some 7) "rel" "w" "t" [];
          mk_node 1 (Some 0) "rel" "w" "t" []] !! 0%nat = Some nd'
         ∧ head nd' = head (node_of 0 (Some 7)).
Proof.
  apply (X7_pass_keeps_other_heads
           [row_of "/0"; row_of ">0*"]
           [node_of 0 (Some 7); node_of 1 None]
           [mk_node 0 (Some 7) "rel" "w" "t" [];
            mk_node 1 (Some 0) "rel" "w" "t" []]
           "0" l2r 0 (row_of "/0")).
  - reflexivity.
  - reflexivity.
  - reflexivity.
  - reflexivity.
  - reflexivity.
Defined.

(** * The passes [_decode_l2r] and [_decode_r2l] *)

Lemma resolving_first_char (tok : string) :
  slot_shape tok → Py.contains "<0" tok = true →
  ∃ rest, tok = String "<" rest.
Proof. intros Hs. by apply contains_first_char. Qed.

Lemma opening_first_char (tok : string) :
  slot_shape tok → Py.contains "\0" tok = true →
  ∃ rest, tok = String "\" rest.
Proof. intros Hs. by apply contains_first_char. Qed.

(** Along merged tokens in ascending order a right-to-left pass of
    plane 0 first meets the resolving tokens, then only pushes. *)
Lemma sorted_steps (cur : Z) (S : list string) :
  StronglySorted (fun x y => String.leb x y = true) S →
  Forall slot_shape S →
  ∀ st : list Z * D_Tree,
    Py.for_each (token_step "\0" "<0" cur) S st
    = st' ← Py.for_each (token_step "\0" "<0" cur)
                        (List.filter (Py.contains "<0") S) st;
      Some (List.repeat cur (length (List.filter (Py.contains "\0") S))
              ++ st'.1, st'.2).
Proof.
  induction 1 as [|x S HS IH Hx]; intros Hshape st.
  - by destruct st.
  - apply Forall_cons in Hshape as [Hsx Hshape].
    destruct (Py.contains "<0" x) eqn:Hk.
    + destruct (resolving_first_char x Hsx Hk) as [rest ->].
      assert (Py.contains "\0" (String "<" rest) = false) as Ha.
      { destruct (Py.contains "\0" (String "<" rest)) eqn:Ha; [|done].
        by destruct (opening_first_char _ Hsx Ha). }
      cbn [List.filter]. rewrite Hk, Ha. cbn [Py.for_each].
      destruct (token_step "\0" "<0" cur st (String "<" rest)) as [st1|];
        [|done].
      simpl. by apply IH.
    + destruct (Py.contains "\0" x) eqn:Ha.
      * destruct (opening_first_char x Hsx Ha) as [rest ->].
        assert (Forall (fun tok => Py.contains "<0" tok = false)
                       (String "\" rest :: S)) as Hnone.
        { constructor; [done|]. apply Forall_forall. intros y Hy.
          destruct (Py.contains "<0" y) eqn:Hy'; [|done].
          rewrite Forall_forall in Hshape, Hx.
          destruct (resolving_first_char y (Hshape y Hy) Hy') as [r ->].
          by specialize (Hx _ Hy). }
        rewrite (steps_no_resolving _ _ _ _ Hnone).
        by rewrite (filter_none_of _ _ Hnone).
      * cbn [List.filter]. rewrite Hk, Ha. cbn [Py.for_each].
        rewrite (token_step_no_resolving _ _ _ _ _ Hk), Ha. simpl.
        destruct st as [stack t]. by apply IH.
Qed.

(** The order in which a right-to-left pass of plane 0 reads merged
    tokens, whatever bare token the sort key sends to the end, comes to
    this: the resolving tokens in ascending order, then one push for
    each opening token. *)
Lemma r2l_steps_normal (p : string) (cur : Z) (brks : list string) :
  Py.contains "<0" ("\" +:+ p) = false →
  Forall slot_shape brks →
  ∀ st : list Z * D_Tree,
    Py.for_each (token_step "\0" "<0" cur) (pass_order r2l p brks) st
    = st' ← Py.for_each (token_step "\0" "<0" cur)
                        (sort_strings (List.filter (Py.contains "<0") brks))
                        st;
      Some (List.repeat cur (length (List.filter (Py.contains "\0") brks))
              ++ st'.1, st'.2).
Proof.
  intros Hbare Hshape st.
  assert (pass_order r2l p brks ≡ₚ brks) as Hperm
    by apply (sort_by_perm (r2l_key p) key_leb).
  rewrite <- (Permutation_length
                (filter_perm (Py.contains "\0") _ _ Hperm)).
  rewrite r2l_order_split in *.
  set (S := sort_strings (List.filter (fun x => negb (is_bare p x)) brks))
    in *.
  set (B := List.filter (is_bare p) brks) in *.
  assert (StronglySorted (fun x y => String.leb x y = true) S) as HS
    by apply (sort_by_sorted (fun x : string => x) String.leb
                String.leb_total string_leb_trans).
  assert (Forall slot_shape S) as HshS
    by (by apply sort_strings_forall, filter_Forall).
  assert (Forall (fun tok => Py.contains "<0" tok = false) B) as HB.
  { apply Forall_forall. intros y Hy.
    apply list_elem_of_In, List.filter_In in Hy as [_ Hy].
    apply String.eqb_eq in Hy. by subst y. }
  rewrite for_each_app, (sorted_steps cur S HS HshS).
  assert (List.filter (Py.contains "<0") S
          = sort_strings (List.filter (Py.contains "<0") brks)) as ->.
  { apply (StronglySorted_unique_strong
             (fun x y => String.leb x y = true)).
    - intros x y _ _. apply String.leb_antisym.
    - by apply sorted_filter.
    - apply (sort_by_sorted (fun x : string => x) String.leb
               String.leb_total string_leb_trans).
    - unfold sort_strings at 1.
      rewrite (sort_by_perm (fun x : string => x) String.leb).
      rewrite <- (filter_perm (Py.contains "<0") _ _ Hperm).
      rewrite List.filter_app, (filter_none_of _ _ HB).
      by rewrite app_nil_r. }
  destruct (Py.for_each _ (sort_strings _) st) as [st'|]; [|done].
  simpl. rewrite (steps_no_resolving _ _ _ _ HB). simpl.
  rewrite List.filter_app, length_app, Nat.add_comm, List.repeat_app.
  by rewrite <- app_assoc.
Qed.

Lemma r2l_row_agrees (s : pass_state) (row : Row) :
  r2l_row s row = row_step r2l "0" s row.
Proof.
  unfold r2l_row, row_step.
  destruct (_merge_brackets _) as [brks|] eqn:Hm; [|done]. simpl.
  assert (Forall slot_shape brks) as Hshape.
  { destruct (String.eqb _ D_NONE_LABEL).
    - by injection Hm as <-.
    - by eapply merge_shape. }
  destruct (update_word _ _ _) as [t1|]; [|done]. simpl.
  destruct (update_upos _ _ _) as [t2|]; [|done]. simpl.
  destruct (update_relation _ _ _) as [t3|]; [|done]. simpl.
  change (sort_by backslash_key key_leb brks)
    with (pass_order r2l EmptyString brks).
  change (sort_by (r2l_key "0") key_leb brks)
    with (pass_order r2l "0" brks).
  change (s_append_brk r2l "0") with "\0".
  change (s_peek_brk r2l "0") with "<0".
  by rewrite (r2l_steps_normal EmptyString), (r2l_steps_normal "0").
Qed.

Lemma legacy_r2l_agrees (lt : LinearizedTree) (t : D_Tree) :
  _decode_r2l lt t = _decoding_step lt t "0" r2l.
Proof.
  unfold _decode_r2l, _decoding_step. simpl.
  by rewrite (for_each_ext r2l_row (row_step r2l "0") _ r2l_row_agrees).
Qed.

Lemma legacy_l2r_agrees (lt : LinearizedTree) (t : D_Tree) :
  _decode_l2r lt t = _decoding_step lt t "0" l2r.
Proof. reflexivity. Qed.

(** X8: the two passes [_decode_l2r] and [_decode_r2l] that the class
    keeps beside [_decoding_step] compute, on every label sequence and
    every tree, what [_decoding_step] computes for plane 0 in the same
    direction, failures included.  For [_decode_r2l] this holds although
    its sort key sends the bare [\] to the end and not the opening
    marker [\0]: among merged tokens every token that resolves starts
    with [<] and so sorts before every token that pushes, and pushes of
    the same node commute. *)
Theorem X8_legacy_passes_agree (lt : LinearizedTree) (t : D_Tree) :
  _decode_l2r lt t = _decoding_step lt t "0" l2r
  ∧ _decode_r2l lt t = _decoding_step lt t "0" r2l.
Proof. split; [apply legacy_l2r_agrees|apply legacy_r2l_agrees]. Qed.

(** Rows on which the pass reads no resolving token: the pass returns
    and assigns no head. *)
Lemma head_steps_none (a k : string) (cur : Z) (toks : list string) :
  existsb (Py.contains k) toks = false →
  ∀ (stack : list Z) (oh : option Z),
    ∃ stack', Py.for_each (head_step a k cur) toks (stack, oh)
              = Some (stack', oh).
Proof.
  induction toks as [|tok toks IH]; intros Hno stack oh.
  - by eexists.
  - simpl in Hno. apply orb_false_elim in Hno as [Htok Hno].
    cbn [Py.for_each]. rewrite head_step_eq, Htok. simpl.
    by apply IH.
Qed.

Lemma heads_run_none (dir : direction) (p : string) (rows : list Row) :
  Forall (fun row => xi (r_label row) ≠ "*"
                     ∧ has_resolving row (p, dir) = false) rows →
  ∀ (cur : Z) (stack : list Z),
    ∃ stack', heads_run dir p cur rows stack
              = Some (stack', List.map (fun _ => None) rows).
Proof.
  induction 1 as [|row rows [Hstar Hno] _ IH]; intros cur stack.
  - by eexists.
  - simpl. unfold row_heads. unfold has_resolving in Hno. simpl in Hno.
    destruct (row_tokens_total dir p row Hstar) as [toks Htoks].
    rewrite Htoks in *. simpl in *.
    destruct (head_steps_none (s_append_brk dir p) (s_peek_brk dir p)
                cur toks Hno stack None) as [stack1 ->].
    simpl. destruct (IH (next_node dir cur) stack1) as [stack2 ->].
    simpl. by eexists.
Qed.

Lemma pass_heads_none (lt : LinearizedTree) (p : string) (dir : direction) :
  Forall (fun row => xi (r_label row) ≠ "*"
                     ∧ has_resolving row (p, dir) = false) lt →
  pass_heads lt p dir = Some (List.map (fun _ => None) lt).
Proof.
  intros Hlt. unfold pass_heads. destruct dir.
  - by destruct (heads_run_none l2r p lt Hlt 0 []) as [stack' ->].
  - destruct (heads_run_none r2l p (List.rev lt) (Forall_rev Hlt)
                (Z.of_nat (length lt) - 1) []) as [stack' ->].
    simpl. by rewrite <- List.map_rev, List.rev_involutive.
Qed.

Lemma decoded_node_none_after (row : Row) (oh : option Z) (nd : D_Node) :
  decoded_node row None (decoded_node row oh nd) = decoded_node row oh nd.
Proof. by destruct oh. Qed.

Lemma apply_heads_none_after (rows : list Row) :
  ∀ (heads : list (option Z)) (t : D_Tree),
    apply_heads rows (List.map (fun _ => None) rows)
                (apply_heads rows heads t)
    = apply_heads rows heads t.
Proof.
  induction rows as [|row rows IH]; intros [|oh heads] [|nd t];
    cbn [apply_heads List.map]; try done.
  by rewrite decoded_node_none_after, IH.
Qed.

(** X14: on a label sequence in which no row carries a resolving token
    of plane 1 ([>1] or [<1]), [decode] computes what the two passes
    [_decode_l2r] and [_decode_r2l] compute one after the other on the
    empty tree (the calls left commented out in [decode]), failures
    included: the two passes of plane 1 assign no head and write again
    the words, tags and relations already there. *)
Theorem X14_decode_single_plane (lt : LinearizedTree) :
  Forall (fun row => has_resolving row ("1", l2r) = false
                     ∧ has_resolving row ("1", r2l) = false) lt →
  decode lt
  = t1 ← _decode_l2r lt (empty_tree (length lt)); _decode_r2l lt t1.
Proof.
  intros Hno. rewrite decode_heads, legacy_l2r_agrees.
  rewrite decoding_step_heads by apply empty_tree_length.
  destruct (pass_heads lt "0" l2r) as [h1|] eqn:H1; [|done]. simpl.
  rewrite legacy_r2l_agrees.
  rewrite decoding_step_heads
    by (apply apply_heads_length;
        [by eapply pass_heads_length|apply empty_tree_length]).
  destruct (pass_heads lt "0" r2l) as [h2|] eqn:H2; [|done]. simpl.
  destruct (pass_heads_balanced lt "0" l2r) as [Hstar _]; [by rewrite H1|].
  assert (∀ dir, Forall (fun row => xi (r_label row) ≠ "*"
                                    ∧ has_resolving row ("1", dir) = false)
                        lt) as Hrows.
  { intros dir. rewrite Forall_forall in *. intros row Hrow.
    split; [by apply Hstar|]. destruct (Hno row Hrow). by destruct dir. }
  rewrite !pass_heads_none by done. simpl.
  by rewrite !apply_heads_none_after.
Qed.

Lemma X14_decode_single_plane_witness :
  decode (List.map row_of ["/0"; "<0*"; "\0>0*/0"; ">0*"])
  = t1 ← _decode_l2r (List.map row_of ["/0"; "<0*"; "\0>0*/0"; ">0*"])
                     (empty_tree
                        (length (List.map row_of
                                   ["/0"; "<0*"; "\0>0*/0"; ">0*"])));
    _decode_r2l (List.map row_of ["/0"; "<0*"; "\0>0*/0"; ">0*"]) t1.
Proof.
  apply (X14_decode_single_plane
           (List.map row_of ["/0"; "<0*"; "\0>0*/0"; ">0*"])).
  repeat (constructor; [split; reflexivity|]). constructor.
Defined.

(** * Further properties of the encoder *)

(** X9: on a well-formed tree whose planes list nodes of the tree in
    its order, [encode] returns one row per node, with the word, tag,
    features and relation of the node, and a payload that spells, for
    plane 0 and then for plane 1: the marker [\p] if the node governs a
    left arc of the plane, the dependent token of the node if the plane
    holds its arc ([<p] or [>p], with [*] when flagged), and the marker
    [/p] if the node governs a right arc of the plane; nothing else, and
    in this order. *)
Theorem X9_encode_payloads (two_planar : D_Tree → D_Plane * D_Plane)
    (t : D_Tree) :
  well_formed t →
  sublist (two_planar t).1 t → sublist (two_planar t).2 t →
  encode two_planar t
  = Some (List.map
            (fun nd =>
               mk_row (word nd) (upos nd) (feats nd)
                 (mk_label
                    (join (plane_tokens "0" (two_planar t).1 (two_planar t).1
                                        (id nd)
                           ++ plane_tokens "1" (two_planar t).2
                                           (two_planar t).2 (id nd)))
                    (relation nd)))
            t).
Proof. apply encode_rows. Qed.

Lemma X9_encode_payloads_witness :
  encode two_planar_greedy crossing_tree
  = Some (List.map
            (fun nd =>
               mk_row (word nd) (upos nd) (feats nd)
                 (mk_label
                    (join (plane_tokens "0"
                             (two_planar_greedy crossing_tree).1
                             (two_planar_greedy crossing_tree).1 (id nd)
                           ++ plane_tokens "1"
                                (two_planar_greedy crossing_tree).2
                                (two_planar_greedy crossing_tree).2 (id nd)))
                    (relation nd)))
            crossing_tree).
Proof.
  apply (X9_encode_payloads two_planar_greedy crossing_tree).
  - exact crossing_tree_well_formed.
  - exact (proj1 crossing_tree_partition).
  - exact (proj1 (proj2 crossing_tree_partition)).
Defined.

Lemma generate_labels_relations (labels_brk : list string)
    (nodes : list D_Node) (labels : list D_Label) :
  generate_labels labels_brk nodes = Some labels →
  List.map li labels = List.map relation nodes.
Proof.
  revert labels. induction nodes as [|nd nodes IH]; intros labels; simpl.
  - by intros [= <-].
  - destruct (Py.get labels_brk (id nd)) as [x|]; [|done]. simpl.
    destruct (generate_labels labels_brk nodes) as [ls|]; [|done]. simpl.
    intros [= <-]. simpl. by rewrite (IH ls).
Qed.

Lemma make_rows_columns (t : D_Tree) :
  ∀ labels : list D_Label,
    length labels = length t →
    let rows := make_rows (List.map word t) (List.map upos t)
                          (List.map feats t) labels in
    List.map r_word rows = List.map word t
    ∧ List.map r_postag rows = List.map upos t
    ∧ List.map r_feats rows = List.map feats t
    ∧ List.map r_label rows = labels.
Proof.
  induction t as [|nd t IH]; intros [|l labels] Hlen; try done.
  simpl in Hlen. injection Hlen as Hlen.
  destruct (IH labels Hlen) as (Hw & Hp & Hf & Hl). simpl.
  by rewrite Hw, Hp, Hf, Hl.
Qed.

(** X10: whenever [encode] returns, the rows stand in the order of the
    nodes of the tree, one row per node, and carry the words, the tags,
    the features and (as the relation part of the label) the relations
    of the nodes unchanged. *)
Theorem X10_encode_keeps_columns (two_planar : D_Tree → D_Plane * D_Plane)
    (t : D_Tree) (lt : LinearizedTree) :
  encode two_planar t = Some lt →
  length lt = length t
  ∧ List.map r_word lt = List.map word t
  ∧ List.map r_postag lt = List.map upos t
  ∧ List.map r_feats lt = List.map feats t
  ∧ List.map (fun row => li (r_label row)) lt = List.map relation t.
Proof.
  unfold encode.
  destruct (encoding_step _ _ (brk_chars_of "0")) as [lb1|]; [|done]. simpl.
  destruct (encoding_step _ _ (brk_chars_of "1")) as [lb2|]; [|done]. simpl.
  destruct (generate_labels lb2 t) as [labels|] eqn:Hlabels; [|done]. simpl.
  intros [= <-].
  pose proof (generate_labels_relations _ _ _ Hlabels) as Hrel.
  assert (length labels = length t) as Hlen
    by (by rewrite <- (length_map li), Hrel, length_map).
  destruct (make_rows_columns t labels Hlen) as (Hw & Hp & Hf & Hl).
  split; [by rewrite <- (length_map r_word), Hw, length_map|].
  do 3 (split; [done|]).
  by rewrite <- (List.map_map r_label li), Hl.
Qed.

Lemma X10_encode_keeps_columns_witness :
  length (List.map row_of ["/0"; "<0*"; "\0>0*/0"; ">0*"])
  = length example_tree
  ∧ List.map r_word (List.map row_of ["/0"; "<0*"; "\0>0*/0"; ">0*"])
    = List.map word example_tree
  ∧ List.map r_postag (List.map row_of ["/0"; "<0*"; "\0>0*/0"; ">0*"])
    = List.map upos example_tree
  ∧ List.map r_feats (List.map row_of ["/0"; "<0*"; "\0>0*/0"; ">0*"])
    = List.map feats example_tree
  ∧ List.map (fun row => li (r_label row))
             (List.map row_of ["/0"; "<0*"; "\0>0*/0"; ">0*"])
    = List.map relation example_tree.
Proof.
  apply (X10_encode_keeps_columns two_planar_greedy example_tree).
  reflexivity.
Defined.

(** X11: on a well-formed tree whose planes list nodes of the tree in
    its order, [encode] never writes the none label [-NONE-] nor the
    lone [*] as a payload (a node without any token gets the empty
    payload): on the rows it writes, [decode] never takes the
    none-label branch and the merge never raises. *)
Theorem X11_encode_never_none (two_planar : D_Tree → D_Plane * D_Plane)
    (t : D_Tree) :
  well_formed t →
  sublist (two_planar t).1 t → sublist (two_planar t).2 t →
  ∃ lt, encode two_planar t = Some lt
        ∧ Forall (fun row => xi (r_label row) ≠ D_NONE_LABEL
                             ∧ xi (r_label row) ≠ "*") lt.
Proof.
  intros Hwf Hs1 Hs2. eexists. split; [by apply encode_rows|].
  apply Forall_forall. intros row Hrow.
  apply list_elem_of_In, List.in_map_iff in Hrow as (nd & <- & _).
  simpl.
  pose proof (encoded_tokens_enc (two_planar t) (id nd)) as Henc.
  split.
  - apply String.eqb_neq. by apply join_not_none.
  - destruct (encoded_tokens (two_planar t) (id nd)) as [|tok toks];
      [done|].
    apply Forall_cons in Henc as [Htok _].
    change (join (tok :: toks)) with (tok +:+ join toks).
    apply enc_token_cases in Htok.
    repeat (apply elem_of_cons in Htok as [->|Htok]);
      try discriminate; by apply elem_of_nil in Htok.
Qed.

Lemma X11_encode_never_none_witness :
  ∃ lt, encode two_planar_greedy crossing_tree = Some lt
        ∧ Forall (fun row => xi (r_label row) ≠ D_NONE_LABEL
                             ∧ xi (r_label row) ≠ "*") lt.
Proof.
  apply (X11_encode_never_none two_planar_greedy crossing_tree).
  - exact crossing_tree_well_formed.
  - exact (proj1 crossing_tree_partition).
  - exact (proj1 (proj2 crossing_tree_partition)).
Defined.

(** A pass resolves nothing at a node of the tree that its plane does
    not hold. *)
Lemma res_of_absent (t : D_Tree) (plane : D_Plane) (dir : direction)
    (nd : D_Node) :
  dense_ids t → sublist plane t → nd ∈ t → nd ∉ plane →
  res_of plane dir (id nd) = None.
Proof.
  intros Hd Hsub Hnd Hout.
  destruct (res_of plane dir (id nd)) as [[h star]|] eqn:Hr; [|done].
  apply res_of_Some in Hr as (nd' & Hin & Hid & _).
  destruct Hout. replace nd with nd'; [done|].
  apply (dense_ids_inj t); try done. by eapply elem_of_sublist.
Qed.

(** Decoding the rows of a tree encoded with two crossing-free planes,
    whether or not they hold every arc. *)
Lemma decode_encoded_planes (planes : D_Plane * D_Plane) (t : D_Tree) :
  well_formed t →
  sublist planes.1 t → sublist planes.2 t →
  crossing_free planes.1 → crossing_free planes.2 →
  ∃ t', decode (List.map (encoded_row planes) t) = Some t'
        ∧ length t' = length t
        ∧ ∀ (i : nat) (nd : D_Node),
            t !! i = Some nd →
            ∃ nd', t' !! i = Some nd'
                   ∧ head nd'
                     = match fst <$> res_of planes.2 r2l (id nd),
                             fst <$> res_of planes.2 l2r (id nd),
                             fst <$> res_of planes.1 r2l (id nd),
                             fst <$> res_of planes.1 l2r (id nd) with
                       | Some h, _, _, _ => Some h
                       | None, Some h, _, _ => Some h
                       | None, None, Some h, _ => Some h
                       | None, None, None, oh => oh
                       end.
Proof.
  intros [Hd Harcs] Hs1 Hs2 Hf1 Hf2.
  assert (ascending planes.1) as Ha1
    by (eapply sublist_ascending; [exact Hs1|by apply dense_ids_ascending]).
  assert (ascending planes.2) as Ha2
    by (eapply sublist_ascending; [exact Hs2|by apply dense_ids_ascending]).
  assert (Forall (arc_ok (length t)) planes.1) as Hok1
    by (by eapply sublist_Forall).
  assert (Forall (arc_ok (length t)) planes.2) as Hok2
    by (by eapply sublist_Forall).
  rewrite decode_heads.
  rewrite (pass_heads_encoded l2r "0" planes t),
    (pass_heads_encoded r2l "0" planes t),
    (pass_heads_encoded l2r "1" planes t),
    (pass_heads_encoded r2l "1" planes t);
    try done; try (by left); try (by right).
  change (plane_of planes "0") with planes.1.
  change (plane_of planes "1") with planes.2.
  set (lt := List.map (encoded_row planes) t).
  set (h1 := List.map (fun nd => fst <$> res_of planes.1 l2r (id nd)) t).
  set (h2 := List.map (fun nd => fst <$> res_of planes.1 r2l (id nd)) t).
  set (h3 := List.map (fun nd => fst <$> res_of planes.2 l2r (id nd)) t).
  set (h4 := List.map (fun nd => fst <$> res_of planes.2 r2l (id nd)) t).
  set (t0 := empty_tree (length lt)).
  set (t1 := apply_heads lt h1 t0).
  set (t2 := apply_heads lt h2 t1).
  set (t3 := apply_heads lt h3 t2).
  exists (apply_heads lt h4 t3). split; [done|].
  assert (length lt = length t) as Hlt by apply length_map.
  assert (length t0 = length lt) as Hl0 by apply empty_tree_length.
  assert (length t1 = length lt) as Hl1
    by (apply apply_heads_length;
        [unfold h1, lt; by rewrite !length_map|done]).
  assert (length t2 = length lt) as Hl2
    by (apply apply_heads_length;
        [unfold h2, lt; by rewrite !length_map|done]).
  assert (length t3 = length lt) as Hl3
    by (apply apply_heads_length;
        [unfold h3, lt; by rewrite !length_map|done]).
  split.
  { rewrite apply_heads_length;
      [done|unfold h4, lt; by rewrite !length_map|done]. }
  intros i nd Hi.
  pose proof (lookup_lt_Some _ _ _ Hi) as Hlen.
  assert (lt !! i = Some (encoded_row planes nd)) as Hrow
    by (unfold lt; by rewrite map_lookup, Hi).
  assert (t0 !! i = Some (empty_node (Z.of_nat i))) as H0
    by (apply empty_tree_lookup; lia).
  pose proof (apply_heads_lookup lt h1 t0 i _ _ _ Hrow
                ltac:(unfold h1; by rewrite map_lookup, Hi) H0) as Ht1.
  pose proof (apply_heads_lookup lt h2 t1 i _ _ _ Hrow
                ltac:(unfold h2; by rewrite map_lookup, Hi) Ht1) as Ht2.
  pose proof (apply_heads_lookup lt h3 t2 i _ _ _ Hrow
                ltac:(unfold h3; by rewrite map_lookup, Hi) Ht2) as Ht3.
  pose proof (apply_heads_lookup lt h4 t3 i _ _ _ Hrow
                ltac:(unfold h4; by rewrite map_lookup, Hi) Ht3) as Ht4.
  eexists. split; [exact Ht4|].
  by destruct (fst <$> res_of planes.2 r2l (id nd)),
       (fst <$> res_of planes.2 l2r (id nd)),
       (fst <$> res_of planes.1 r2l (id nd)),
       (fst <$> res_of planes.1 l2r (id nd)).
Qed.

(** X12: the round trip when the partitioner leaves arcs out.  For a
    well-formed tree and two crossing-free planes that list nodes of
    the tree in its order, [encode] returns, [decode] returns on its
    result, and the decoded tree has one node per node of the tree
    where: a node other than the sentinel whose arc lies in one of the
    planes has its head back; a node whose arc lies in neither plane
    has its head unset, and so has the sentinel.  Exactly the arcs
    that were placed are recovered. *)
Theorem X12_round_trip_of_placed_arcs
    (two_planar : D_Tree → D_Plane * D_Plane) (t : D_Tree) :
  well_formed t →
  sublist (two_planar t).1 t → sublist (two_planar t).2 t →
  crossing_free (two_planar t).1 → crossing_free (two_planar t).2 →
  ∃ (lt : LinearizedTree) (t' : D_Tree),
    encode two_planar t = Some lt
    ∧ decode lt = Some t'
    ∧ length t' = length t
    ∧ ∀ (i : nat) (nd : D_Node),
        t !! i = Some nd →
        ∃ nd', t' !! i = Some nd'
               ∧ (id nd ≠ 0 →
                  nd ∈ (two_planar t).1 ∨ nd ∈ (two_planar t).2 →
                  head nd' = head nd)
               ∧ (nd ∉ (two_planar t).1 → nd ∉ (two_planar t).2 →
                  head nd' = None)
               ∧ (id nd = 0 → head nd' = None).
Proof.
  intros Hwf Hs1 Hs2 Hf1 Hf2.
  set (planes := two_planar t) in *.
  destruct (decode_encoded_planes planes t Hwf Hs1 Hs2 Hf1 Hf2)
    as (t' & Hdec & Hlen & Hnodes).
  exists (List.map (encoded_row planes) t), t'.
  split; [by apply encode_rows|]. split; [done|]. split; [done|].
  intros i nd Hi. destruct (Hnodes i nd Hi) as (nd' & Hi' & Hhead).
  exists nd'. split; [done|].
  destruct Hwf as [Hd Harcs].
  assert (nd ∈ t) as Hnd by (by eapply list_elem_of_lookup_2).
  assert (ascending planes.1) as Ha1
    by (eapply sublist_ascending; [exact Hs1|by apply dense_ids_ascending]).
  assert (ascending planes.2) as Ha2
    by (eapply sublist_ascending; [exact Hs2|by apply dense_ids_ascending]).
  rewrite Hhead. clear Hhead. split; [|split].
  - intros Hid Hin. rewrite Forall_forall in Harcs.
    destruct (Harcs nd Hnd Hid) as (h & Hh & _).
    assert (∀ plane dir, sublist plane t →
              fst <$> res_of plane dir (id nd) = None
              ∨ fst <$> res_of plane dir (id nd) = Some h) as Hone.
    { intros plane dir Hsub.
      destruct (fst <$> res_of plane dir (id nd)) as [h'|] eqn:Hr;
        [|by left].
      right. apply (res_of_head t) in Hr; [|done..]. congruence. }
    assert (fst <$> res_of planes.1 l2r (id nd) = Some h
            ∨ fst <$> res_of planes.1 r2l (id nd) = Some h
            ∨ fst <$> res_of planes.2 l2r (id nd) = Some h
            ∨ fst <$> res_of planes.2 r2l (id nd) = Some h) as Hsome.
    { destruct Hin as [Hin|Hin].
      - destruct (res_of_cover planes.1 nd h Ha1 Hin Hid Hh); auto.
      - destruct (res_of_cover planes.2 nd h Ha2 Hin Hid Hh); auto. }
    rewrite Hh.
    destruct (Hone planes.1 l2r Hs1) as [E1|E1];
      destruct (Hone planes.1 r2l Hs1) as [E2|E2];
      destruct (Hone planes.2 l2r Hs2) as [E3|E3];
      destruct (Hone planes.2 r2l Hs2) as [E4|E4];
      rewrite ?E1, ?E2, ?E3, ?E4 in *; try done.
    destruct Hsome as [?|[?|[?|?]]]; done.
  - intros Hout1 Hout2.
    by rewrite !(res_of_absent t planes.1), !(res_of_absent t planes.2).
  - intros Hid. by rewrite Hid, !res_of_sentinel.
Qed.

Lemma greedy_planes (t : D_Tree) :
  sublist (two_planar_greedy t).1 t ∧ sublist (two_planar_greedy t).2 t
  ∧ crossing_free (two_planar_greedy t).1
  ∧ crossing_free (two_planar_greedy t).2.
Proof.
  apply (greedy_place_planes t ([], []) []);
    try done; apply crossing_free_nil.
Qed.

Lemma lossy_tree_well_formed : well_formed lossy_tree.
Proof.
  split.
  - intros [|[|[|[|[|[|[|i]]]]]]] nd; simpl; try done; by intros [= <-].
  - unfold lossy_tree.
    repeat (apply Forall_cons; split); try (by apply Forall_nil);
      intros Hid; try done; eexists; unfold in_range; simpl;
      (split; [reflexivity|]); lia.
Qed.

Lemma X12_round_trip_of_placed_arcs_witness :
  ∃ (lt : LinearizedTree) (t' : D_Tree),
    encode two_planar_greedy lossy_tree = Some lt
    ∧ decode lt = Some t'
    ∧ length t' = length lossy_tree
    ∧ ∀ (i : nat) (nd : D_Node),
        lossy_tree !! i = Some nd →
        ∃ nd', t' !! i = Some nd'
               ∧ (id nd ≠ 0 →
                  nd ∈ (two_planar_greedy lossy_tree).1
                  ∨ nd ∈ (two_planar_greedy lossy_tree).2 →
                  head nd' = head nd)
               ∧ (nd ∉ (two_planar_greedy lossy_tree).1 →
                  nd ∉ (two_planar_greedy lossy_tree).2 →
                  head nd' = None)
               ∧ (id nd = 0 → head nd' = None).
Proof.
  apply (X12_round_trip_of_placed_arcs two_planar_greedy lossy_tree).
  - exact lossy_tree_well_formed.
  - exact (proj1 (greedy_planes lossy_tree)).
  - exact (proj1 (proj2 (greedy_planes lossy_tree))).
  - exact (proj1 (proj2 (proj2 (greedy_planes lossy_tree)))).
  - exact (proj2 (proj2 (proj2 (greedy_planes lossy_tree)))).
Defined.

(** ** When [encode] raises *)

Lemma index_Some_iff (n : nat) (k : Z) :
  is_Some (Py.index n k) ↔ index_ok n k.
Proof.
  unfold Py.index, index_ok.
  destruct (Z.leb_spec 0 k).
  - destruct (Z.ltb_spec k (Z.of_nat n)).
    + split; [lia|by eexists].
    + split; [by intros [? ?]|lia].
  - destruct (Z.leb_spec (- Z.of_nat n) k).
    + split; [lia|by eexists].
    + split; [by intros [? ?]|lia].
Qed.

Lemma index_lt (n : nat) (k : Z) (j : nat) :
  Py.index n k = Some j → (j < n)%nat.
Proof.
  unfold Py.index.
  destruct (Z.leb_spec 0 k).
  - destruct (Z.ltb_spec k (Z.of_nat n)); [|done]. intros [= <-]. lia.
  - destruct (Z.leb_spec (- Z.of_nat n) k); [|done]. intros [= <-]. lia.
Qed.

Lemma append_at_Some_iff (lb : list string) (k : Z) (s : string) :
  is_Some (append_at lb k s) ↔ index_ok (length lb) k.
Proof.
  rewrite <- index_Some_iff. unfold append_at, Py.get, Py.set.
  destruct (Py.index (length lb) k) as [j|] eqn:Hj; simpl.
  - destruct (lookup_lt_is_Some_2 lb j) as [x ->];
      [by eapply index_lt|].
    simpl. split; by eexists.
  - split; by intros [? ?].
Qed.

Lemma append_at_length (lb lb' : list string) (k : Z) (s : string) :
  append_at lb k s = Some lb' → length lb' = length lb.
Proof.
  unfold append_at. destruct (Py.get lb k); [|done]. simpl.
  apply set_length.
Qed.

Lemma append_once_Some_iff (lb : list string) (k : Z) (m : string) :
  is_Some (append_once lb k m) ↔ index_ok (length lb) k.
Proof.
  rewrite <- index_Some_iff. unfold append_once, Py.get, Py.set.
  destruct (Py.index (length lb) k) as [j|] eqn:Hj; simpl.
  - destruct (lookup_lt_is_Some_2 lb j) as [x ->];
      [by eapply index_lt|].
    simpl. split; by eexists.
  - split; by intros [? ?].
Qed.

Lemma append_once_length (lb lb' : list string) (k : Z) (m : string) :
  append_once lb k m = Some lb' → length lb' = length lb.
Proof.
  unfold append_once. destruct (Py.get lb k); [|done]. simpl.
  apply set_length.
Qed.

(** One arc: the two writes to the fragment of the dependent and the
    write to the fragment of the governor go through exactly when both
    are indices of the buffer. *)
Lemma arc_writes (lb : list string) (d h : Z) (c m : string)
    (star : bool) :
  let r := lb1 ← append_at lb d c;
           lb2 ← (if star then append_at lb1 d "*" else Some lb1);
           append_once lb2 h m in
  (is_Some r ↔ index_ok (length lb) d ∧ index_ok (length lb) h)
  ∧ ∀ lb', r = Some lb' → length lb' = length lb.
Proof.
  simpl.
  destruct (append_at lb d c) as [lb1|] eqn:H1; simpl.
  2: { split; [|done]. split; [by intros [? ?]|].
       intros [Hd _]. apply (append_at_Some_iff lb d c) in Hd.
       rewrite H1 in Hd. by destruct Hd. }
  pose proof (append_at_length _ _ _ _ H1) as Hl1.
  assert (index_ok (length lb) d) as Hd
    by (apply (append_at_Some_iff lb d c); by rewrite H1).
  assert (∃ lb2, (if star then append_at lb1 d "*" else Some lb1)
                 = Some lb2 ∧ length lb2 = length lb)
    as (lb2 & -> & Hl2).
  { destruct star; [|by exists lb1].
    destruct (proj2 (append_at_Some_iff lb1 d "*")) as [lb2 H2];
      [by rewrite Hl1|].
    exists lb2. split; [done|].
    by rewrite (append_at_length _ _ _ _ H2). }
  simpl. split.
  - rewrite append_once_Some_iff, Hl2. tauto.
  - intros lb' Hlb'. by rewrite (append_once_length _ _ _ _ Hlb').
Qed.

Lemma encoding_node_writes (plane : D_Plane) (p : string)
    (lb : list string) (node : D_Node) :
  head_set node →
  (is_Some (encoding_node plane (brk_chars_of p) lb node)
   ↔ arc_indexed (length lb) node)
  ∧ ∀ lb', encoding_node plane (brk_chars_of p) lb node = Some lb' →
           length lb' = length lb.
Proof.
  intros Hset. unfold encoding_node, arc_indexed.
  destruct (Z.eqb_spec (id node) 0) as [Hid|Hid].
  - split; [|by intros lb' [= <-]]. split; [done|by eexists].
  - destruct (Hset Hid) as [h Hh]. rewrite Hh. simpl.
    assert ((index_ok (length lb) (id node) ∧ index_ok (length lb) h)
            ↔ (id node ≠ 0 →
               index_ok (length lb) (id node)
               ∧ ∀ h0, Some h = Some h0 → index_ok (length lb) h0)) as <-.
    { split.
      - intros [??] _. split; [done|]. by intros h0 [= <-].
      - intros H. destruct (H Hid) as [? Hh0]. split; [done|].
        by apply Hh0. }
    destruct (is_left_arc (id node) h).
    + apply (arc_writes lb (id node) h ("<" +:+ p) ("\" +:+ p)
               (is_leftmost plane node)).
    + apply (arc_writes lb (id node) h (">" +:+ p) ("/" +:+ p)
               (is_rightmost plane node)).
Qed.

Lemma encoding_nodes_writes (plane : D_Plane) (p : string)
    (nodes : list D_Node) :
  Forall head_set nodes →
  ∀ lb : list string,
    (is_Some (Py.for_each (encoding_node plane (brk_chars_of p)) nodes lb)
     ↔ Forall (arc_indexed (length lb)) nodes)
    ∧ ∀ lb', Py.for_each (encoding_node plane (brk_chars_of p)) nodes lb
             = Some lb' → length lb' = length lb.
Proof.
  induction 1 as [|nd nodes Hnd _ IH]; intros lb.
  - simpl. split; [|by intros lb' [= <-]]. split; [done|by eexists].
  - cbn [Py.for_each].
    destruct (encoding_node_writes plane p lb nd Hnd) as [Hiff Hlen].
    destruct (encoding_node plane (brk_chars_of p) lb nd) as [lb1|];
      simpl.
    + specialize (Hlen lb1 eq_refl). destruct (IH lb1) as [IHiff IHlen].
      rewrite Hlen in IHiff, IHlen. split; [|done].
      rewrite IHiff, Forall_cons. split; [|tauto].
      intros Hrest. split; [|done]. apply Hiff. by eexists.
    + split; [|done]. split; [by intros [? ?]|].
      intros [Hbad _]%Forall_cons. apply Hiff in Hbad. by destruct Hbad.
Qed.

Lemma generate_labels_Some_iff (lb : list string) (nodes : list D_Node) :
  is_Some (generate_labels lb nodes)
  ↔ Forall (fun nd => index_ok (length lb) (id nd)) nodes.
Proof.
  induction nodes as [|nd nodes IH]; simpl.
  - split; [done|by eexists].
  - rewrite Forall_cons, <- IH, <- index_Some_iff.
    unfold Py.get.
    destruct (Py.index (length lb) (id nd)) as [j|] eqn:Hj; simpl.
    + destruct (lookup_lt_is_Some_2 lb j) as [x ->];
        [by eapply index_lt|].
      simpl. destruct (generate_labels lb nodes); simpl.
      * split; [by intros _; split; eexists|by eexists].
      * split; [by intros [? ?]|by intros [_ [? ?]]].
    + split; [by intros [? ?]|by intros [[? ?] _]].
Qed.

(** X13: when [encode] raises.  The fragment buffer has one slot more
    than the tree has nodes, and it is read and written with Python's
    index rule.  So, provided every node of the two planes other than
    the sentinel has a head, [encode] returns exactly when, with [n]
    the number of nodes, the id and the head of every such node of the
    planes and the id of every node of the tree lie between [-(n+1)]
    and [n]; otherwise an index falls outside the buffer and the call
    raises.  In particular a head equal to [n] and negative ids or
    heads down to [-(n+1)] are accepted silently. *)
Theorem X13_encode_returns_iff (two_planar : D_Tree → D_Plane * D_Plane)
    (t : D_Tree) :
  Forall head_set ((two_planar t).1 ++ (two_planar t).2) →
  is_Some (encode two_planar t)
  ↔ Forall (arc_indexed (length t + 1)) ((two_planar t).1 ++ (two_planar t).2)
    ∧ Forall (fun nd => index_ok (length t + 1) (id nd)) t.
Proof.
  intros [Hset1 Hset2]%Forall_app. unfold encode.
  set (lb0 := List.repeat EmptyString (length t + 1)).
  assert (length lb0 = (length t + 1)%nat) as Hl0
    by apply List.repeat_length.
  rewrite Forall_app, <- Hl0.
  destruct (encoding_nodes_writes (two_planar t).1 "0" _ Hset1 lb0)
    as [Hiff1 Hlen1].
  unfold encoding_step.
  destruct (Py.for_each _ (two_planar t).1 lb0) as [lb1|]; simpl.
  2: { split; [by intros [? ?]|]. intros [[Hbad _] _].
       apply Hiff1 in Hbad. by destruct Hbad. }
  specialize (Hlen1 lb1 eq_refl).
  destruct (encoding_nodes_writes (two_planar t).2 "1" _ Hset2 lb1)
    as [Hiff2 Hlen2].
  rewrite Hlen1 in Hiff2, Hlen2.
  destruct (Py.for_each _ (two_planar t).2 lb1) as [lb2|]; simpl.
  2: { split; [by intros [? ?]|]. intros [[_ Hbad] _].
       apply Hiff2 in Hbad. by destruct Hbad. }
  specialize (Hlen2 lb2 eq_refl).
  pose proof (generate_labels_Some_iff lb2 t) as Hiff3.
  rewrite Hlen2 in Hiff3.
  destruct (generate_labels lb2 t) as [labels|]; simpl.
  - split; [|by eexists]. intros _. split; [split|].
    + apply Hiff1. by eexists.
    + apply Hiff2. by eexists.
    + apply Hiff3. by eexists.
  - split; [by intros [? ?]|]. intros [_ Hbad].
    apply Hiff3 in Hbad. by destruct Hbad.
Qed.

Lemma X13_encode_returns_iff_witness :
  is_Some (encode (fun _ => ([node_of 1 (Some 4)], [node_of (-2) (Some 3)]))
                  example_tree)
  ↔ Forall (arc_indexed (length example_tree + 1))
           (([node_of 1 (Some 4)], [node_of (-2) (Some 3)]).1
            ++ ([node_of 1 (Some 4)], [node_of (-2) (Some 3)]).2)
    ∧ Forall (fun nd => index_ok (length example_tree + 1) (id nd))
             example_tree.
Proof.
  apply (X13_encode_returns_iff
           (fun _ => ([node_of 1 (Some 4)], [node_of (-2) (Some 3)]))
           example_tree).
  simpl. repeat constructor; intros _; by eexists.
Defined.
